(** * godx storage client: segment upload pipeline and test disrupter

    A shallow embedding of
      - storage/storageclient (unfinishedUploadSegment and the functions
        IsSegmentUploadComplete, randomAssignSectorTaskToWorker,
        notifyBackupWorkers, dispatchSegment, retrieveDataAndDispatchSegment,
        cleanupUploadSegment, updateUploadSegmentStuckStatus);
      - storage/storageclient/filesystem (standardDisrupter, counterDisrupter).

    Go values are modelled as follows.
      - [int] and [uint64] are integers of [Z]; every arithmetic operation is
        followed by the wrap-around of its type ([wrapInt], [wrapU64]).
      - [float64] is the binary64 type [float] of the standard library.
      - slices are lists, a nil slice is the empty list; an index out of range,
        a division by zero and a nil dereference are the result [Panic].
      - pointers ([*unfinishedUploadSegment], [*worker]) are addresses into two
        stores of the state [World].
      - calls into collaborators that are not part of these files (memory
        manager, file entry, file system, worker channels, stuck loop) are
        recorded in a trace of [event]s, most recent first.  Calls of the
        logger are left out, except the memory sanity check of
        cleanupUploadSegment.
      - constants and functions of other packages (storage.SectorSize,
        RemoteRepairDownloadThreshold, worker.isReady, rand.Int, the erasure
        coder and the cipher) are variables of the section that holds the
        code; the outcome of retrieveLogicalSegmentData, which reads the disk
        or downloads, is an argument of retrieveDataAndDispatchSegment.

    The first part of the file holds the code and the vocabulary of the
    specifications, the second part the proofs. *)

From Stdlib Require Import ZArith Floats Uint63 Lia.
From Stdlib.Init Require Import Byte.
From stdpp Require Import gmap strings list.

Open Scope Z_scope.

(** ** Machine integers *)

Definition wrapU64 (z : Z) : Z := z mod 2 ^ 64.

Definition wrapInt (z : Z) : Z := (z + 2 ^ 63) mod 2 ^ 64 - 2 ^ 63.

(** The conversion [float64(n)] of an [int]: round to nearest, ties to even. *)
Definition float64_of_int (z : Z) : float :=
  if z =? - 2 ^ 63 then PrimFloat.opp 0x1p63%float
  else if z <? 0 then PrimFloat.opp (PrimFloat.of_uint63 (Uint63.of_Z (- z)))
  else PrimFloat.of_uint63 (Uint63.of_Z z).

(** ** The disrupter of package filesystem *)

Module Disrupter.

(** [disruptFunc]: a [func() bool]. *)
Definition disruptFunc := unit -> bool.

(** The interface [disrupter], restricted to the method the counter uses. *)
Class disrupter (D : Type) := { disrupt : D -> string -> bool }.

(** [standardDisrupter]: a map from keyword to disrupt function. *)
Definition standardDisrupter := gmap string disruptFunc.

Definition standard_disrupt (d : standardDisrupter) (s : string) : bool :=
  match d !! s with
  | None => false
  | Some f => f tt
  end.

Definition registerDisruptFunc (d : standardDisrupter) (keyword : string)
    (df : disruptFunc) : standardDisrupter :=
  <[keyword := df]> d.

#[global] Instance standard_is_disrupter : disrupter standardDisrupter :=
  {| disrupt := standard_disrupt |}.

Definition makeNormalDisruptFunc : disruptFunc := fun _ => true.

Definition newNormalDisrupter (keyword : string) : standardDisrupter :=
  registerDisruptFunc ∅ keyword makeNormalDisruptFunc.

(** [counterDisrupter]: an embedded disrupter and the map [counter], which
    is shared by all copies of the struct (the receiver is passed by value,
    the map inside it by reference). *)
Record counterDisrupter (D : Type) := {
  inner : D;
  counter : gmap string Z
}.
Arguments inner {D} _.
Arguments counter {D} _.

Definition newCounterDisrupter {D} (sd : D) : counterDisrupter D :=
  {| inner := sd; counter := ∅ |}.

(** [counterDisrupter.disrupt]: the new state of the counter map and the
    result of the embedded disrupter.  A missing key reads as [c = 0]. *)
Definition counter_disrupt {D} `{disrupter D} (cd : counterDisrupter D)
    (s : string) : counterDisrupter D * bool :=
  let cnt :=
    match counter cd !! s with
    | None => <[s := wrapInt (0 + 1)]> (counter cd)
    | Some c => <[s := 1]> (counter cd)
    end in
  ({| inner := inner cd; counter := cnt |}, disrupt (inner cd) s).

(** [n] calls of [disrupt(s)] in a row. *)
Fixpoint disrupt_times {D} `{disrupter D} (n : nat) (cd : counterDisrupter D)
    (s : string) : counterDisrupter D :=
  match n with
  | O => cd
  | S k => disrupt_times k (fst (counter_disrupt cd s)) s
  end.

End Disrupter.

(** ** Data model of the upload pipeline *)

Definition ptr := positive.

Definition FileID := N.

(** [uploadSegmentID]. *)
Record uploadSegmentID := {
  fid : FileID;
  id_index : Z
}.

#[export] Instance uploadSegmentID_eq_dec : EqDecision uploadSegmentID.
Proof. solve_decision. Defined.

#[export] Instance uploadSegmentID_countable : Countable uploadSegmentID.
Proof.
  refine (inj_countable' (fun i => (fid i, id_index i))
            (fun p => {| fid := fst p; id_index := snd p |}) _).
  intros []; reflexivity.
Defined.

(** What the pipeline reads from [*dxfile.FileSetEntryWithID]. *)
Record fileEntryInfo := {
  feSectorSize : Z;      (* fileEntry.SectorSize(), a uint64 *)
  feMinSectors : Z;      (* fileEntry.ErasureCode().MinSectors(), an int *)
  feDxPath : string      (* fileEntry.DxPath() *)
}.

(** [unfinishedUploadSegment]. *)
Record unfinishedUploadSegment := {
  id : uploadSegmentID;
  fileEntry : fileEntryInfo;
  index : Z;
  offset : Z;
  segLength : Z;              (* the field [length] *)
  memoryNeeded : Z;
  memoryReleased : Z;
  sectorsMinNeedNum : Z;
  sectorsAllNeedNum : Z;
  stuck : bool;
  stuckRepair : bool;
  logicalSegmentData : list (list byte);
  physicalSegmentData : list (list byte);
  sectorSlotsStatus : list bool;
  sectorsCompletedNum : Z;
  sectorsUploadingNum : Z;
  released : bool;
  unusedHosts : gset string;
  workersRemain : Z;
  workerBackups : list ptr
}.

Definition set_memoryReleased (v : Z) (u : unfinishedUploadSegment) :=
  {| id := id u; fileEntry := fileEntry u; index := index u; offset := offset u;
     segLength := segLength u; memoryNeeded := memoryNeeded u; memoryReleased := v;
     sectorsMinNeedNum := sectorsMinNeedNum u;
     sectorsAllNeedNum := sectorsAllNeedNum u; stuck := stuck u;
     stuckRepair := stuckRepair u; logicalSegmentData := logicalSegmentData u;
     physicalSegmentData := physicalSegmentData u;
     sectorSlotsStatus := sectorSlotsStatus u;
     sectorsCompletedNum := sectorsCompletedNum u;
     sectorsUploadingNum := sectorsUploadingNum u; released := released u;
     unusedHosts := unusedHosts u; workersRemain := workersRemain u;
     workerBackups := workerBackups u |}.

Definition set_logicalSegmentData (v : list (list byte))
    (u : unfinishedUploadSegment) :=
  {| id := id u; fileEntry := fileEntry u; index := index u; offset := offset u;
     segLength := segLength u; memoryNeeded := memoryNeeded u;
     memoryReleased := memoryReleased u;
     sectorsMinNeedNum := sectorsMinNeedNum u;
     sectorsAllNeedNum := sectorsAllNeedNum u; stuck := stuck u;
     stuckRepair := stuckRepair u; logicalSegmentData := v;
     physicalSegmentData := physicalSegmentData u;
     sectorSlotsStatus := sectorSlotsStatus u;
     sectorsCompletedNum := sectorsCompletedNum u;
     sectorsUploadingNum := sectorsUploadingNum u; released := released u;
     unusedHosts := unusedHosts u; workersRemain := workersRemain u;
     workerBackups := workerBackups u |}.

Definition set_physicalSegmentData (v : list (list byte))
    (u : unfinishedUploadSegment) :=
  {| id := id u; fileEntry := fileEntry u; index := index u; offset := offset u;
     segLength := segLength u; memoryNeeded := memoryNeeded u;
     memoryReleased := memoryReleased u;
     sectorsMinNeedNum := sectorsMinNeedNum u;
     sectorsAllNeedNum := sectorsAllNeedNum u; stuck := stuck u;
     stuckRepair := stuckRepair u; logicalSegmentData := logicalSegmentData u;
     physicalSegmentData := v;
     sectorSlotsStatus := sectorSlotsStatus u;
     sectorsCompletedNum := sectorsCompletedNum u;
     sectorsUploadingNum := sectorsUploadingNum u; released := released u;
     unusedHosts := unusedHosts u; workersRemain := workersRemain u;
     workerBackups := workerBackups u |}.

Definition set_sectorSlotsStatus (v : list bool) (u : unfinishedUploadSegment) :=
  {| id := id u; fileEntry := fileEntry u; index := index u; offset := offset u;
     segLength := segLength u; memoryNeeded := memoryNeeded u;
     memoryReleased := memoryReleased u;
     sectorsMinNeedNum := sectorsMinNeedNum u;
     sectorsAllNeedNum := sectorsAllNeedNum u; stuck := stuck u;
     stuckRepair := stuckRepair u; logicalSegmentData := logicalSegmentData u;
     physicalSegmentData := physicalSegmentData u;
     sectorSlotsStatus := v;
     sectorsCompletedNum := sectorsCompletedNum u;
     sectorsUploadingNum := sectorsUploadingNum u; released := released u;
     unusedHosts := unusedHosts u; workersRemain := workersRemain u;
     workerBackups := workerBackups u |}.

Definition set_released (v : bool) (u : unfinishedUploadSegment) :=
  {| id := id u; fileEntry := fileEntry u; index := index u; offset := offset u;
     segLength := segLength u; memoryNeeded := memoryNeeded u;
     memoryReleased := memoryReleased u;
     sectorsMinNeedNum := sectorsMinNeedNum u;
     sectorsAllNeedNum := sectorsAllNeedNum u; stuck := stuck u;
     stuckRepair := stuckRepair u; logicalSegmentData := logicalSegmentData u;
     physicalSegmentData := physicalSegmentData u;
     sectorSlotsStatus := sectorSlotsStatus u;
     sectorsCompletedNum := sectorsCompletedNum u;
     sectorsUploadingNum := sectorsUploadingNum u; released := v;
     unusedHosts := unusedHosts u; workersRemain := workersRemain u;
     workerBackups := workerBackups u |}.

Definition set_workersRemain (v : Z) (u : unfinishedUploadSegment) :=
  {| id := id u; fileEntry := fileEntry u; index := index u; offset := offset u;
     segLength := segLength u; memoryNeeded := memoryNeeded u;
     memoryReleased := memoryReleased u;
     sectorsMinNeedNum := sectorsMinNeedNum u;
     sectorsAllNeedNum := sectorsAllNeedNum u; stuck := stuck u;
     stuckRepair := stuckRepair u; logicalSegmentData := logicalSegmentData u;
     physicalSegmentData := physicalSegmentData u;
     sectorSlotsStatus := sectorSlotsStatus u;
     sectorsCompletedNum := sectorsCompletedNum u;
     sectorsUploadingNum := sectorsUploadingNum u; released := released u;
     unusedHosts := unusedHosts u; workersRemain := v;
     workerBackups := workerBackups u |}.

Definition set_workerBackups (v : list ptr) (u : unfinishedUploadSegment) :=
  {| id := id u; fileEntry := fileEntry u; index := index u; offset := offset u;
     segLength := segLength u; memoryNeeded := memoryNeeded u;
     memoryReleased := memoryReleased u;
     sectorsMinNeedNum := sectorsMinNeedNum u;
     sectorsAllNeedNum := sectorsAllNeedNum u; stuck := stuck u;
     stuckRepair := stuckRepair u; logicalSegmentData := logicalSegmentData u;
     physicalSegmentData := physicalSegmentData u;
     sectorSlotsStatus := sectorSlotsStatus u;
     sectorsCompletedNum := sectorsCompletedNum u;
     sectorsUploadingNum := sectorsUploadingNum u; released := released u;
     unusedHosts := unusedHosts u; workersRemain := workersRemain u;
     workerBackups := v |}.

(** [IsSegmentUploadComplete]. *)
Definition IsSegmentUploadComplete (uc : unfinishedUploadSegment) : bool :=
  if (sectorsCompletedNum uc =? sectorsAllNeedNum uc)
     && (sectorsUploadingNum uc =? 0)
  then true
  else if (workersRemain uc =? 0) && (sectorsUploadingNum uc =? 0)
  then true
  else false.

(** [worker]: of the struct only the map from segment to the sector indexes
    handed to the worker is used here. *)
Record worker := {
  sectorIndexMap : gmap ptr (list Z)
}.

(** Calls into the collaborators of the pipeline. *)
Inductive event :=
| EvMemoryReturn (n : Z)                         (* sc.memoryManager.Return(n) *)
| EvSignalUpload (w uc : ptr)                    (* w.signalUploadChan(uc) *)
| EvSetStuckByIndex (uc : ptr) (idx : Z) (stuckFlag : bool)
                                                 (* uc.fileEntry.SetStuckByIndex *)
| EvUpdateDirMetadata (path : string)            (* InitAndUpdateDirMetadata *)
| EvFileClose (uc : ptr)                         (* uc.fileEntry.Close() *)
| EvDeletePending (sid : uploadSegmentID)        (* delete(pendingSegments, id) *)
| EvStuckSegmentSuccess (path : string)          (* stuckSegmentSuccess <- path *)
| EvTmDone                                       (* sc.tm.Done() *)
| EvMemorySanityLog (uc : ptr).                  (* the log of the sanity check *)

(** The state the pipeline works on: the two stores, the pending set of the
    upload heap, the worker pool (in the order its map is iterated), the number
    of draws made from the random source, and the trace. *)
Record World := {
  segs : gmap ptr unfinishedUploadSegment;
  wrks : gmap ptr worker;
  pendingSegments : gset uploadSegmentID;
  workerPool : list ptr;
  randCount : nat;
  trace : list event
}.

Definition set_segs (v : gmap ptr unfinishedUploadSegment) (w : World) :=
  {| segs := v; wrks := wrks w; pendingSegments := pendingSegments w;
     workerPool := workerPool w; randCount := randCount w; trace := trace w |}.

Definition set_wrks (v : gmap ptr worker) (w : World) :=
  {| segs := segs w; wrks := v; pendingSegments := pendingSegments w;
     workerPool := workerPool w; randCount := randCount w; trace := trace w |}.

Definition set_pendingSegments (v : gset uploadSegmentID) (w : World) :=
  {| segs := segs w; wrks := wrks w; pendingSegments := v;
     workerPool := workerPool w; randCount := randCount w; trace := trace w |}.

Definition set_randCount (v : nat) (w : World) :=
  {| segs := segs w; wrks := wrks w; pendingSegments := pendingSegments w;
     workerPool := workerPool w; randCount := v; trace := trace w |}.

Definition set_trace (v : list event) (w : World) :=
  {| segs := segs w; wrks := wrks w; pendingSegments := pendingSegments w;
     workerPool := workerPool w; randCount := randCount w; trace := v |}.

(** ** A state monad with panics *)

(** A call returns a value and the new state, or panics in some state. *)
Inductive Res (A : Type) :=
| Ok (a : A) (w : World)
| Panic (msg : string) (w : World).
Arguments Ok {A} a w.
Arguments Panic {A} msg w.

Definition worldOf {A} (r : Res A) : World :=
  match r with
  | Ok _ w => w
  | Panic _ w => w
  end.

Definition M (A : Type) := World -> Res A.

Definition ret {A} (a : A) : M A := fun w => Ok a w.

Definition bind {A B} (m : M A) (f : A -> M B) : M B :=
  fun w => match m w with
           | Ok a w' => f a w'
           | Panic msg w' => Panic msg w'
           end.

Notation "x <- m ;; k" := (bind m (fun x => k))
  (at level 100, m at next level, right associativity).
Notation "m ;;; k" := (bind m (fun _ => k))
  (at level 100, right associativity).

Definition panic {A} (msg : string) : M A := fun w => Panic msg w.

Definition when (b : bool) (m : M unit) : M unit := if b then m else ret tt.

(** [defer fin; body]: [fin] runs when [body] returns, and also when [body]
    panics; the panic then goes on, replaced by the panic of [fin] if there is
    one. *)
Definition defer (fin : M unit) (body : M unit) : M unit :=
  fun w => match body w with
           | Ok _ w' => fin w'
           | Panic msg w' =>
               match fin w' with
               | Ok _ w'' => Panic msg w''
               | Panic msg' w'' => Panic msg' w''
               end
           end.

Fixpoint forM {A} (l : list A) (f : A -> M unit) : M unit :=
  match l with
  | [] => ret tt
  | x :: l' => f x ;;; forM l' f
  end.

Fixpoint foldM {A S} (l : list A) (f : S -> A -> M S) (s : S) : M S :=
  match l with
  | [] => ret s
  | x :: l' => s' <- f s x ;; foldM l' f s'
  end.

Definition getSeg (uc : ptr) : M unfinishedUploadSegment :=
  fun w => match segs w !! uc with
           | Some u => Ok u w
           | None => Panic "nil pointer dereference" w
           end.

Definition modSeg (uc : ptr)
    (f : unfinishedUploadSegment -> unfinishedUploadSegment) : M unit :=
  fun w => match segs w !! uc with
           | Some u => Ok tt (set_segs (<[uc := f u]> (segs w)) w)
           | None => Panic "nil pointer dereference" w
           end.

Definition getWorker (wp : ptr) : M worker :=
  fun w => match wrks w !! wp with
           | Some x => Ok x w
           | None => Panic "nil pointer dereference" w
           end.

Definition putWorker (wp : ptr) (x : worker) : M unit :=
  fun w => Ok tt (set_wrks (<[wp := x]> (wrks w)) w).

Definition emit (e : event) : M unit :=
  fun w => Ok tt (set_trace (e :: trace w) w).

(** [l[i]] of a slice. *)
Definition sliceGet {A} (l : list A) (i : Z) : M A :=
  if i <? 0 then panic "index out of range"
  else match l !! Z.to_nat i with
       | Some x => ret x
       | None => panic "index out of range"
       end.

(** [l[i] = x] of a slice: the new contents, or nothing when [i] is out of
    range. *)
Definition sliceSet {A} (l : list A) (i : Z) (x : A) : option (list A) :=
  if (0 <=? i) && (i <? Z.of_nat (List.length l))
  then Some (<[Z.to_nat i := x]> l)
  else None.

(** [uc.sectorSlotsStatus[i] = b]. *)
Definition setSlot (uc : ptr) (i : Z) (b : bool) : M unit :=
  u <- getSeg uc ;;
  match sliceSet (sectorSlotsStatus u) i b with
  | Some l => modSeg uc (set_sectorSlotsStatus l)
  | None => panic "index out of range"
  end.

(** [uc.physicalSegmentData[i] = d]. *)
Definition setPhysical (uc : ptr) (i : Z) (d : list byte) : M unit :=
  u <- getSeg uc ;;
  match sliceSet (physicalSegmentData u) i d with
  | Some l => modSeg uc (set_physicalSegmentData l)
  | None => panic "index out of range"
  end.

(** What one call of updateUploadSegmentStuckStatus observes of the shutdown
    state of the client: whether the stop channel is closed at the first
    select, the answer of [sc.Online()], and whether the stop channel wins the
    last select. *)
Record clientStatus := {
  stopped : bool;
  online : bool;
  stopFirst : bool
}.

Section UploadPipeline.

(** Constants and functions of other packages. *)
Variable SectorSize : Z.                         (* storage.SectorSize, uint64 *)
Variable RemoteRepairDownloadThreshold : float.
Variable isReady : ptr -> worker -> unfinishedUploadSegment -> bool.
Variable randInt : nat -> Z.                     (* the n-th rand.Int() *)
Variable Encode : list byte -> list (list byte) * bool.
                                                 (* result, and err != nil *)
Variable Encrypt : list byte -> option (list byte).

Definition randDraw : M Z :=
  fun w => Ok (randInt (randCount w)) (set_randCount (S (randCount w)) w).

(** The body of the loop of randomAssignSectorTaskToWorker at index [i]. *)
Definition assignSector (workers : list ptr) (uc : ptr) (i : nat) : M unit :=
  let length := Z.of_nat (List.length workers) in
  r <- randDraw ;;
  if length =? 0 then panic "integer divide by zero"
  else
    let workerIndex := Z.rem (wrapInt (Z.of_nat i + r)) length in
    u <- getSeg uc ;;
    s <- sliceGet (sectorSlotsStatus u) (Z.of_nat i) ;;
    if s then ret tt
    else
      wp <- sliceGet workers workerIndex ;;
      x <- getWorker wp ;;
      if isReady wp x u then
        let indexes :=
          match sectorIndexMap x !! uc with
          | Some indexes => indexes ++ [Z.of_nat i]
          | None => [] ++ [Z.of_nat i]
          end in
        putWorker wp {| sectorIndexMap := <[uc := indexes]> (sectorIndexMap x) |} ;;;
        setSlot uc (Z.of_nat i) true
      else ret tt.

(** [randomAssignSectorTaskToWorker]. *)
Definition randomAssignSectorTaskToWorker (workers : list ptr) (uc : ptr)
    : M unit :=
  u <- getSeg uc ;;
  forM (seq 0 (List.length (sectorSlotsStatus u))) (assignSector workers uc).

Definition signalAll (workers : list ptr) (uc : ptr) : M unit :=
  forM workers (fun wp => emit (EvSignalUpload wp uc)).

(** [notifyBackupWorkers]. *)
Definition notifyBackupWorkers (uc : ptr) : M unit :=
  u <- getSeg uc ;;
  let backupWorkers := workerBackups u in
  modSeg uc (set_workerBackups []) ;;;
  randomAssignSectorTaskToWorker backupWorkers uc ;;;
  signalAll backupWorkers uc.

(** [dispatchSegment]. *)
Definition dispatchSegment (uc : ptr) : M unit :=
  u <- getSeg uc ;;
  (fun w =>
     if decide (id u ∈ pendingSegments w) then Ok tt w
     else Ok tt (set_pendingSegments ({[ id u ]} ∪ pendingSegments w) w)) ;;;
  (fun w =>
     modSeg uc (fun u => set_workersRemain
       (wrapInt (workersRemain u + Z.of_nat (List.length (workerPool w)))) u) w) ;;;
  workers <- (fun w => Ok (workerPool w) w) ;;
  randomAssignSectorTaskToWorker workers uc ;;;
  signalAll workers uc.

(** The test [(1-RemoteRepairDownloadThreshold)*float64(sectorsNeedNum) <=
    float64(sectorsCompleteNum)] of updateUploadSegmentStuckStatus.  The
    subtraction is done in float64; for the thresholds 0.1 and 0.125 this is
    also the float64 nearest to the exact difference. *)
Definition successfulRepair (sectorsNeedNum sectorsCompleteNum : Z) : bool :=
  PrimFloat.leb
    (PrimFloat.mul (PrimFloat.sub 1%float RemoteRepairDownloadThreshold)
                   (float64_of_int sectorsNeedNum))
    (float64_of_int sectorsCompleteNum).

(** [updateUploadSegmentStuckStatus]. *)
Definition updateUploadSegmentStuckStatus (cs : clientStatus) (uc : ptr)
    : M unit :=
  u <- getSeg uc ;;
  let index := id_index (id u) in
  let stuck := stuck u in
  let sectorsCompleteNum := sectorsCompletedNum u in
  let sectorsNeedNum := sectorsAllNeedNum u in
  let stuckRepair := stuckRepair u in
  let successfulRepair := successfulRepair sectorsNeedNum sectorsCompleteNum in
  let clientOffline := if stopped cs then true else negb (online cs) in
  if negb successfulRepair && clientOffline then ret tt
  else
    emit (EvSetStuckByIndex uc (wrapInt index) (negb successfulRepair)) ;;;
    let dxPath := feDxPath (fileEntry u) in
    emit (EvUpdateDirMetadata dxPath) ;;;
    if stuck && successfulRepair && stuckRepair then
      if stopFirst cs then ret tt
      else emit (EvStuckSegmentSuccess dxPath)
    else ret tt.

(** The body of the first loop of cleanupUploadSegment at index [i], on the
    local variables [sectorsAvailable] and [memoryReleased]. *)
Definition trimSector (uc : ptr) (acc : Z * Z) (i : nat) : M (Z * Z) :=
  let '(sectorsAvailable, memoryReleased) := acc in
  u <- getSeg uc ;;
  s <- sliceGet (sectorSlotsStatus u) (Z.of_nat i) ;;
  if s then ret acc
  else if sectorsAvailable >=? workersRemain u then
    setPhysical uc (Z.of_nat i) [] ;;;
    setSlot uc (Z.of_nat i) true ;;;
    ret (sectorsAvailable, wrapU64 (memoryReleased + SectorSize))
  else ret (wrapInt (sectorsAvailable + 1), memoryReleased).

(** The first loop of cleanupUploadSegment, from [sectorsAvailable := 0] and
    [memoryReleased = 0]; the body never changes the length of the slice. *)
Definition releaseUnneededSectors (uc : ptr) : M (Z * Z) :=
  u <- getSeg uc ;;
  foldM (seq 0 (List.length (sectorSlotsStatus u))) (trimSector uc) (0, 0).

(** [cleanupUploadSegment]. *)
Definition cleanupUploadSegment (cs : clientStatus) (uc : ptr) : M unit :=
  acc <- releaseUnneededSectors uc ;;
  let '(sectorsAvailable, memoryReleased') := acc in
  u <- getSeg uc ;;
  let segmentComplete := IsSegmentUploadComplete u in
  let released' := released u in
  when (segmentComplete && negb released') (modSeg uc (set_released true)) ;;;
  modSeg uc (fun u =>
    set_memoryReleased (wrapU64 (memoryReleased u + memoryReleased')) u) ;;;
  u <- getSeg uc ;;
  let totalMemoryReleased := memoryReleased u in
  when (sectorsAvailable >? 0) (notifyBackupWorkers uc) ;;;
  when (memoryReleased' >? 0) (emit (EvMemoryReturn memoryReleased')) ;;;
  when (segmentComplete && negb released')
    (updateUploadSegmentStuckStatus cs uc ;;;
     emit (EvFileClose uc) ;;;
     u <- getSeg uc ;;
     emit (EvDeletePending (id u)) ;;;
     (fun w => Ok tt (set_pendingSegments (pendingSegments w ∖ {[ id u ]}) w))) ;;;
  u <- getSeg uc ;;
  when (segmentComplete && negb (totalMemoryReleased =? memoryNeeded u))
    (emit (EvMemorySanityLog uc)).

(** The bytes handed to the erasure coder:
    [make([]byte, uint64(len(logical))*SectorSize)] followed by the appends. *)
Definition segmentBytes (logical : list (list byte)) : list byte :=
  let made :=
    repeat x00 (Z.to_nat (wrapU64 (wrapU64 (Z.of_nat (List.length logical)) * SectorSize))) in
  fold_left (fun acc b => acc ++ b) logical made.

Definition sectorCompletedMemoryOf (slots : list bool) : Z :=
  fold_left (fun acc (s : bool) => if s then wrapU64 (acc + SectorSize) else acc)
            slots 0.

(** The body of the encryption loop of retrieveDataAndDispatchSegment. *)
Definition encryptSector (segment : ptr) (i : nat) : M unit :=
  u <- getSeg segment ;;
  s <- sliceGet (sectorSlotsStatus u) (Z.of_nat i) ;;
  if s then setPhysical segment (Z.of_nat i) []
  else
    d <- sliceGet (physicalSegmentData u) (Z.of_nat i) ;;
    match Encrypt d with
    | None => ret tt
    | Some cipherData => setPhysical segment (Z.of_nat i) cipherData
    end.

Definition addMemoryReleased (segment : ptr) (n : Z) : M unit :=
  modSeg segment (fun u => set_memoryReleased (wrapU64 (memoryReleased u + n)) u).

(** The statements of retrieveDataAndDispatchSegment after the two defers.
    [retrieved] is the outcome of retrieveLogicalSegmentData: the logical data
    it stored in the segment, or [None] for an error. *)
Definition retrieveAndDispatchBody (erasureCodingMemory sectorCompletedMemory : Z)
    (retrieved : option (list (list byte))) (segment : ptr) : M unit :=
  match retrieved with
  | None =>
      modSeg segment (set_logicalSegmentData []) ;;;
      modSeg segment (set_workersRemain 0) ;;;
      emit (EvMemoryReturn (wrapU64 (erasureCodingMemory + sectorCompletedMemory))) ;;;
      addMemoryReleased segment (wrapU64 (erasureCodingMemory + sectorCompletedMemory))
  | Some data =>
      modSeg segment (set_logicalSegmentData data) ;;;
      u <- getSeg segment ;;
      let '(physical, err) := Encode (segmentBytes (logicalSegmentData u)) in
      modSeg segment (set_physicalSegmentData physical) ;;;
      if err then
        modSeg segment (set_workersRemain 0) ;;;
        emit (EvMemoryReturn sectorCompletedMemory) ;;;
        addMemoryReleased segment sectorCompletedMemory ;;;
        forM (seq 0 (List.length physical))
             (fun i => setPhysical segment (Z.of_nat i) [])
      else
        modSeg segment (set_logicalSegmentData []) ;;;
        emit (EvMemoryReturn erasureCodingMemory) ;;;
        addMemoryReleased segment erasureCodingMemory ;;;
        u <- getSeg segment ;;
        if Z.of_nat (List.length (physicalSegmentData u))
           <? Z.of_nat (List.length (sectorSlotsStatus u))
        then ret tt
        else
          forM (seq 0 (List.length (sectorSlotsStatus u)))
               (encryptSector segment) ;;;
          when (sectorCompletedMemory >? 0)
            (emit (EvMemoryReturn sectorCompletedMemory) ;;;
             addMemoryReleased segment sectorCompletedMemory) ;;;
          dispatchSegment segment
  end.

Definition erasureCodingMemoryOf (u : unfinishedUploadSegment) : Z :=
  wrapU64 (feSectorSize (fileEntry u) * wrapU64 (feMinSectors (fileEntry u))).

(** [retrieveDataAndDispatchSegment].  [tmAddErr] says whether [sc.tm.Add()]
    fails. *)
Definition retrieveDataAndDispatchSegment (cs : clientStatus)
    (tmAddErr : bool) (retrieved : option (list (list byte)))
    (segment : ptr) : M unit :=
  if tmAddErr then ret tt
  else
    defer (emit EvTmDone)
      (u <- getSeg segment ;;
       let erasureCodingMemory := erasureCodingMemoryOf u in
       let sectorCompletedMemory := sectorCompletedMemoryOf (sectorSlotsStatus u) in
       defer (cleanupUploadSegment cs segment)
         (retrieveAndDispatchBody erasureCodingMemory sectorCompletedMemory
            retrieved segment)).

(** Calls of cleanupUploadSegment on one segment, one after the other; before
    each call the rest of the program changes the segment by [change]. *)
Fixpoint cleanupCalls
    (calls : list (clientStatus
                   * (unfinishedUploadSegment -> unfinishedUploadSegment)))
    (uc : ptr) : M unit :=
  match calls with
  | [] => ret tt
  | (cs, change) :: rest =>
      modSeg uc change ;;; cleanupUploadSegment cs uc ;;; cleanupCalls rest uc
  end.

End UploadPipeline.

(** ** Vocabulary of the specifications *)

(** [triple P m Q E]: from a state in [P], [m] returns a value and a state in
    [Q], or panics in a state in [E]. *)
Definition triple {A} (P : World -> Prop) (m : M A) (Q : A -> World -> Prop)
    (E : World -> Prop) : Prop :=
  forall w, P w ->
    match m w with
    | Ok a w' => Q a w'
    | Panic _ w' => E w'
    end.

(** [m] keeps the invariant [I], whether it returns or panics. *)
Definition keeps {A} (I : World -> Prop) (m : M A) : Prop :=
  triple I m (fun _ => I) I.

(** The calls of SetStuckByIndex recorded in a trace, most recent first. *)
Definition stuckMarks (t : list event) : list (ptr * Z * bool) :=
  omap (fun e => match e with
                 | EvSetStuckByIndex uc idx b => Some (uc, idx, b)
                 | _ => None
                 end) t.

(** The bytes given back to the memory manager in a trace. *)
Definition memoryReturned (t : list event) : Z :=
  fold_right (fun e acc => match e with
                           | EvMemoryReturn n => n + acc
                           | _ => acc
                           end) 0 t.

(** The calls that make up the release of a segment. *)
Definition isReleaseEvent (e : event) : bool :=
  match e with
  | EvSetStuckByIndex _ _ _ | EvUpdateDirMetadata _ | EvFileClose _
  | EvDeletePending _ | EvStuckSegmentSuccess _ => true
  | _ => false
  end.

Definition releaseEvents (t : list event) : list event :=
  List.filter isReleaseEvent t.

Definition isDelete (e : event) : bool :=
  match e with
  | EvDeletePending _ => true
  | _ => false
  end.

(** How often a segment id was deleted from pendingSegments. *)
Definition nDeletes (t : list event) : nat :=
  List.length (List.filter isDelete t).

(** The flag [released] of the segment at [uc] is [b]. *)
Definition releasedIs (uc : ptr) (b : bool) (w : World) : Prop :=
  forall u, segs w !! uc = Some u -> released u = b.

(** The flag [released] of the segment at [uc] is [b], the pending set is [X]
    and no release call was made since the trace was [t0]. *)
Definition releaseFrame (uc : ptr) (b : bool) (X : gset uploadSegmentID)
    (t0 : list event) (w : World) : Prop :=
  releasedIs uc b w
  /\ pendingSegments w = X
  /\ exists added, trace w = added ++ t0
       /\ Forall (fun e => isReleaseEvent e = false) added.

(** The flag [released] of the segment at [uc] is [b] and [d] deletions from
    the pending set were made so far. *)
Definition releaseCount (uc : ptr) (b : bool) (d : nat) (w : World) : Prop :=
  releasedIs uc b w /\ nDeletes (trace w) = d.

(** What a call of cleanup on a segment that is not released, after [d]
    deletions, leads to. *)
Definition afterCleanup (uc : ptr) (d : nat) (w : World) : Prop :=
  releaseCount uc false d w \/ releaseCount uc true d w
  \/ releaseCount uc true (S d) w.

(** The number of free (unclaimed) slots. *)
Definition freeSlots (slots : list bool) : Z :=
  Z.of_nat (List.length (List.filter negb slots)).

(** The slots after the pass over [slots], when [avail] free slots were kept
    before and [remain] workers remain. *)
Fixpoint trimSlots (remain avail : Z) (slots : list bool) : list bool :=
  match slots with
  | [] => []
  | s :: r =>
      if s then true :: trimSlots remain avail r
      else if avail >=? remain then true :: trimSlots remain avail r
      else false :: trimSlots remain (avail + 1) r
  end.

(** The physical data after the pass over [slots], which start at index [k]. *)
Fixpoint trimPhysical (remain avail : Z) (k : nat) (slots : list bool)
    (physical : list (list byte)) : list (list byte) :=
  match slots with
  | [] => physical
  | s :: r =>
      if s then trimPhysical remain avail (S k) r physical
      else if avail >=? remain
      then trimPhysical remain avail (S k) r (<[k := []]> physical)
      else trimPhysical remain (avail + 1) (S k) r physical
  end.

(** The segment after the pass over the slots [todo] that follow [pre]. *)
Definition trimmedSegment (avail : Z) (pre todo : list bool)
    (u : unfinishedUploadSegment) : unfinishedUploadSegment :=
  set_sectorSlotsStatus (pre ++ trimSlots (workersRemain u) avail todo)
    (set_physicalSegmentData
       (trimPhysical (workersRemain u) avail (List.length pre) todo
          (physicalSegmentData u)) u).

(** What the slot-trimming pass does to the segment [u] at [uc] in state [w]. *)
Definition trimPassSpec (SectorSize : Z) (uc : ptr)
    (u : unfinishedUploadSegment) (w : World) : Prop :=
  let slots := sectorSlotsStatus u in
  let physical := physicalSegmentData u in
  exists slots' physical',
    releaseUnneededSectors SectorSize uc w =
      Ok (freeSlots slots',
          wrapU64 (SectorSize * (freeSlots slots - freeSlots slots')))
         (set_segs (<[uc := set_sectorSlotsStatus slots'
                              (set_physicalSegmentData physical' u)]> (segs w)) w)
    /\ List.length slots' = List.length slots
    /\ List.length physical' = List.length physical
    /\ (forall i s, slots !! i = Some s ->
          slots' !! i =
            Some (s || (workersRemain u <=? freeSlots (take i slots'))))
    /\ (forall i, slots !! i = Some false -> slots' !! i = Some true ->
          physical' !! i = Some [])
    /\ (forall i s, slots !! i = Some s -> slots' !! i = Some s ->
          physical' !! i = physical !! i)
    /\ freeSlots slots' = Z.min (freeSlots slots) (Z.max 0 (workersRemain u))
    /\ (forall i j, (i <= j)%nat ->
          slots !! i = Some false -> slots !! j = Some false ->
          slots' !! i = Some true -> slots' !! j = Some true).

(** The sector indexes the worker [x] holds for the segment at [uc]. *)
Definition indexesOf (uc : ptr) (x : worker) : list Z :=
  default [] (sectorIndexMap x !! uc).

(** The state after slot [i] of the segment [u] at [uc] was given to the
    worker [x] at [wp]. *)
Definition assignedWorld (uc wp : ptr) (x : worker)
    (u : unfinishedUploadSegment) (i : nat) (w : World) : World :=
  set_segs
    (<[uc := set_sectorSlotsStatus (<[i := true]> (sectorSlotsStatus u)) u]>
       (segs w))
    (set_wrks
       (<[wp := {| sectorIndexMap :=
                     <[uc := indexesOf uc x ++ [Z.of_nat i]]> (sectorIndexMap x) |}]>
          (wrks w))
       (set_randCount (S (randCount w)) w)).

Section AssignVocabulary.
Variable isReady : ptr -> worker -> unfinishedUploadSegment -> bool.
Variable randInt : nat -> Z.
Variable workers : list ptr.
Variable uc : ptr.

(** The index of the worker that slot [i] is offered to when the draw is [r]. *)
Definition chosenIndex (i : nat) (r : Z) : nat :=
  Z.to_nat ((Z.of_nat i + r) mod Z.of_nat (List.length workers)).

(** The status of slot [j] of the segment at [uc]. *)
Definition slotAt (w : World) (j : nat) : option bool :=
  match segs w !! uc with
  | Some u => sectorSlotsStatus u !! j
  | None => None
  end.

(** The worker at [wp] holds sector [i] of the segment at [uc]. *)
Definition holdsIndex (w : World) (wp : ptr) (i : nat) : Prop :=
  exists x, wrks w !! wp = Some x /\ Z.of_nat i ∈ indexesOf uc x.

(** The segment has [n] slots and every worker of the list exists. *)
Definition assignable (n : nat) (w : World) : Prop :=
  (exists u, segs w !! uc = Some u /\ List.length (sectorSlotsStatus u) = n)
  /\ Forall (fun wp => is_Some (wrks w !! wp)) workers.

(** The [n] draws from the [rc0]-th on are results of rand.Int(), and adding
    the slot index to them does not overflow. *)
Definition drawsOk (rc0 n : nat) : Prop :=
  forall k, (k < n)%nat ->
    0 <= randInt (rc0 + k)%nat /\ Z.of_nat k + randInt (rc0 + k)%nat < 2 ^ 63.

(** What one round of the loop does at slot [i], from state [w] to [w']. *)
Definition assignFacts (n i : nat) (w w' : World) : Prop :=
  exists u s wp x,
    segs w !! uc = Some u /\ sectorSlotsStatus u !! i = Some s
    /\ workers !! chosenIndex i (randInt (randCount w)) = Some wp
    /\ wrks w !! wp = Some x
    /\ assignable n w' /\ randCount w' = S (randCount w) /\ trace w' = trace w
    /\ slotAt w' i = Some (s || isReady wp x u)
    /\ (forall j, j <> i -> slotAt w' j = slotAt w j)
    /\ (forall wp' i', holdsIndex w wp' i' -> holdsIndex w' wp' i')
    /\ (s = false -> isReady wp x u = true -> holdsIndex w' wp i).

End AssignVocabulary.


(** ** Concrete values used by the examples *)

Definition exampleFileEntry : fileEntryInfo :=
  {| feSectorSize := 4194304; feMinSectors := 1; feDxPath := "file" |}.

(** A segment of [exampleFileEntry] with the given counters, slots and
    physical data; all other fields have their zero value. *)
Definition exampleSegment (needed allNeed completed uploading remain : Z)
    (slots : list bool) (physical : list (list byte))
    : unfinishedUploadSegment :=
  {| id := {| fid := 7%N; id_index := 0 |}; fileEntry := exampleFileEntry;
     index := 0; offset := 0; segLength := 0;
     memoryNeeded := needed; memoryReleased := 0;
     sectorsMinNeedNum := 1; sectorsAllNeedNum := allNeed;
     stuck := false; stuckRepair := false;
     logicalSegmentData := []; physicalSegmentData := physical;
     sectorSlotsStatus := slots;
     sectorsCompletedNum := completed; sectorsUploadingNum := uploading;
     released := false; unusedHosts := ∅;
     workersRemain := remain; workerBackups := [] |}.

(** A state whose only segment is [u], at address 1, with the workers [ws] at
    the addresses 1, 2, ... in the pool. *)
Definition exampleWorld (u : unfinishedUploadSegment) (ws : list worker) : World :=
  {| segs := {[ 1%positive := u ]};
     wrks := list_to_map (zip (Pos.of_nat <$> seq 1 (List.length ws)) ws);
     pendingSegments := {[ id u ]};
     workerPool := Pos.of_nat <$> seq 1 (List.length ws);
     randCount := 0;
     trace := [] |}.

Definition clientOnline : clientStatus :=
  {| stopped := false; online := true; stopFirst := false |}.

Definition clientShutDown : clientStatus :=
  {| stopped := true; online := true; stopFirst := true |}.

(** The threshold 0.1 as a float64. *)
Definition threshold_0_1 : float := 0x1.999999999999ap-4%float.

Definition exampleReady : ptr -> worker -> unfinishedUploadSegment -> bool :=
  fun _ _ _ => true.

Definition exampleRand : nat -> Z := fun _ => 0.


Definition idleWorker : worker := {| sectorIndexMap := ∅ |}.

Definition failingEncode : list byte -> list (list byte) * bool :=
  fun _ => ([], true).

(** An encoder that fails and still hands out its two shards. *)
Definition failingEncodeWithShards : list byte -> list (list byte) * bool :=
  fun _ => ([[x01]; [x02]], true).

Definition plainEncrypt : list byte -> option (list byte) :=
  fun d => Some d.

(** ** Vocabulary of further properties *)

(** The segment at [uc] has as many slots as [l0], and every slot claimed in
    [l0] is claimed in it. *)
Definition claimedKept (uc : ptr) (l0 : list bool) (w : World) : Prop :=
  forall u, segs w !! uc = Some u ->
    List.length (sectorSlotsStatus u) = List.length l0
    /\ forall i, l0 !! i = Some true -> sectorSlotsStatus u !! i = Some true.

(** The pending set is [X], the worker pool is [pool], and the segment at
    [uc] is [u0] up to its slots. *)
Definition segmentFrame (uc : ptr) (u0 : unfinishedUploadSegment)
    (X : gset uploadSegmentID) (pool : list ptr) (w : World) : Prop :=
  pendingSegments w = X /\ workerPool w = pool
  /\ forall u, segs w !! uc = Some u ->
       u = set_sectorSlotsStatus (sectorSlotsStatus u) u0.

(** The signals sent to [workers] for the segment at [uc], most recent
    first. *)
Definition signalsTo (workers : list ptr) (uc : ptr) : list event :=
  rev (map (fun wp => EvSignalUpload wp uc) workers).

(** The bytes a call hands back to the memory manager. *)
Definition returnedBy (e : event) : Z :=
  match e with
  | EvMemoryReturn n => n
  | _ => 0
  end.

(** The segment store is [S], the pending set is [X], and the trace holds [d]
    deletions from the pending set and [r] returned bytes. *)
Definition snap (S : gmap ptr unfinishedUploadSegment)
    (X : gset uploadSegmentID) (d : nat) (r : Z) (w : World) : Prop :=
  segs w = S /\ pendingSegments w = X /\ nDeletes (trace w) = d
  /\ memoryReturned (trace w) = r.

(** The released-memory counter of the segment at [uc] and the bytes handed
    back to the memory manager differ by [c], modulo 2^64. *)
Definition balanced (uc : ptr) (c : Z) (w : World) : Prop :=
  exists u, segs w !! uc = Some u
    /\ wrapU64 (memoryReleased u - memoryReturned (trace w)) = wrapU64 c.

(** A run from [w], where the segment at [uc] was [u], that returns has kept
    the difference between the counter and the returned bytes. *)
Definition sameBalance (uc : ptr) (u : unfinishedUploadSegment) (w : World)
    (r : Res unit) : Prop :=
  match r with
  | Ok _ w' => balanced uc (memoryReleased u - memoryReturned (trace w)) w'
  | Panic _ _ => True
  end.

(** The physical data after the encryption loop: the data of a claimed slot is
    dropped, the data of a free slot is replaced by its ciphertext, and kept
    as it is when the encryption fails. *)
Fixpoint encryptedData (Encrypt : list byte -> option (list byte))
    (slots : list bool) (physical : list (list byte)) : list (list byte) :=
  match slots, physical with
  | s :: sl, d :: pl =>
      (if s then [] else default d (Encrypt d))
        :: encryptedData Encrypt sl pl
  | _, _ => physical
  end.

(** ** Retrieval of the logical data of a segment *)

(** [int(f)] of a float64, as compiled for amd64: the value truncated towards
    zero, and -2^63 for a NaN and for a value outside of int64. *)
Definition int_of_float64 (f : float) : Z :=
  match Prim2SF f with
  | S754_zero _ => 0
  | S754_finite s m e =>
      let a := if 0 <=? e then Z.pos m * 2 ^ e else Z.pos m / 2 ^ (- e) in
      let z := if s then - a else a in
      if (- 2 ^ 63 <=? z) && (z <? 2 ^ 63) then z else - 2 ^ 63
  | _ => - 2 ^ 63
  end.

(** What the retrieval reads from [segment.fileEntry]. *)
Record localFileInfo := {
  feLocalPath : string;   (* fileEntry.LocalPath() *)
  feNumSegments : Z;      (* fileEntry.NumSegments(), an int *)
  feFileSize : Z          (* fileEntry.FileSize(), a uint64 *)
}.

(** The errors of [buf.ReadFrom]: io.EOF, io.ErrUnexpectedEOF, any other. *)
Inductive readError := ErrEOF | ErrUnexpectedEOF | ErrOtherRead.

(** How a download ends. *)
Inductive downloadOutcome :=
| NewDownloadFails                 (* sc.newDownload returns an error *)
| DownloadInterrupted              (* the stop channel fires first *)
| DownloadFails                    (* d.Err() != nil *)
| Downloaded (buf : list (list byte)).

(** The file system and the downloader, as the retrieval meets them:
    whether [os.Open] of a path fails, the error of [buf.ReadFrom] on the
    section at an offset of a length together with the buffer it filled, and
    the outcome of the download of a length at an offset. *)
Record retrievalEnv := {
  openFails : string -> bool;
  readFrom : Z -> Z -> option readError * list (list byte);
  download : Z -> Z -> downloadOutcome
}.

(** The calls the retrieval makes, in the order it makes them. *)
Inductive ioAction :=
| ActDownload (length offset : Z)   (* sc.newDownload *)
| ActOpen (path : string)           (* os.Open *)
| ActRead (offset length : Z)       (* buf.ReadFrom of the section reader *)
| ActClose.                         (* osFile.Close *)

Inductive retrieveError :=
| ErrNewDownload      (* the error of sc.newDownload *)
| ErrInterrupted      (* repair download interrupted by stop call *)
| ErrDownload         (* d.Err() *)
| ErrNotLocal         (* file not available locally *)
| ErrOpenLocal        (* failed to open file locally *)
| ErrReadLocal.       (* failed to read file locally *)

(** The end of a retrieval: a panic, an error, or [nil] after the assignment
    [segment.logicalSegmentData = buf]. *)
Inductive retrieval :=
| RetPanic (msg : string)
| RetError (e : retrieveError)
| RetData (buf : list (list byte)).

(** The local variable [downloadLength] of downloadLogicalSegmentData;
    [None] when [FileSize() % segment.length] divides by zero. *)
Definition downloadLength (fe : localFileInfo) (u : unfinishedUploadSegment)
    : option Z :=
  if index u =? wrapU64 (wrapInt (feNumSegments fe - 1)) then
    if segLength u =? 0 then None
    else if negb (feFileSize fe mod segLength u =? 0)
    then Some (feFileSize fe mod segLength u)
    else Some (segLength u)
  else Some (segLength u).

(** [downloadLogicalSegmentData]. *)
Definition downloadLogicalSegmentData (env : retrievalEnv) (fe : localFileInfo)
    (u : unfinishedUploadSegment) : list ioAction * retrieval :=
  match downloadLength fe u with
  | None => ([], RetPanic "integer divide by zero")
  | Some len =>
      let off := wrapU64 (offset u) in
      ([ActDownload len off],
       match download env len off with
       | NewDownloadFails => RetError ErrNewDownload
       | DownloadInterrupted => RetError ErrInterrupted
       | DownloadFails => RetError ErrDownload
       | Downloaded buf => RetData buf
       end)
  end.

(** The local variable [needDownload] of retrieveLogicalSegmentData. *)
Definition needDownload (RemoteRepairDownloadThreshold : float)
    (u : unfinishedUploadSegment) : bool :=
  let numRedundantSectors :=
    float64_of_int (wrapInt (sectorsAllNeedNum u - sectorsMinNeedNum u)) in
  let minMissingSectorsToDownload :=
    int_of_float64 (PrimFloat.mul numRedundantSectors RemoteRepairDownloadThreshold) in
  wrapInt (sectorsCompletedNum u + minMissingSectorsToDownload)
    <? sectorsAllNeedNum u.

(** [retrieveLogicalSegmentData].  The deferred [osFile.Close()] runs last,
    also after a download that was started because the read failed. *)
Definition retrieveLogicalSegmentData (RemoteRepairDownloadThreshold : float)
    (env : retrievalEnv) (fe : localFileInfo) (u : unfinishedUploadSegment)
    : list ioAction * retrieval :=
  let needDownload := needDownload RemoteRepairDownloadThreshold u in
  let path := feLocalPath fe in
  if String.eqb path EmptyString then
    if needDownload then downloadLogicalSegmentData env fe u
    else ([], RetError ErrNotLocal)
  else if openFails env path then
    if needDownload then
      let '(acts, r) := downloadLogicalSegmentData env fe u in
      (ActOpen path :: acts, r)
    else ([ActOpen path], RetError ErrOpenLocal)
  else
    let '(err, buf) := readFrom env (offset u) (wrapInt (segLength u)) in
    let failed := match err with Some ErrOtherRead => true | _ => false end in
    let '(acts, r) :=
      if failed then
        if needDownload then downloadLogicalSegmentData env fe u
        else ([], RetError ErrReadLocal)
      else ([], RetData buf) in
    (ActOpen path :: ActRead (offset u) (wrapInt (segLength u)) :: acts ++ [ActClose],
     r).

Definition isDownload (a : ioAction) : bool :=
  match a with ActDownload _ _ => true | _ => false end.

Definition isClose (a : ioAction) : bool :=
  match a with ActClose => true | _ => false end.

(** The local copy could not be used: there is no local path, the file could
    not be opened, or the read failed with an error other than the two ends
    of file. *)
Definition localUnusable (env : retrievalEnv) (fe : localFileInfo)
    (u : unfinishedUploadSegment) : bool :=
  String.eqb (feLocalPath fe) EmptyString
  || openFails env (feLocalPath fe)
  || match fst (readFrom env (offset u) (wrapInt (segLength u))) with
     | Some ErrOtherRead => true
     | _ => false
     end.

(** An environment in which the file opens and the read ends at the end of
    the file with the buffer [buf], and a download would give [remote]. *)
Definition exampleEnv (buf remote : list (list byte)) : retrievalEnv :=
  {| openFails := fun _ => false;
     readFrom := fun _ _ => (Some ErrEOF, buf);
     download := fun _ _ => Downloaded remote |}.

(** An environment without a readable local file. *)
Definition remoteOnlyEnv (remote : list (list byte)) : retrievalEnv :=
  {| openFails := fun _ => true;
     readFrom := fun _ _ => (Some ErrOtherRead, []);
     download := fun _ _ => Downloaded remote |}.

Definition exampleLocalFile (path : string) (segments size : Z) : localFileInfo :=
  {| feLocalPath := path; feNumSegments := segments; feFileSize := size |}.

(** The segment number [idx] of [exampleFileEntry], of [len] bytes at the
    offset [off], with the given sector counters. *)
Definition sizedSegment (idx off len : Z) (allNeed minNeed completed : Z)
    : unfinishedUploadSegment :=
  {| id := {| fid := 7%N; id_index := idx |}; fileEntry := exampleFileEntry;
     index := idx; offset := off; segLength := len;
     memoryNeeded := 0; memoryReleased := 0;
     sectorsMinNeedNum := minNeed; sectorsAllNeedNum := allNeed;
     stuck := false; stuckRepair := false;
     logicalSegmentData := []; physicalSegmentData := [];
     sectorSlotsStatus := [];
     sectorsCompletedNum := completed; sectorsUploadingNum := 0;
     released := false; unusedHosts := ∅;
     workersRemain := 0; workerBackups := [] |}.

(** ** Contract formation of the contract manager *)

Module ContractManager.

Definition enodeID := N.
Definition contractID := N.

(** [storage.HostInfo], the fields createContract reads. *)
Record HostInfo := {
  hostEnodeID : enodeID;
  StoragePrice : Z;          (* a common.BigInt *)
  MaxDeposit : Z;            (* a common.BigInt *)
  MaxDuration : Z            (* a uint64 *)
}.

(** [storage.RentPayment], the fields prepareCreateContract reads. *)
Record RentPayment := {
  Fund : Z;                  (* a common.BigInt *)
  StorageHosts : Z;          (* a uint64 *)
  Period : Z;                (* a uint64 *)
  RenewWindow : Z            (* a uint64 *)
}.

Record ContractStatus := {
  UploadAbility : bool;
  RenewAbility : bool;
  Canceled : bool
}.

(** [storage.ContractMetaData], the fields the functions read. *)
Record ContractMetaData := {
  ID : contractID;
  EnodeID : enodeID;
  Status : ContractStatus
}.

(** [proto.ContractParams], the fields ContractCreate computes with before
    its first call; the other fields (Funding, ClientPublicKey, Host) are only
    handed on. *)
Record ContractParams := {
  ExpectedStorage : Z;       (* params.Allowance.ExpectedStorage, a uint64 *)
  Hosts : Z;                 (* params.Allowance.Hosts, a uint64 *)
  StartHeight : Z;           (* a uint64 *)
  EndHeight : Z              (* a uint64 *)
}.

(** [proto.ContractParams{}]. *)
Definition emptyParams : ContractParams :=
  {| ExpectedStorage := 0; Hosts := 0; StartHeight := 0; EndHeight := 0 |}.

(** [storage.ContractMetaData{}]. *)
Definition zeroContract : ContractMetaData :=
  {| ID := 0%N; EnodeID := 0%N;
     Status := {| UploadAbility := false; RenewAbility := false;
                  Canceled := false |} |}.

(** The errors the functions make or pass on. *)
Inductive error :=
| ErrStoragePrice        (* the storage price is too high *)
| ErrMaxDuration         (* the max duration is smaller than period *)
| ErrFormation           (* an error returned by ContractCreate *)
| ErrContractCreate      (* the error of cm.ContractCreate, wrapped *)
| ErrAlreadyFormed       (* client already formed a contract with the same storage host *)
| ErrRandomHosts         (* the error of RetrieveRandomHosts *)
| ErrFund                (* the contract fund is larger than client remaining fund *)
| ErrMark.               (* the error of markNewlyFormedContractStats *)

(** The calls to the collaborators of the contract manager. *)
Inductive call :=
| CallRetrieveRandomHosts (n : Z) (blackList addressBlackList : list enodeID)
| CallFormation          (* the exchange of ContractCreate with wallet and host *)
| CallMark (id : contractID)
| CallSaveSettings
| CallCheckTermination.

#[global] Instance call_eq_dec : EqDecision call.
Proof. solve_decision. Defined.

(** The contract manager: the map [hostToContract], the current period, and
    the calls made so far, most recent first. *)
Record manager := {
  hostToContract : gmap enodeID contractID;
  currentPeriod : Z;
  calls : list call
}.

Definition record (c : call) (s : manager) : manager :=
  {| hostToContract := hostToContract s; currentPeriod := currentPeriod s;
     calls := c :: calls s |}.

Definition set_hostToContract (m : gmap enodeID contractID) (s : manager)
    : manager :=
  {| hostToContract := m; currentPeriod := currentPeriod s; calls := calls s |}.

(** How often [c] was called. *)
Definition timesCalled (c : call) (s : manager) : nat :=
  List.length (List.filter (fun c' => bool_decide (c' = c)) (calls s)).

(** How the exchange of ContractCreate with the wallet and the host ends. *)
Inductive formation :=
| FormationPanics (msg : string)
| FormationFails
| Formed (md : ContractMetaData).

(** The constants of the package and the collaborators whose code is not in
    the sources: the contracts the contract set holds, the hosts the host
    manager picks ([None] for an error), how the statements of ContractCreate
    that follow its division end on their n-th run (payouts, wallet,
    connection, signatures, the messages of the host, the transaction and the
    insertion into the contract set), whether markNewlyFormedContractStats
    fails, the answer of the n-th call of checkMaintenanceTermination, and
    [common.BigInt.DivUint64] ([None] for a panic). *)
Record environment := {
  maxHostStoragePrice : Z;
  maxHostDeposit : Z;
  randomStorageHostsFactor : Z;
  randomStorageHostsBackup : Z;
  activeContracts : list ContractMetaData;
  RetrieveRandomHosts : Z -> list enodeID -> list enodeID -> option (list HostInfo);
  formWithHost : ContractParams -> Z -> Z -> nat -> formation;
  markNewlyFormedContractStats : contractID -> bool;
  checkMaintenanceTermination : nat -> bool;
  DivUint64 : Z -> Z -> option Z
}.

Inductive result (A : Type) :=
| Returns (a : A) (s : manager)
| Panics (msg : string) (s : manager).
Arguments Returns {A} _ _.
Arguments Panics {A} _ _.

Definition managerOf {A} (r : result A) : manager :=
  match r with
  | Returns _ s => s
  | Panics _ s => s
  end.

(** [ContractCreate]: the contract and the error it returns.  The quotient
    [allowance.ExpectedStorage / allowance.Hosts] of two uint64 panics when
    [allowance.Hosts] is zero, before any other statement runs; every error
    return gives [storage.ContractMetaData{}]. *)
Definition ContractCreate (env : environment) (params : ContractParams)
    (s : manager) : result (ContractMetaData * option error) :=
  let period := wrapU64 (EndHeight params - StartHeight params) in
  if Hosts params =? 0 then Panics "integer divide by zero" s
  else
    let expectedStorage := ExpectedStorage params / Hosts params in
    let s1 := record CallFormation s in
    match formWithHost env params period expectedStorage
            (timesCalled CallFormation s) with
    | FormationPanics msg => Panics msg s1
    | FormationFails => Returns (zeroContract, Some ErrFormation) s1
    | Formed md => Returns (md, None) s1
    end.

(** [createContract]: the form cost, the contract and the error it returns,
    and the manager afterwards.  The parameters it hands to ContractCreate are
    [proto.ContractParams{}]. *)
Definition createContract (env : environment) (host : HostInfo)
    (contractFund contractEndHeight : Z) (rentPayment : RentPayment)
    (s : manager) : result (Z * ContractMetaData * option error) :=
  if StoragePrice host >? maxHostStoragePrice env
  then Returns (0, zeroContract, Some ErrStoragePrice) s
  else
    let host :=
      if MaxDeposit host >? maxHostDeposit env
      then {| hostEnodeID := hostEnodeID host; StoragePrice := StoragePrice host;
              MaxDeposit := maxHostDeposit env; MaxDuration := MaxDuration host |}
      else host in
    if MaxDuration host <? Period rentPayment
    then Returns (0, zeroContract, Some ErrMaxDuration) s
    else
      let params := emptyParams in
      match ContractCreate env params s with
      | Panics msg s1 => Panics msg s1
      | Returns (newlyCreatedContract, Some _) s1 =>
          Returns (0, newlyCreatedContract, Some ErrContractCreate) s1
      | Returns (newlyCreatedContract, None) s1 =>
          match hostToContract s1 !! EnodeID newlyCreatedContract with
          | Some _ =>
              Returns (contractFund, newlyCreatedContract, Some ErrAlreadyFormed) s1
          | None =>
              Returns (contractFund, newlyCreatedContract, None)
                (set_hostToContract
                   (<[EnodeID newlyCreatedContract := ID newlyCreatedContract]>
                      (hostToContract s1)) s1)
          end
      end.

(** The two loops of randomHostsForContractForm: [blackList] and
    [addressBlackList]. *)
Definition blackLists (active : list ContractMetaData)
    : list enodeID * list enodeID :=
  fold_left
    (fun (acc : list enodeID * list enodeID) contract =>
       let blackList := fst acc ++ [EnodeID contract] in
       if UploadAbility (Status contract) && RenewAbility (Status contract)
          && negb (Canceled (Status contract))
       then (blackList, snd acc ++ [EnodeID contract])
       else (blackList, snd acc))
    active ([], []).

(** [randomHostsForContractForm]. *)
Definition randomHostsForContractForm (env : environment) (neededContracts : Z)
    (s : manager) : option (list HostInfo) * manager :=
  let '(blackList, addressBlackList) := blackLists (activeContracts env) in
  let n := wrapInt (wrapInt (neededContracts * randomStorageHostsFactor env)
                    + randomStorageHostsBackup env) in
  (RetrieveRandomHosts env n blackList addressBlackList,
   record (CallRetrieveRandomHosts n blackList addressBlackList) s).

(** The loop of prepareCreateContract over the hosts that are left, on the
    local variables [neededContracts], [clientRemainingFund] and [err]; it
    ends with the values of [terminated] and [err] that the function
    returns.  [err.Error()] on a nil [err] panics. *)
Fixpoint formContracts (env : environment) (hosts : list HostInfo)
    (contractFund contractEndHeight : Z) (rentPayment : RentPayment)
    (neededContracts clientRemainingFund : Z) (err : option error)
    (s : manager) : result (bool * option error) :=
  match hosts with
  | [] => Returns (false, err) s
  | host :: rest =>
      if contractFund >? clientRemainingFund then Returns (false, Some ErrFund) s
      else
        match createContract env host contractFund contractEndHeight
                rentPayment s with
        | Panics msg s1 => Panics msg s1
        | Returns (formCost, contract, Some _) s1 =>
            match err with
            | None => Panics "nil pointer dereference" s1
            | Some _ =>
                formContracts env rest contractFund contractEndHeight rentPayment
                  neededContracts clientRemainingFund err s1
            end
        | Returns (formCost, contract, None) s1 =>
            let clientRemainingFund := clientRemainingFund - formCost in
            let s2 := record (CallMark (ID contract)) s1 in
            if markNewlyFormedContractStats env (ID contract)
            then Returns (false, Some ErrMark) s2
            else
              let s3 := record CallSaveSettings s2 in
              let neededContracts := wrapInt (neededContracts - 1) in
              if neededContracts <=? 0 then Returns (false, None) s3
              else
                let s4 := record CallCheckTermination s3 in
                if checkMaintenanceTermination env
                     (timesCalled CallCheckTermination s3)
                then Returns (true, None) s4
                else
                  formContracts env rest contractFund contractEndHeight
                    rentPayment neededContracts clientRemainingFund None s4
        end
  end.

(** [rentPayment.Fund.DivUint64(rentPayment.StorageHosts).DivUint64(3)]. *)
Definition contractFundOf (env : environment) (rentPayment : RentPayment)
    : option Z :=
  match DivUint64 env (Fund rentPayment) (StorageHosts rentPayment) with
  | None => None
  | Some q => DivUint64 env q 3
  end.

(** [prepareCreateContract]. *)
Definition prepareCreateContract (env : environment) (neededContracts : Z)
    (clientRemainingFund : Z) (rentPayment : RentPayment) (s : manager)
    : result (bool * option error) :=
  let '(randomHosts, s1) := randomHostsForContractForm env neededContracts s in
  match randomHosts with
  | None => Returns (false, Some ErrRandomHosts) s1
  | Some randomHosts =>
      match contractFundOf env rentPayment with
      | None => Panics "division by zero" s1
      | Some contractFund =>
          let contractEndHeight :=
            wrapU64 (wrapU64 (currentPeriod s1 + Period rentPayment)
                     + RenewWindow rentPayment) in
          formContracts env randomHosts contractFund contractEndHeight
            rentPayment neededContracts clientRemainingFund None s1
      end
  end.

(** createContract returns an error for [host] from the manager [s]: the
    price is too high, the maximal duration is too short, or ContractCreate
    returns an error or a contract of a host that has one already. *)
Definition formationFails (env : environment) (host : HostInfo)
    (rentPayment : RentPayment) (s : manager) : bool :=
  (StoragePrice host >? maxHostStoragePrice env)
  || (MaxDuration host <? Period rentPayment)
  || match ContractCreate env emptyParams s with
     | Panics _ _ => false
     | Returns (_, Some _) _ => true
     | Returns (md, None) _ =>
         bool_decide (is_Some (hostToContract s !! EnodeID md))
     end.

(** The contract [md] is good for uploading and renewing and not canceled. *)
Definition usable (md : ContractMetaData) : bool :=
  UploadAbility (Status md) && RenewAbility (Status md)
  && negb (Canceled (Status md)).

(** An environment with the given hosts and formations, in which nothing
    else fails, with integer division for DivUint64. *)
Definition exampleEnvironment (hosts : list HostInfo)
    (formed : nat -> formation) : environment :=
  {| maxHostStoragePrice := 100; maxHostDeposit := 1000;
     randomStorageHostsFactor := 4; randomStorageHostsBackup := 30;
     activeContracts := [];
     RetrieveRandomHosts := fun _ _ _ => Some hosts;
     formWithHost := fun _ _ _ n => formed n;
     markNewlyFormedContractStats := fun _ => false;
     checkMaintenanceTermination := fun _ => false;
     DivUint64 := fun x y => if y =? 0 then None else Some (x / y) |}.

Definition exampleHost (enode : enodeID) (price : Z) : HostInfo :=
  {| hostEnodeID := enode; StoragePrice := price; MaxDeposit := 10;
     MaxDuration := 1000 |}.

Definition exampleRent : RentPayment :=
  {| Fund := 900; StorageHosts := 3; Period := 100; RenewWindow := 10 |}.

Definition exampleContract (n : N) : ContractMetaData :=
  {| ID := n; EnodeID := n;
     Status := {| UploadAbility := true; RenewAbility := true;
                  Canceled := false |} |}.

Definition emptyManager : manager :=
  {| hostToContract := ∅; currentPeriod := 0; calls := [] |}.

End ContractManager.

(** * Proofs *)

(** ** Machine integers *)

Lemma wrapU64_small z : 0 <= z < 2 ^ 64 -> wrapU64 z = z.
Proof. intros H. unfold wrapU64. apply Z.mod_small. exact H. Qed.

Lemma wrapInt_small z : - 2 ^ 63 <= z < 2 ^ 63 -> wrapInt z = z.
Proof.
  intros H. unfold wrapInt. rewrite Z.mod_small; lia.
Qed.

Lemma wrapU64_range z : 0 <= wrapU64 z < 2 ^ 64.
Proof. unfold wrapU64. apply Z.mod_pos_bound. lia. Qed.

Lemma wrapU64_add_l a b : wrapU64 (wrapU64 a + b) = wrapU64 (a + b).
Proof. unfold wrapU64. apply Zplus_mod_idemp_l. Qed.

(** ** The completion predicate *)

(** C2: IsSegmentUploadComplete is true exactly when all sectors are completed
    and none is uploading, or no worker remains and none is uploading; with ten
    sectors it is true for (completed 10, uploading 0) and for (workers 0,
    uploading 0, completed 6), and false whenever one sector is uploading. *)
Theorem IsSegmentUploadComplete_iff (uc : unfinishedUploadSegment) :
  (IsSegmentUploadComplete uc = true <->
     (sectorsCompletedNum uc = sectorsAllNeedNum uc /\ sectorsUploadingNum uc = 0)
     \/ (workersRemain uc = 0 /\ sectorsUploadingNum uc = 0))
  /\ (forall needed remain slots physical,
        IsSegmentUploadComplete
          (exampleSegment needed 10 10 0 remain slots physical) = true)
  /\ (forall needed slots physical,
        IsSegmentUploadComplete
          (exampleSegment needed 10 6 0 0 slots physical) = true)
  /\ (sectorsUploadingNum uc = 1 -> IsSegmentUploadComplete uc = false).
Proof.
  unfold IsSegmentUploadComplete.
  repeat split.
  - destruct (sectorsCompletedNum uc =? sectorsAllNeedNum uc) eqn:E1;
      destruct (sectorsUploadingNum uc =? 0) eqn:E2;
      destruct (workersRemain uc =? 0) eqn:E3; simpl; intros Hc;
      try discriminate; lia.
  - intros [[H1 H2] | [H1 H2]].
    + rewrite H1, H2, Z.eqb_refl. reflexivity.
    + rewrite H1, H2. simpl. rewrite andb_true_r.
      destruct (sectorsCompletedNum uc =? sectorsAllNeedNum uc); reflexivity.
  - intros Hup. rewrite Hup. simpl. rewrite !andb_false_r. reflexivity.
Qed.

Lemma IsSegmentUploadComplete_iff_witness :
  IsSegmentUploadComplete (exampleSegment 0 10 3 1 0 [] []) = false.
Proof.
  apply (IsSegmentUploadComplete_iff (exampleSegment 0 10 3 1 0 [] [])).
  reflexivity.
Defined.

(** ** The counter disrupter *)

Section CounterDisrupter.
Import Disrupter.
Context {D : Type} `{disrupter D}.

Lemma counter_disrupt_lookup (cd : counterDisrupter D) (s : string) :
  counter (fst (counter_disrupt cd s)) !! s = Some 1.
Proof.
  unfold counter_disrupt. simpl.
  destruct (counter cd !! s); apply lookup_insert_eq.
Qed.

(** C10, amended: for a counting disrupter whose map is allocated, as
    newCounterDisrupter makes it, after [n >= 1] calls of [disrupt(s)] the
    count recorded for [s] is 1; so it never exceeds 1, and it is the number
    of calls only for [n = 1]: from two calls on it differs from it. *)
Theorem disrupt_times_count (cd : counterDisrupter D) (s : string) (n : nat) :
  (1 <= n)%nat ->
  counter (disrupt_times n cd s) !! s = Some 1
  /\ (counter (disrupt_times n cd s) !! s = Some (Z.of_nat n) <-> n = 1%nat).
Proof.
  intros Hn.
  assert (Hone : counter (disrupt_times n cd s) !! s = Some 1).
  { destruct n as [|n]; [lia|]. clear Hn.
    revert cd. induction n as [|n IH]; intros cd.
    - simpl. apply counter_disrupt_lookup.
    - change (disrupt_times (S (S n)) cd s)
        with (disrupt_times (S n) (fst (counter_disrupt cd s)) s).
      apply IH. }
  split; [exact Hone|].
  rewrite Hone. split.
  - intros Heq. inversion Heq. lia.
  - intros ->. reflexivity.
Qed.

End CounterDisrupter.

(** C10, the claim as stated fails: after one call of [disrupt(s)] on a new
    counting disrupter the count recorded for [s] is 1, which is the number of
    calls. *)
Lemma disrupt_once_count_is_calls :
  Disrupter.counter
    (Disrupter.disrupt_times 1
       (Disrupter.newCounterDisrupter (Disrupter.newNormalDisrupter "no loop"))
       "no loop") !! "no loop" = Some (Z.of_nat 1).
Proof. vm_compute. reflexivity. Qed.

Lemma disrupt_times_count_witness :
  Disrupter.counter
    (Disrupter.disrupt_times 3
       (Disrupter.newCounterDisrupter (Disrupter.newNormalDisrupter "no loop"))
       "no loop") !! "no loop" = Some 1.
Proof.
  apply (disrupt_times_count
           (Disrupter.newCounterDisrupter (Disrupter.newNormalDisrupter "no loop"))
           "no loop" 3).
  lia.
Defined.

(** ** The stuck status *)

(** C3, the claim as stated fails: with threshold 0.1, ten sectors of which
    eight are completed and the client shut down, the repair is not successful
    and yet updateUploadSegmentStuckStatus returns without marking anything. *)
Lemma updateUploadSegmentStuckStatus_offline_unmarked :
  let w := exampleWorld (exampleSegment 0 10 8 0 0 [] []) [] in
  successfulRepair threshold_0_1 10 8 = false
  /\ updateUploadSegmentStuckStatus threshold_0_1 clientShutDown 1%positive w
     = Ok tt w.
Proof. split; vm_compute; reflexivity. Qed.

(** C3, amended: updateUploadSegmentStuckStatus marks the segment not stuck
    exactly when (1 - threshold) * sectorsAllNeedNum <= sectorsCompletedNum in
    float64; otherwise it marks the segment stuck if the client is still
    running and online, and marks nothing if the client is shut down or
    offline.  With threshold 0.1 and ten sectors, nine completed sectors are a
    successful repair and eight are not. *)
Theorem updateUploadSegmentStuckStatus_marks (thr : float) (cs : clientStatus)
    (uc : ptr) (u : unfinishedUploadSegment) (w : World) :
  segs w !! uc = Some u ->
  let ok := successfulRepair thr (sectorsAllNeedNum u) (sectorsCompletedNum u) in
  let offline := stopped cs || negb (online cs) in
  (exists w', updateUploadSegmentStuckStatus thr cs uc w = Ok tt w'
     /\ segs w' = segs w
     /\ stuckMarks (trace w') =
          (if ok then [(uc, wrapInt (id_index (id u)), false)]
           else if offline then []
           else [(uc, wrapInt (id_index (id u)), true)])
          ++ stuckMarks (trace w))
  /\ successfulRepair threshold_0_1 10 9 = true
  /\ successfulRepair threshold_0_1 10 8 = false.
Proof.
  intros Hu ok offline.
  split; [|split; vm_compute; reflexivity].
  unfold updateUploadSegmentStuckStatus, bind, getSeg. rewrite Hu.
  fold ok. replace (if stopped cs then true else negb (online cs)) with offline
    by (unfold offline; destruct (stopped cs); reflexivity).
  destruct ok eqn:Hok; simpl.
  - destruct (stuck u && true && stuckRepair u); [destruct (stopFirst cs)|];
      (eexists; split; [reflexivity|split; reflexivity]).
  - destruct offline; simpl.
    + eexists; split; [reflexivity|split; reflexivity].
    + rewrite andb_false_r. simpl.
      eexists; split; [reflexivity|split; reflexivity].
Qed.

Lemma updateUploadSegmentStuckStatus_marks_witness :
  exists w',
    updateUploadSegmentStuckStatus threshold_0_1 clientOnline 1%positive
      (exampleWorld (exampleSegment 0 10 9 0 0 [] []) []) = Ok tt w'
    /\ stuckMarks (trace w') = [(1%positive, 0, false)].
Proof.
  destruct (updateUploadSegmentStuckStatus_marks threshold_0_1 clientOnline
              1%positive (exampleSegment 0 10 9 0 0 [] [])
              (exampleWorld (exampleSegment 0 10 9 0 0 [] []) []))
    as [[w' [Hrun [_ Hmarks]]] _].
  - reflexivity.
  - exists w'. split; [exact Hrun|]. exact Hmarks.
Defined.

(** ** Specifications of monadic code *)

Lemma triple_ret {A} (P : World -> Prop) (a : A) Q E :
  (forall w, P w -> Q a w) -> triple P (ret a) Q E.
Proof. intros H w Hw. simpl. auto. Qed.

Lemma triple_panic {A} (P : World -> Prop) msg (Q : A -> World -> Prop) E :
  (forall w, P w -> E w) -> triple P (panic msg) Q E.
Proof. intros H w Hw. simpl. auto. Qed.

Lemma triple_bind {A B} (P : World -> Prop) (m : M A) (f : A -> M B) Q R E :
  triple P m Q E -> (forall a, triple (Q a) (f a) R E) ->
  triple P (bind m f) R E.
Proof.
  intros Hm Hf w Hw. unfold bind. specialize (Hm w Hw).
  destruct (m w) as [a w'|msg w']; [apply Hf; exact Hm | exact Hm].
Qed.

Lemma triple_conseq {A} (P P' : World -> Prop) (m : M A)
    (Q Q' : A -> World -> Prop) (E E' : World -> Prop) :
  triple P m Q E ->
  (forall w, P' w -> P w) -> (forall a w, Q a w -> Q' a w) ->
  (forall w, E w -> E' w) ->
  triple P' m Q' E'.
Proof.
  intros Hm HP HQ HE w Hw. specialize (Hm w (HP w Hw)).
  destruct (m w); auto.
Qed.

Lemma keeps_ret {A} I (a : A) : keeps I (ret a).
Proof. apply triple_ret. auto. Qed.

Lemma keeps_panic {A} I msg : keeps I (@panic A msg).
Proof. apply triple_panic. auto. Qed.

Lemma keeps_bind {A B} I (m : M A) (f : A -> M B) :
  keeps I m -> (forall a, keeps I (f a)) -> keeps I (bind m f).
Proof. intros Hm Hf. eapply triple_bind; [exact Hm | exact Hf]. Qed.

Lemma keeps_when I (b : bool) (m : M unit) : keeps I m -> keeps I (when b m).
Proof. intros Hm. destruct b; [exact Hm | apply keeps_ret]. Qed.

Lemma keeps_forM {A} I (l : list A) (f : A -> M unit) :
  (forall x, keeps I (f x)) -> keeps I (forM l f).
Proof.
  intros Hf. induction l as [|x l IH]; simpl.
  - apply keeps_ret.
  - apply keeps_bind; [apply Hf | intros _; exact IH].
Qed.

Lemma keeps_foldM {A S} I (l : list A) (f : S -> A -> M S) (s : S) :
  (forall s x, keeps I (f s x)) -> keeps I (foldM l f s).
Proof.
  intros Hf. revert s. induction l as [|x l IH]; intros s; simpl.
  - apply keeps_ret.
  - apply keeps_bind; [apply Hf | intros s'; apply IH].
Qed.

Lemma keeps_defer I (fin body : M unit) :
  keeps I body -> keeps I fin -> keeps I (defer fin body).
Proof.
  intros Hb Hf w Hw. unfold defer. specialize (Hb w Hw).
  destruct (body w) as [a w'|msg w'].
  - apply Hf. exact Hb.
  - specialize (Hf w' Hb). destruct (fin w'); exact Hf.
Qed.

Lemma keeps_getSeg I uc : keeps I (getSeg uc).
Proof. intros w Hw. unfold getSeg. destruct (segs w !! uc); exact Hw. Qed.

Lemma keeps_getWorker I wp : keeps I (getWorker wp).
Proof. intros w Hw. unfold getWorker. destruct (wrks w !! wp); exact Hw. Qed.

Lemma keeps_sliceGet {A} I (l : list A) i : keeps I (sliceGet l i).
Proof.
  unfold sliceGet. destruct (i <? 0); [apply keeps_panic|].
  destruct (l !! Z.to_nat i); [apply keeps_ret | apply keeps_panic].
Qed.

(** [getSeg] hands out the segment stored at the address. *)
Lemma triple_getSeg (P : World -> Prop) uc :
  triple P (getSeg uc) (fun u w => P w /\ segs w !! uc = Some u) P.
Proof.
  intros w Hw. unfold getSeg. destruct (segs w !! uc) eqn:E; auto.
Qed.

(** ** What cleanup does to the release state of a segment *)

Lemma nDeletes_app t1 t2 : nDeletes (t1 ++ t2) = (nDeletes t1 + nDeletes t2)%nat.
Proof.
  unfold nDeletes. rewrite List.filter_app, List.length_app. reflexivity.
Qed.

Lemma nDeletes_no_release t :
  Forall (fun e => isReleaseEvent e = false) t -> nDeletes t = 0%nat.
Proof.
  unfold nDeletes. induction 1 as [|e t He _ IH]; [reflexivity|].
  simpl. destruct e; simpl in *; try discriminate; exact IH.
Qed.

Section ReleaseFrame.
Variable uc : ptr.
Variable b : bool.
Variable X : gset uploadSegmentID.
Variable t0 : list event.

Let I := releaseFrame uc b X t0.

Lemma frame_modSeg uc' f :
  (forall u, released (f u) = released u) -> keeps I (modSeg uc' f).
Proof.
  intros Hf w Hw. unfold modSeg.
  destruct (segs w !! uc') as [u'|] eqn:E; [|exact Hw].
  destruct Hw as (Hr & HX & HT). split; [|split; assumption].
  unfold releasedIs in *. simpl. intros u Hu.
  destruct (decide (uc' = uc)) as [->|Hne].
  - rewrite lookup_insert_eq in Hu. inversion Hu; subst.
    rewrite Hf. apply Hr. exact E.
  - rewrite lookup_insert_ne in Hu by exact Hne. apply Hr. exact Hu.
Qed.

Lemma frame_emit e : isReleaseEvent e = false -> keeps I (emit e).
Proof.
  intros He w (Hr & HX & added & HT & Hadd). unfold emit.
  split; [|split]; simpl; auto.
  exists (e :: added). split; [rewrite HT; reflexivity|].
  constructor; assumption.
Qed.

Lemma frame_putWorker wp x : keeps I (putWorker wp x).
Proof. intros w Hw. exact Hw. Qed.

Lemma frame_setSlot uc' i s : keeps I (setSlot uc' i s).
Proof.
  unfold setSlot. apply keeps_bind; [apply keeps_getSeg|]. intros u.
  destruct (sliceSet _ _ _); [|apply keeps_panic].
  apply frame_modSeg. reflexivity.
Qed.

Lemma frame_setPhysical uc' i d : keeps I (setPhysical uc' i d).
Proof.
  unfold setPhysical. apply keeps_bind; [apply keeps_getSeg|]. intros u.
  destruct (sliceSet _ _ _); [|apply keeps_panic].
  apply frame_modSeg. reflexivity.
Qed.

Lemma frame_signalAll workers uc' : keeps I (signalAll workers uc').
Proof.
  unfold signalAll. apply keeps_forM. intros wp. apply frame_emit. reflexivity.
Qed.

Section WithCode.
Variable SectorSize : Z.
Variable isReady : ptr -> worker -> unfinishedUploadSegment -> bool.
Variable randInt : nat -> Z.

Lemma frame_randDraw : keeps I (randDraw randInt).
Proof. intros w Hw. exact Hw. Qed.

Lemma frame_assignSector workers uc' i :
  keeps I (assignSector isReady randInt workers uc' i).
Proof.
  unfold assignSector. apply keeps_bind; [apply frame_randDraw|]. intros r.
  destruct (_ =? 0); [apply keeps_panic|].
  apply keeps_bind; [apply keeps_getSeg|]. intros u.
  apply keeps_bind; [apply keeps_sliceGet|]. intros s.
  destruct s; [apply keeps_ret|].
  apply keeps_bind; [apply keeps_sliceGet|]. intros wp.
  apply keeps_bind; [apply keeps_getWorker|]. intros x.
  destruct (isReady wp x u); [|apply keeps_ret].
  apply keeps_bind; [apply frame_putWorker|]. intros _. apply frame_setSlot.
Qed.

Lemma frame_randomAssign workers uc' :
  keeps I (randomAssignSectorTaskToWorker isReady randInt workers uc').
Proof.
  unfold randomAssignSectorTaskToWorker.
  apply keeps_bind; [apply keeps_getSeg|]. intros u.
  apply keeps_forM. intros i. apply frame_assignSector.
Qed.

Lemma frame_notifyBackupWorkers uc' :
  keeps I (notifyBackupWorkers isReady randInt uc').
Proof.
  unfold notifyBackupWorkers.
  apply keeps_bind; [apply keeps_getSeg|]. intros u.
  apply keeps_bind; [apply frame_modSeg; reflexivity|]. intros _.
  apply keeps_bind; [apply frame_randomAssign|]. intros _.
  apply frame_signalAll.
Qed.

Lemma frame_trimSector uc' acc i : keeps I (trimSector SectorSize uc' acc i).
Proof.
  unfold trimSector. destruct acc as [a m].
  apply keeps_bind; [apply keeps_getSeg|]. intros u.
  apply keeps_bind; [apply keeps_sliceGet|]. intros s.
  destruct s; [apply keeps_ret|].
  destruct (_ >=? _); [|apply keeps_ret].
  apply keeps_bind; [apply frame_setPhysical|]. intros _.
  apply keeps_bind; [apply frame_setSlot|]. intros _. apply keeps_ret.
Qed.

Lemma frame_releaseUnneededSectors uc' :
  keeps I (releaseUnneededSectors SectorSize uc').
Proof.
  unfold releaseUnneededSectors.
  apply keeps_bind; [apply keeps_getSeg|]. intros u.
  apply keeps_foldM. intros s x. apply frame_trimSector.
Qed.

End WithCode.
End ReleaseFrame.

Lemma keeps_bind_getSeg {B} (I : World -> Prop) uc
    (k : unfinishedUploadSegment -> M B) :
  (forall u, (exists w, I w /\ segs w !! uc = Some u) -> keeps I (k u)) ->
  keeps I (bind (getSeg uc) k).
Proof.
  intros Hk w Hw. unfold bind, getSeg.
  destruct (segs w !! uc) as [u|] eqn:E; [|exact Hw].
  apply Hk; eauto.
Qed.

Lemma triple_bind_getSeg {B} (P : World -> Prop) uc
    (k : unfinishedUploadSegment -> M B) R (E : World -> Prop) :
  (forall w, P w -> E w) ->
  (forall u, (exists w, P w /\ segs w !! uc = Some u) -> triple P (k u) R E) ->
  triple P (bind (getSeg uc) k) R E.
Proof.
  intros HE Hk w Hw. unfold bind, getSeg.
  destruct (segs w !! uc) as [u|] eqn:Eu; [|apply HE; exact Hw].
  apply Hk; eauto.
Qed.

Lemma triple_bind_keeps {A B} (I : World -> Prop) (m : M A) (f : A -> M B) R
    (E : World -> Prop) :
  keeps I m -> (forall w, I w -> E w) -> (forall a, triple I (f a) R E) ->
  triple I (bind m f) R E.
Proof.
  intros Hm HE Hf. eapply triple_bind; [|exact Hf].
  eapply triple_conseq; [exact Hm| | |]; auto.
Qed.

Lemma releaseCount_of_frame {A} (m : M A) uc b :
  (forall X t0, keeps (releaseFrame uc b X t0) m) ->
  forall d, keeps (releaseCount uc b d) m.
Proof.
  intros H d w [Hr Hd].
  specialize (H (pendingSegments w) (trace w) w).
  assert (Hw : releaseFrame uc b (pendingSegments w) (trace w) w).
  { split; [exact Hr|]. split; [reflexivity|]. exists []. split; [reflexivity|].
    constructor. }
  specialize (H Hw).
  destruct (m w) as [a w'|msg w']; destruct H as (Hr' & _ & added & Ht & Hadd);
    (split; [exact Hr'|]);
    rewrite Ht, nDeletes_app, (nDeletes_no_release _ Hadd); exact Hd.
Qed.

Lemma count_emit uc b d e :
  isDelete e = false -> keeps (releaseCount uc b d) (emit e).
Proof.
  intros He w [Hr Hd]. unfold emit. split; [exact Hr|].
  simpl. unfold nDeletes in *. simpl. rewrite He. exact Hd.
Qed.

Section CleanupRelease.
Variable SectorSize : Z.
Variable RemoteRepairDownloadThreshold : float.
Variable isReady : ptr -> worker -> unfinishedUploadSegment -> bool.
Variable randInt : nat -> Z.

#[local] Abbreviation cleanup :=
  (cleanupUploadSegment SectorSize RemoteRepairDownloadThreshold isReady randInt).
#[local] Abbreviation updateStuck :=
  (updateUploadSegmentStuckStatus RemoteRepairDownloadThreshold).

Lemma count_updateStuck uc b d cs uc' :
  keeps (releaseCount uc b d) (updateStuck cs uc').
Proof.
  unfold updateUploadSegmentStuckStatus.
  apply keeps_bind; [apply keeps_getSeg|]. intros u.
  destruct (_ && _); [apply keeps_ret|].
  apply keeps_bind; [apply count_emit; reflexivity|]. intros _.
  apply keeps_bind; [apply count_emit; reflexivity|]. intros _.
  destruct (_ && _); [|apply keeps_ret].
  destruct (stopFirst cs); [apply keeps_ret | apply count_emit; reflexivity].
Qed.

(** On a segment that is already released, cleanup keeps the pending set and
    makes no release call. *)
Lemma cleanup_frame_released cs uc X t0 :
  keeps (releaseFrame uc true X t0) (cleanup cs uc).
Proof.
  unfold cleanupUploadSegment.
  apply keeps_bind; [apply frame_releaseUnneededSectors|]. intros [avail mem].
  apply keeps_bind_getSeg. intros u (w & (Hr & _) & Hu).
  rewrite (Hr u Hu). simpl negb. rewrite andb_false_r.
  apply keeps_bind; [apply keeps_ret|]. intros _.
  apply keeps_bind; [apply frame_modSeg; reflexivity|]. intros _.
  apply keeps_bind; [apply keeps_getSeg|]. intros u1.
  apply keeps_bind; [apply keeps_when, frame_notifyBackupWorkers|]. intros _.
  apply keeps_bind; [apply keeps_when, frame_emit; reflexivity|]. intros _.
  apply keeps_bind; [apply keeps_ret|]. intros _.
  apply keeps_bind; [apply keeps_getSeg|]. intros u2.
  apply keeps_when, frame_emit. reflexivity.
Qed.

Lemma count_release_set uc d :
  triple (releaseCount uc false d) (modSeg uc (set_released true))
    (fun _ => releaseCount uc true d) (releaseCount uc false d).
Proof.
  intros w [Hr Hd]. unfold modSeg.
  destruct (segs w !! uc) as [u|] eqn:E; [|split; assumption].
  split; [|exact Hd]. unfold releasedIs. simpl. intros u' Hu'.
  rewrite lookup_insert_eq in Hu'. inversion Hu'. reflexivity.
Qed.

Lemma count_release_block uc d cs :
  triple (releaseCount uc true d)
    (updateStuck cs uc ;;;
     emit (EvFileClose uc) ;;;
     u <- getSeg uc ;;
     emit (EvDeletePending (id u)) ;;;
     (fun w => Ok tt (set_pendingSegments (pendingSegments w ∖ {[ id u ]}) w)))
    (fun _ => releaseCount uc true (S d)) (releaseCount uc true d).
Proof.
  apply triple_bind_keeps; [apply count_updateStuck | auto |]. intros _.
  apply triple_bind_keeps; [apply count_emit; reflexivity | auto |]. intros _.
  apply triple_bind_getSeg; [auto|]. intros u _.
  eapply triple_bind with (Q := fun _ => releaseCount uc true (S d)).
  - intros w [Hr Hd]. split; [exact Hr|]. simpl.
    unfold nDeletes in *. simpl. rewrite Hd. reflexivity.
  - intros _ w [Hr Hd]. split; [exact Hr | exact Hd].
Qed.

(** A call of cleanup on a segment that is not released deletes the segment
    from the pending set at most once, and only after setting [released]. *)
Lemma cleanup_count_unreleased cs uc d :
  triple (releaseCount uc false d) (cleanup cs uc)
    (fun _ => afterCleanup uc d) (afterCleanup uc d).
Proof.
  unfold cleanupUploadSegment.
  apply triple_bind_keeps.
  { apply releaseCount_of_frame. intros. apply frame_releaseUnneededSectors. }
  { intros w Hw. left. exact Hw. }
  intros [avail mem].
  apply triple_bind_getSeg; [intros w Hw; left; exact Hw|].
  intros u (w & [Hr _] & Hu). rewrite (Hr u Hu). simpl negb.
  rewrite andb_true_r.
  destruct (IsSegmentUploadComplete u); cbn [andb].
  - eapply triple_bind with (Q := fun _ => releaseCount uc true d).
    { unfold when. eapply triple_conseq; [apply count_release_set| | |].
      - intros w0 Hw0. exact Hw0.
      - intros a w0 Hw0. exact Hw0.
      - intros w0 Hw0. left. exact Hw0. }
    intros _.
    assert (HE : forall w0, releaseCount uc true d w0 -> afterCleanup uc d w0)
      by (intros w0 Hw0; right; left; exact Hw0).
    apply triple_bind_keeps; [|exact HE|].
    { apply releaseCount_of_frame. intros. apply frame_modSeg. reflexivity. }
    intros _. apply triple_bind_keeps; [apply keeps_getSeg|exact HE|].
    intros u1. apply triple_bind_keeps; [|exact HE|].
    { apply keeps_when, releaseCount_of_frame. intros.
      apply frame_notifyBackupWorkers. }
    intros _. apply triple_bind_keeps; [|exact HE|].
    { apply keeps_when, count_emit. reflexivity. }
    intros _.
    eapply triple_bind with (Q := fun _ => releaseCount uc true (S d)).
    { unfold when. eapply triple_conseq; [apply count_release_block| | |].
      - intros w0 Hw0. exact Hw0.
      - intros a w0 Hw0. exact Hw0.
      - exact HE. }
    intros _.
    eapply triple_conseq with (P := releaseCount uc true (S d))
      (Q := fun _ => releaseCount uc true (S d)) (E := releaseCount uc true (S d)).
    + apply keeps_bind; [apply keeps_getSeg|]. intros u2.
      apply keeps_when, count_emit. reflexivity.
    + auto.
    + intros _ w0 Hw0. right. right. exact Hw0.
    + intros w0 Hw0. right. right. exact Hw0.
  - eapply triple_conseq with (P := releaseCount uc false d)
      (Q := fun _ => releaseCount uc false d) (E := releaseCount uc false d).
    + apply keeps_bind; [unfold when; apply keeps_ret|]. intros _.
      apply keeps_bind.
      { apply releaseCount_of_frame. intros. apply frame_modSeg. reflexivity. }
      intros _. apply keeps_bind; [apply keeps_getSeg|]. intros u1.
      apply keeps_bind.
      { apply keeps_when, releaseCount_of_frame. intros.
        apply frame_notifyBackupWorkers. }
      intros _. apply keeps_bind.
      { apply keeps_when, count_emit. reflexivity. }
      intros _. apply keeps_bind; [unfold when; apply keeps_ret|]. intros _.
      apply keeps_bind; [apply keeps_getSeg|]. intros u2.
      apply keeps_when, count_emit. reflexivity.
    + auto.
    + intros _ w0 Hw0. left. exact Hw0.
    + intros w0 Hw0. left. exact Hw0.
Qed.

End CleanupRelease.

Lemma set_memoryReleased_same (u : unfinishedUploadSegment) :
  set_memoryReleased (memoryReleased u) u = u.
Proof. destruct u. reflexivity. Qed.

Lemma set_segs_same (w : World) : set_segs (segs w) w = w.
Proof. destruct w. reflexivity. Qed.

Lemma of_nat_ltb_0 (i : nat) : (Z.of_nat i <? 0) = false.
Proof. apply Z.ltb_ge. lia. Qed.

Section CleanupCalls.
Variable SectorSize : Z.
Variable RemoteRepairDownloadThreshold : float.
Variable isReady : ptr -> worker -> unfinishedUploadSegment -> bool.
Variable randInt : nat -> Z.

#[local] Abbreviation cleanup' :=
  (cleanupUploadSegment SectorSize RemoteRepairDownloadThreshold isReady randInt).

Lemma trim_all_claimed uc u w acc l :
  segs w !! uc = Some u ->
  Forall (fun i => sectorSlotsStatus u !! i = Some true) l ->
  foldM l (trimSector SectorSize uc) acc w = Ok acc w.
Proof.
  intros Hu Hl. revert acc. induction Hl as [|i l Hi _ IH]; intros acc.
  - reflexivity.
  - simpl. unfold bind at 1. unfold trimSector at 1. destruct acc as [a m].
    unfold bind, getSeg. rewrite Hu. unfold sliceGet.
    rewrite of_nat_ltb_0, Nat2Z.id, Hi. simpl. apply IH.
Qed.

Lemma cleanup_all_claimed_noop cs uc u w :
  segs w !! uc = Some u -> released u = true ->
  Forall (fun s => s = true) (sectorSlotsStatus u) ->
  0 <= memoryReleased u < 2 ^ 64 ->
  cleanup' cs uc w =
    Ok tt (if IsSegmentUploadComplete u
              && negb (memoryReleased u =? memoryNeeded u)
           then set_trace (EvMemorySanityLog uc :: trace w) w
           else w).
Proof.
  intros Hu Hrel Hall Hmem.
  unfold cleanupUploadSegment, releaseUnneededSectors.
  unfold bind at 1. unfold bind at 1. unfold getSeg at 1. rewrite Hu.
  rewrite (trim_all_claimed uc u w).
  2: exact Hu.
  2: { apply Forall_forall. intros i Hi. apply list_elem_of_In, in_seq in Hi.
       destruct (sectorSlotsStatus u !! i) as [s|] eqn:Es.
       - rewrite Forall_forall in Hall. rewrite (Hall s); [reflexivity|].
         apply list_elem_of_lookup. eauto.
       - apply lookup_ge_None in Es. lia. }
  unfold bind at 1. unfold getSeg at 1. rewrite Hu, Hrel.
  simpl negb. rewrite andb_false_r.
  unfold bind at 1. simpl when. unfold ret at 1.
  unfold bind at 1. unfold modSeg. rewrite Hu.
  rewrite Z.add_0_r, (wrapU64_small _ Hmem), set_memoryReleased_same.
  rewrite (insert_id _ _ _ Hu), set_segs_same.
  unfold bind, getSeg. rewrite Hu. simpl.
  rewrite Hu. unfold when.
  destruct (IsSegmentUploadComplete u && negb (memoryReleased u =? memoryNeeded u));
    reflexivity.
Qed.

Lemma afterCleanup_modSeg uc d change :
  (forall u, released (change u) = released u) ->
  keeps (afterCleanup uc d) (modSeg uc change).
Proof.
  intros Hc.
  assert (Hk : forall b d', keeps (releaseCount uc b d') (modSeg uc change)).
  { intros b d'. apply releaseCount_of_frame. intros. apply frame_modSeg.
    exact Hc. }
  intros w [Hw|[Hw|Hw]].
  - specialize (Hk false d w Hw). destruct (modSeg uc change w); left; exact Hk.
  - specialize (Hk true d w Hw).
    destruct (modSeg uc change w); right; left; exact Hk.
  - specialize (Hk true (S d) w Hw).
    destruct (modSeg uc change w); right; right; exact Hk.
Qed.

Lemma afterCleanup_cleanup uc d cs : keeps (afterCleanup uc d) (cleanup' cs uc).
Proof.
  assert (Hk : forall d', keeps (releaseCount uc true d') (cleanup' cs uc)).
  { intros d'. apply releaseCount_of_frame. intros.
    apply cleanup_frame_released. }
  intros w [Hw|[Hw|Hw]].
  - apply (cleanup_count_unreleased _ _ _ _ cs uc d w Hw).
  - specialize (Hk d w Hw).
    destruct (cleanup' cs uc w); right; left; exact Hk.
  - specialize (Hk (S d) w Hw).
    destruct (cleanup' cs uc w); right; right; exact Hk.
Qed.

Lemma afterCleanup_calls uc d calls :
  Forall (fun c => forall u, released (snd c u) = released u) calls ->
  keeps (afterCleanup uc d) (cleanupCalls SectorSize RemoteRepairDownloadThreshold isReady randInt
           calls uc).
Proof.
  induction 1 as [|[cs change] calls Hc _ IH]; simpl.
  - apply keeps_ret.
  - apply keeps_bind; [apply afterCleanup_modSeg; exact Hc|]. intros _.
    apply keeps_bind; [apply afterCleanup_cleanup|]. intros _. exact IH.
Qed.

End CleanupCalls.

(** C5, the claim as stated fails: on a released segment with one free slot
    and no worker left, cleanupUploadSegment is no no-op: it claims the slot,
    drops its data, adds a sector to memoryReleased and returns the memory of
    a sector to the memory manager. *)
Lemma cleanup_released_not_noop :
  let u := set_released true (exampleSegment 4194304 1 0 0 0 [false] [[x01]]) in
  let w := exampleWorld u [] in
  exists w' u',
    cleanupUploadSegment 4194304 threshold_0_1 exampleReady exampleRand
      clientOnline 1%positive w = Ok tt w'
    /\ segs w' !! 1%positive = Some u'
    /\ released u = true
    /\ sectorSlotsStatus u' = [true] /\ physicalSegmentData u' = [[]]
    /\ memoryReleased u = 0 /\ memoryReleased u' = 4194304
    /\ trace w = [] /\ trace w' = [EvMemoryReturn 4194304].
Proof.
  cbv zeta. eexists. eexists. split; [vm_compute; reflexivity|].
  split; [vm_compute; reflexivity|]. repeat split.
Qed.

(** C5, amended: on a segment whose flag [released] is already set,
    cleanupUploadSegment makes none of the release calls (stuck status,
    directory metadata, file close, deletion from pendingSegments, stuck-loop
    signal), leaves the pending set as it is and leaves the flag set, whether
    it returns or panics; it changes nothing at all (it only logs if the
    memory sanity check fails) when no slot is free, and with a free slot it
    need not be a no-op, since the trimming pass is not guarded by the flag.
    Across any sequence of cleanup calls on a segment, between which the rest
    of the program does not reset the flag, the segment is deleted from
    pendingSegments at most once. *)
Theorem cleanup_released_set_once (SectorSize : Z) (thr : float)
    (isReady : ptr -> worker -> unfinishedUploadSegment -> bool)
    (randInt : nat -> Z) :
  (forall cs uc u w,
     segs w !! uc = Some u -> released u = true ->
     let w' := worldOf (cleanupUploadSegment SectorSize thr isReady randInt cs uc w) in
     pendingSegments w' = pendingSegments w
     /\ (exists added, trace w' = added ++ trace w
           /\ Forall (fun e => isReleaseEvent e = false) added)
     /\ releasedIs uc true w')
  /\ (forall cs uc u w,
        segs w !! uc = Some u -> released u = true ->
        Forall (fun s => s = true) (sectorSlotsStatus u) ->
        0 <= memoryReleased u < 2 ^ 64 ->
        cleanupUploadSegment SectorSize thr isReady randInt cs uc w =
          Ok tt (if IsSegmentUploadComplete u
                    && negb (memoryReleased u =? memoryNeeded u)
                 then set_trace (EvMemorySanityLog uc :: trace w) w
                 else w))
  /\ (forall calls uc w,
        Forall (fun c => forall u, released (snd c u) = released u) calls ->
        (nDeletes (trace (worldOf
           (cleanupCalls SectorSize thr isReady randInt calls uc w)))
         <= S (nDeletes (trace w)))%nat).
Proof.
  split; [|split].
  - intros cs uc u w Hu Hrel w'.
    pose proof (cleanup_frame_released SectorSize thr isReady randInt cs uc
                  (pendingSegments w) (trace w) w) as H.
    assert (Hw : releaseFrame uc true (pendingSegments w) (trace w) w).
    { split; [|split; [reflexivity|]].
      - intros u' Hu'. rewrite Hu in Hu'. inversion Hu'; subst. exact Hrel.
      - exists []. split; [reflexivity | constructor]. }
    specialize (H Hw). subst w'.
    destruct (cleanupUploadSegment _ _ _ _ cs uc w) as [a w'|msg w'];
      destruct H as (Hr & HX & Ht); simpl; auto.
  - intros cs uc u w. apply cleanup_all_claimed_noop.
  - intros calls uc w Hcalls.
    set (d := nDeletes (trace w)).
    pose proof (afterCleanup_calls SectorSize thr isReady randInt uc d calls
                  Hcalls w) as H.
    assert (Hw : afterCleanup uc d w).
    { destruct (segs w !! uc) as [u|] eqn:Hu.
      - destruct (released u) eqn:Hrel.
        + right. left. split; [|reflexivity]. intros u' Hu'.
          rewrite Hu in Hu'. inversion Hu'; subst. exact Hrel.
        + left. split; [|reflexivity]. intros u' Hu'.
          rewrite Hu in Hu'. inversion Hu'; subst. exact Hrel.
      - left. split; [|reflexivity]. intros u' Hu'. rewrite Hu in Hu'.
        discriminate. }
    specialize (H Hw).
    destruct (cleanupCalls _ _ _ _ calls uc w) as [a w'|msg w']; simpl;
      destruct H as [[_ H]|[[_ H]|[_ H]]]; rewrite H; lia.
Qed.

Lemma cleanup_released_set_once_witness :
  (nDeletes (trace (worldOf
     (cleanupCalls 4194304 threshold_0_1 exampleReady exampleRand
        [(clientOnline, fun u => u); (clientOnline, fun u => u)] 1%positive
        (exampleWorld (exampleSegment 4194304 1 0 0 0 [false] [[]]) []))))
   <= 1)%nat.
Proof.
  apply (proj2 (proj2 (cleanup_released_set_once 4194304 threshold_0_1
                         exampleReady exampleRand))
           [(clientOnline, fun u => u); (clientOnline, fun u => u)] 1%positive
           (exampleWorld (exampleSegment 4194304 1 0 0 0 [false] [[]]) [])).
  repeat constructor.
Defined.

(** ** The slot-trimming pass of cleanup *)

Lemma freeSlots_nonneg slots : 0 <= freeSlots slots.
Proof. unfold freeSlots. lia. Qed.

Lemma freeSlots_cons s slots :
  freeSlots (s :: slots) = (if s then 0 else 1) + freeSlots slots.
Proof. unfold freeSlots. destruct s; simpl; lia. Qed.

Lemma trimSlots_length remain avail slots :
  List.length (trimSlots remain avail slots) = List.length slots.
Proof.
  revert avail. induction slots as [|s r IH]; intros avail; [reflexivity|].
  simpl. destruct s; [|destruct (avail >=? remain)]; simpl; rewrite IH;
    reflexivity.
Qed.

(** A slot is claimed after the pass iff it was claimed before or the number of
    free slots kept before it is at least [remain]. *)
Lemma trimSlots_lookup remain avail slots i s :
  slots !! i = Some s ->
  trimSlots remain avail slots !! i =
    Some (s || (remain <=? avail + freeSlots (take i (trimSlots remain avail slots)))).
Proof.
  revert avail i. induction slots as [|s0 r IH]; intros avail i Hi.
  - discriminate.
  - destruct i as [|i].
    + simpl in Hi. inversion Hi; subst s0. simpl.
      destruct s; [reflexivity|].
      destruct (avail >=? remain) eqn:E; simpl; f_equal;
        change (freeSlots []) with 0; rewrite Z.add_0_r; symmetry.
      * apply Z.leb_le. apply Z.geb_le in E. lia.
      * apply Z.leb_gt. rewrite Z.geb_leb in E. apply Z.leb_gt in E. lia.
    + simpl in Hi. simpl.
      destruct s0; [|destruct (avail >=? remain)]; simpl;
        rewrite (IH _ _ Hi), freeSlots_cons; do 3 f_equal; lia.
Qed.

Lemma trimSlots_free remain avail slots :
  freeSlots (trimSlots remain avail slots)
  = Z.min (freeSlots slots) (Z.max 0 (remain - avail)).
Proof.
  revert avail. induction slots as [|s r IH]; intros avail.
  - simpl. change (freeSlots []) with 0. lia.
  - simpl. pose proof (freeSlots_nonneg r) as Hr. destruct s.
    + rewrite !freeSlots_cons, IH. lia.
    + destruct (avail >=? remain) eqn:E.
      * apply Z.geb_le in E. rewrite !freeSlots_cons, IH. lia.
      * rewrite Z.geb_leb in E. apply Z.leb_gt in E.
        rewrite !freeSlots_cons, IH. lia.
Qed.

Lemma trimPhysical_length remain avail k slots physical :
  List.length (trimPhysical remain avail k slots physical) = List.length physical.
Proof.
  revert avail k physical. induction slots as [|s r IH]; intros avail k physical;
    [reflexivity|].
  simpl. destruct s; [|destruct (avail >=? remain)]; rewrite IH;
    try rewrite length_insert; reflexivity.
Qed.

Lemma trimPhysical_before remain avail k slots physical j :
  (j < k)%nat ->
  trimPhysical remain avail k slots physical !! j = physical !! j.
Proof.
  revert avail k physical. induction slots as [|s r IH]; intros avail k physical Hj;
    [reflexivity|].
  simpl. destruct s; [|destruct (avail >=? remain)]; rewrite IH by lia;
    try reflexivity.
  apply list_lookup_insert_ne. lia.
Qed.

(** The data of a slot that the pass releases is cleared. *)
Lemma trimPhysical_released remain avail k slots physical i :
  slots !! i = Some false ->
  trimSlots remain avail slots !! i = Some true ->
  (k + i < List.length physical)%nat ->
  trimPhysical remain avail k slots physical !! (k + i)%nat = Some [].
Proof.
  revert avail k physical i.
  induction slots as [|s r IH]; intros avail k physical i Hi Ht Hk;
    [discriminate|].
  destruct i as [|i].
  - simpl in Hi. inversion Hi; subst s. simpl in *.
    destruct (avail >=? remain); [|discriminate].
    rewrite trimPhysical_before by lia. rewrite Nat.add_0_r.
    apply list_lookup_insert_eq. lia.
  - simpl in Hi. simpl in *.
    replace (k + S i)%nat with (S k + i)%nat by lia.
    destruct s; [|destruct (avail >=? remain)]; simpl in Ht;
      apply IH; try assumption; try rewrite length_insert; lia.
Qed.

(** The data of a slot that the pass does not release stays. *)
Lemma trimPhysical_kept remain avail k slots physical i s :
  slots !! i = Some s ->
  trimSlots remain avail slots !! i = Some s ->
  trimPhysical remain avail k slots physical !! (k + i)%nat
  = physical !! (k + i)%nat.
Proof.
  revert avail k physical i.
  induction slots as [|s0 r IH]; intros avail k physical i Hi Ht;
    [discriminate|].
  destruct i as [|i].
  - simpl in Hi. inversion Hi; subst s0. simpl in *.
    destruct s; [apply trimPhysical_before; lia|].
    destruct (avail >=? remain); [discriminate|].
    apply trimPhysical_before. lia.
  - simpl in Hi. simpl in *.
    replace (k + S i)%nat with (S k + i)%nat by lia.
    destruct s0; [|destruct (avail >=? remain)]; simpl in Ht;
      rewrite (IH _ _ _ _ Hi Ht); try reflexivity.
    apply list_lookup_insert_ne. lia.
Qed.

Lemma sliceSet_in_range {A} (l : list A) (k : nat) (x : A) :
  (k < List.length l)%nat -> sliceSet l (Z.of_nat k) x = Some (<[k := x]> l).
Proof.
  intros Hk. unfold sliceSet.
  replace (0 <=? Z.of_nat k) with true by (symmetry; apply Z.leb_le; lia).
  replace (Z.of_nat k <? Z.of_nat (List.length l)) with true
    by (symmetry; apply Z.ltb_lt; lia).
  simpl. rewrite Nat2Z.id. reflexivity.
Qed.

Lemma sliceSet_out_of_range {A} (l : list A) (k : nat) (x : A) :
  (List.length l <= k)%nat -> sliceSet l (Z.of_nat k) x = None.
Proof.
  intros Hk. unfold sliceSet.
  replace (Z.of_nat k <? Z.of_nat (List.length l)) with false
    by (symmetry; apply Z.ltb_ge; lia).
  rewrite andb_false_r. reflexivity.
Qed.

Lemma sliceGet_nat {A} (l : list A) (k : nat) (x : A) w :
  l !! k = Some x -> sliceGet l (Z.of_nat k) w = Ok x w.
Proof.
  intros Hk. unfold sliceGet. rewrite of_nat_ltb_0, Nat2Z.id, Hk. reflexivity.
Qed.

Lemma foldM_cons {A S} (x : A) (l : list A) (f : S -> A -> M S) (s : S) :
  foldM (x :: l) f s = (s' <- f s x ;; foldM l f s').
Proof. reflexivity. Qed.

Lemma forM_cons {A} (x : A) (l : list A) (f : A -> M unit) :
  forM (x :: l) f = (f x ;;; forM l f).
Proof. reflexivity. Qed.

Lemma set_slots_physical_same (u : unfinishedUploadSegment) :
  set_sectorSlotsStatus (sectorSlotsStatus u)
    (set_physicalSegmentData (physicalSegmentData u) u) = u.
Proof. destruct u. reflexivity. Qed.

Section TrimPass.
Variable SectorSize : Z.
Variable uc : ptr.

Lemma trimSector_step u w pre s r a m :
  segs w !! uc = Some u ->
  sectorSlotsStatus u = pre ++ s :: r ->
  (List.length pre < List.length (physicalSegmentData u))%nat ->
  trimSector SectorSize uc (a, m) (List.length pre) w =
    if s then Ok (a, m) w
    else if a >=? workersRemain u then
      Ok (a, wrapU64 (m + SectorSize))
         (set_segs (<[uc := set_sectorSlotsStatus (pre ++ true :: r)
                        (set_physicalSegmentData
                           (<[List.length pre := []]> (physicalSegmentData u)) u)]>
                      (segs w)) w)
    else Ok (wrapInt (a + 1), m) w.
Proof.
  intros Hu Hs Hp. unfold trimSector. unfold bind at 1. unfold getSeg at 1.
  rewrite Hu. unfold bind at 1.
  rewrite (sliceGet_nat _ _ s) by (rewrite Hs; apply list_lookup_middle; reflexivity).
  destruct s; [reflexivity|].
  destruct (a >=? workersRemain u); [|reflexivity].
  unfold bind at 1. unfold setPhysical at 1. unfold bind at 1.
  unfold getSeg at 1. rewrite Hu.
  rewrite sliceSet_in_range by exact Hp.
  unfold modSeg at 1. rewrite Hu.
  unfold bind at 1. unfold setSlot, bind, getSeg. simpl segs.
  rewrite lookup_insert_eq.
  cbn [sectorSlotsStatus set_physicalSegmentData]. rewrite Hs.
  rewrite sliceSet_in_range by (rewrite length_app; simpl; lia).
  unfold modSeg. simpl segs. rewrite lookup_insert_eq.
  rewrite insert_insert_eq.
  rewrite insert_app_r_alt by lia. rewrite Nat.sub_diag. simpl.
  reflexivity.
Qed.

(** The pass over the slots [todo] that follow [pre], from [avail] free slots
    kept and [m] bytes counted. *)
Lemma trim_loop todo : forall pre u w a m,
  segs w !! uc = Some u ->
  sectorSlotsStatus u = pre ++ todo ->
  (List.length (pre ++ todo) <= List.length (physicalSegmentData u))%nat ->
  0 <= a -> a + Z.of_nat (List.length todo) < 2 ^ 63 ->
  0 <= m < 2 ^ 64 ->
  foldM (seq (List.length pre) (List.length todo)) (trimSector SectorSize uc)
        (a, m) w
  = Ok (a + freeSlots (trimSlots (workersRemain u) a todo),
        wrapU64 (m + SectorSize
                     * (freeSlots todo
                        - freeSlots (trimSlots (workersRemain u) a todo))))
       (set_segs (<[uc := trimmedSegment a pre todo u]> (segs w)) w).
Proof.
  induction todo as [|s r IH]; intros pre u w a m Hu Hs Hp Ha Hb Hm.
  - simpl. unfold ret, trimmedSegment. simpl.
    change (freeSlots []) with 0. rewrite Z.add_0_r, Z.sub_diag, Z.mul_0_r.
    rewrite Z.add_0_r, (wrapU64_small _ Hm), <- Hs, set_slots_physical_same.
    rewrite (insert_id _ _ _ Hu), set_segs_same. reflexivity.
  - assert (Hlen : forall x : bool, S (List.length pre) = List.length (pre ++ [x]))
      by (intros x; rewrite length_app; simpl; lia).
    rewrite length_app in Hp. simpl List.length in Hp, Hb.
    simpl seq. rewrite foldM_cons. unfold bind at 1.
    rewrite (trimSector_step u w pre s r a m Hu Hs) by lia.
    unfold trimmedSegment. simpl trimSlots. simpl trimPhysical.
    destruct s.
    + rewrite (Hlen true).
      rewrite (IH (pre ++ [true]) u w a m Hu); try lia.
      * unfold trimmedSegment. rewrite <- (Hlen true), <- !app_assoc.
        rewrite !freeSlots_cons. simpl app. repeat f_equal; lia.
      * rewrite Hs, <- app_assoc. reflexivity.
      * rewrite !length_app. simpl. lia.
    + destruct (a >=? workersRemain u) eqn:E.
      * rewrite (Hlen true).
        match goal with
        | |- foldM _ _ _ (set_segs (<[uc := ?u2]> _) w) = _ =>
            rewrite (IH (pre ++ [true]) u2
                       (set_segs (<[uc := u2]> (segs w)) w) a
                       (wrapU64 (m + SectorSize)))
        end.
        -- unfold trimmedSegment. rewrite <- (Hlen true), <- !app_assoc.
           cbn [workersRemain set_sectorSlotsStatus set_physicalSegmentData
                physicalSegmentData segs set_segs].
           rewrite insert_insert_eq, !freeSlots_cons, wrapU64_add_l.
           simpl app.
           match goal with
           | |- Ok ?p1 ?w1 = Ok ?p2 ?w2 =>
               replace p1 with p2; [reflexivity|]
           end.
           f_equal; try lia. f_equal. ring.
        -- simpl. apply lookup_insert_eq.
        -- simpl. rewrite <- app_assoc. reflexivity.
        -- simpl. rewrite !length_app, length_insert. simpl. lia.
        -- lia.
        -- lia.
        -- apply wrapU64_range.
      * rewrite (Hlen false).
        rewrite (IH (pre ++ [false]) u w (wrapInt (a + 1)) m Hu);
          rewrite ?(wrapInt_small (a + 1)); try lia.
        -- unfold trimmedSegment. rewrite <- (Hlen false), <- !app_assoc.
           rewrite !freeSlots_cons. simpl app.
           match goal with
           | |- Ok ?p1 ?w1 = Ok ?p2 ?w2 =>
               replace p1 with p2; [reflexivity|]
           end.
           f_equal; try lia. f_equal. ring.
        -- rewrite Hs, <- app_assoc. reflexivity.
        -- rewrite !length_app. simpl. lia.
Qed.

End TrimPass.

Lemma freeSlots_take_mono (l : list bool) (i j : nat) :
  (i <= j)%nat -> freeSlots (take i l) <= freeSlots (take j l).
Proof.
  revert i j. induction l as [|s l IH]; intros i j Hij.
  - rewrite !take_nil. lia.
  - destruct i as [|i].
    + simpl. change (freeSlots []) with 0. apply freeSlots_nonneg.
    + destruct j as [|j]; [lia|]. simpl. rewrite !freeSlots_cons.
      specialize (IH i j). lia.
Qed.

(** C6, the claim as stated fails: with one free slot and workersRemain = 0
    the number of free slots kept so far (0) does not exceed workersRemain,
    and yet the slot is released. *)
Lemma releaseUnneededSectors_releases_at_equal :
  let u := exampleSegment 4194304 1 0 0 0 [false] [[x01]] in
  (freeSlots (take 0 (sectorSlotsStatus u)) >? workersRemain u) = false
  /\ exists w',
       releaseUnneededSectors 4194304 1%positive (exampleWorld u [])
         = Ok (0, 4194304) w'
       /\ (sectorSlotsStatus <$> segs w' !! 1%positive) = Some [true]
       /\ (physicalSegmentData <$> segs w' !! 1%positive) = Some [[]].
Proof.
  split; [reflexivity|]. eexists. split; [vm_compute; reflexivity|].
  split; reflexivity.
Qed.

(** C6, amended: in the slot-trimming pass of cleanupUploadSegment, walking the
    slots in index order, an unclaimed slot is released (buffer cleared, one
    sector size counted, slot marked claimed) if and only if the number of
    unclaimed slots kept before it is at least workersRemain; so exactly
    min(free slots before, max(0, workersRemain)) slots stay free, and the
    released slots are the later ones.  This holds when the physical data has
    an entry for every slot (otherwise the pass panics). *)
Theorem releaseUnneededSectors_spec (SectorSize : Z) (uc : ptr)
    (u : unfinishedUploadSegment) (w : World) :
  segs w !! uc = Some u ->
  (List.length (sectorSlotsStatus u) <= List.length (physicalSegmentData u))%nat ->
  Z.of_nat (List.length (sectorSlotsStatus u)) < 2 ^ 63 ->
  trimPassSpec SectorSize uc u w.
Proof.
  intros Hu Hp Hlen. unfold trimPassSpec.
  set (remain := workersRemain u).
  exists (trimSlots remain 0 (sectorSlotsStatus u)),
         (trimPhysical remain 0 0 (sectorSlotsStatus u) (physicalSegmentData u)).
  split; [|split; [|split; [|split; [|split; [|split; [|split]]]]]].
  - unfold releaseUnneededSectors, bind, getSeg. rewrite Hu.
    pose proof (trim_loop SectorSize uc (sectorSlotsStatus u) [] u w 0 0 Hu) as H.
    simpl in H. rewrite H; try lia; [|reflexivity].
    unfold trimmedSegment. simpl. reflexivity.
  - apply trimSlots_length.
  - apply trimPhysical_length.
  - intros i s Hi. rewrite (trimSlots_lookup remain 0 _ i s Hi). reflexivity.
  - intros i Hi Ht.
    apply (trimPhysical_released remain 0 0 _ _ i Hi Ht).
    apply lookup_lt_Some in Hi. lia.
  - intros i s Hi Ht. apply (trimPhysical_kept remain 0 0 _ _ i s Hi Ht).
  - rewrite trimSlots_free. rewrite Z.sub_0_r. reflexivity.
  - intros i j Hij Hi Hj Ht.
    rewrite (trimSlots_lookup remain 0 _ i false Hi) in Ht.
    rewrite (trimSlots_lookup remain 0 _ j false Hj).
    simpl in *. inversion Ht as [Hle]. f_equal. rewrite Hle.
    apply Z.leb_le in Hle. apply Z.leb_le.
    pose proof (freeSlots_take_mono
                  (trimSlots remain 0 (sectorSlotsStatus u)) i j Hij). lia.
Qed.

Lemma releaseUnneededSectors_spec_witness :
  trimPassSpec 4194304 1%positive
    (exampleSegment 12582912 3 0 0 1 [false; true; false] [[x01]; []; [x02]])
    (exampleWorld
       (exampleSegment 12582912 3 0 0 1 [false; true; false] [[x01]; []; [x02]])
       []).
Proof.
  apply releaseUnneededSectors_spec.
  - reflexivity.
  - simpl. lia.
  - simpl. lia.
Defined.

(** ** The assignment of sectors to workers *)


Section Assign.
Variable isReady : ptr -> worker -> unfinishedUploadSegment -> bool.
Variable randInt : nat -> Z.
Variable workers : list ptr.
Variable uc : ptr.

Lemma chosenIndex_lt i r : workers <> [] -> (chosenIndex workers i r < List.length workers)%nat.
Proof.
  intros Hw. unfold chosenIndex.
  assert (0 < Z.of_nat (List.length workers)).
  { destruct workers; [congruence|]. simpl List.length. lia. }
  pose proof (Z.mod_pos_bound (Z.of_nat i + r) (Z.of_nat (List.length workers))).
  lia.
Qed.

Lemma assignSector_step (i : nat) (w : World) (u : unfinishedUploadSegment)
    (s : bool) (wp : ptr) (x : worker) :
  segs w !! uc = Some u ->
  sectorSlotsStatus u !! i = Some s ->
  0 <= randInt (randCount w) ->
  Z.of_nat i + randInt (randCount w) < 2 ^ 63 ->
  workers !! chosenIndex workers i (randInt (randCount w)) = Some wp ->
  wrks w !! wp = Some x ->
  assignSector isReady randInt workers uc i w =
    Ok tt (if s then set_randCount (S (randCount w)) w
           else if isReady wp x u then assignedWorld uc wp x u i w
           else set_randCount (S (randCount w)) w).
Proof.
  intros Hu Hs Hr0 Hr1 Hwp Hx.
  assert (Hne : workers <> []) by (intros E; rewrite E in Hwp; discriminate).
  assert (Hlen : 0 < Z.of_nat (List.length workers)).
  { destruct workers; [congruence|]. simpl List.length. lia. }
  unfold assignSector. unfold bind at 1. unfold randDraw at 1.
  replace (Z.of_nat (List.length workers) =? 0) with false
    by (symmetry; apply Z.eqb_neq; lia).
  unfold bind at 1. unfold getSeg at 1. simpl segs. rewrite Hu.
  unfold bind at 1. rewrite (sliceGet_nat _ _ s _ Hs).
  destruct s; [reflexivity|].
  rewrite wrapInt_small by lia.
  rewrite Z.rem_mod_nonneg by lia.
  unfold bind at 1. unfold sliceGet at 1.
  pose proof (Z.mod_pos_bound (Z.of_nat i + randInt (randCount w))
                (Z.of_nat (List.length workers)) Hlen) as Hb.
  replace (_ mod _ <? 0) with false by (symmetry; apply Z.ltb_ge; lia).
  fold (chosenIndex workers i (randInt (randCount w))). rewrite Hwp.
  unfold ret at 1. unfold bind at 1. unfold getWorker at 1. simpl wrks.
  rewrite Hx.
  destruct (isReady wp x u); [|reflexivity].
  unfold bind at 1. unfold putWorker at 1.
  unfold setSlot, bind, getSeg. simpl segs. rewrite Hu.
  rewrite sliceSet_in_range by (apply lookup_lt_Some in Hs; exact Hs).
  unfold modSeg. simpl segs. rewrite Hu.
  unfold assignedWorld, indexesOf.
  destruct (sectorIndexMap x !! uc); reflexivity.
Qed.

Lemma assignFacts_skip n i w u s wp x :
  assignable workers uc n w ->
  segs w !! uc = Some u -> sectorSlotsStatus u !! i = Some s ->
  workers !! chosenIndex workers i (randInt (randCount w)) = Some wp ->
  wrks w !! wp = Some x ->
  s || isReady wp x u = s ->
  assignFacts isReady randInt workers uc n i w (set_randCount (S (randCount w)) w).
Proof.
  intros Hw Hu Hs Hwp Hx Hb. exists u, s, wp, x.
  repeat (split; [first [assumption|reflexivity]|]).
  split; [unfold slotAt; simpl; rewrite Hu, Hs, Hb; reflexivity|].
  split; [reflexivity|]. split; [intros wp' i' H; exact H|].
  intros -> Hr. rewrite Hr in Hb. discriminate.
Qed.

Lemma assignFacts_assign n i w u wp x :
  assignable workers uc n w ->
  segs w !! uc = Some u -> sectorSlotsStatus u !! i = Some false ->
  workers !! chosenIndex workers i (randInt (randCount w)) = Some wp ->
  wrks w !! wp = Some x ->
  isReady wp x u = true ->
  assignFacts isReady randInt workers uc n i w (assignedWorld uc wp x u i w).
Proof.
  intros [(u0 & Hu0 & Hn) Hall] Hu Hs Hwp Hx Hr. exists u, false, wp, x.
  rewrite Hu in Hu0. inversion Hu0; subst u0.
  repeat (split; [first [assumption|reflexivity]|]).
  split; [split|].
  { eexists. split; [apply lookup_insert_eq|]. simpl.
    rewrite length_insert. exact Hn. }
  { simpl. eapply Forall_impl; [exact Hall|]. intros wp' Hwp'. simpl in *.
    destruct (decide (wp = wp')) as [->|Hne].
    - rewrite lookup_insert_eq. eauto.
    - rewrite lookup_insert_ne by exact Hne. exact Hwp'. }
  split; [reflexivity|]. split; [reflexivity|].
  split.
  { unfold slotAt. simpl. rewrite lookup_insert_eq. simpl. rewrite Hr.
    apply list_lookup_insert_eq. apply lookup_lt_Some in Hs. exact Hs. }
  split.
  { intros j Hj. unfold slotAt. simpl. rewrite lookup_insert_eq, Hu. simpl.
    apply list_lookup_insert_ne. congruence. }
  split.
  { intros wp' i' (x' & Hx' & Hi'). unfold holdsIndex. simpl.
    destruct (decide (wp = wp')) as [->|Hne].
    - rewrite lookup_insert_eq. eexists. split; [reflexivity|].
      rewrite Hx in Hx'. inversion Hx'; subst x'.
      unfold indexesOf at 1. simpl. rewrite lookup_insert_eq. simpl.
      apply elem_of_app. left. exact Hi'.
    - rewrite lookup_insert_ne by exact Hne. eauto. }
  intros _ _. unfold holdsIndex. simpl. rewrite lookup_insert_eq.
  eexists. split; [reflexivity|].
  unfold indexesOf at 1. simpl. rewrite lookup_insert_eq. simpl.
  apply elem_of_app. right. apply list_elem_of_singleton. reflexivity.
Qed.

Lemma assignSector_facts n i w :
  workers <> [] -> assignable workers uc n w -> (i < n)%nat ->
  0 <= randInt (randCount w) ->
  Z.of_nat i + randInt (randCount w) < 2 ^ 63 ->
  exists w', assignSector isReady randInt workers uc i w = Ok tt w'
             /\ assignFacts isReady randInt workers uc n i w w'.
Proof.
  intros Hne Hw Hi Hr0 Hr1.
  pose proof Hw as [(u & Hu & Hn) Hall].
  destruct (lookup_lt_is_Some_2 (sectorSlotsStatus u) i) as [s Hs]; [lia|].
  destruct (lookup_lt_is_Some_2 workers
              (chosenIndex workers i (randInt (randCount w)))) as [wp Hwp];
    [apply chosenIndex_lt; exact Hne|].
  assert (Hx : is_Some (wrks w !! wp)).
  { rewrite Forall_forall in Hall. apply Hall.
    apply list_elem_of_lookup. eauto. }
  destruct Hx as [x Hx].
  rewrite (assignSector_step i w u s wp x Hu Hs Hr0 Hr1 Hwp Hx).
  eexists. split; [reflexivity|].
  destruct s.
  - apply (assignFacts_skip n i w u true wp x); auto.
  - destruct (isReady wp x u) eqn:Hr.
    + apply (assignFacts_assign n i w u wp x); auto.
    + apply (assignFacts_skip n i w u false wp x); auto.
Qed.

(** The rounds of the loop for the [m] slots from [k] on. *)
Lemma assign_loop n rc0 m : forall k w,
  workers <> [] -> assignable workers uc n w -> (k + m <= n)%nat ->
  randCount w = (rc0 + k)%nat -> drawsOk randInt rc0 n ->
  exists w',
    forM (seq k m) (assignSector isReady randInt workers uc) w = Ok tt w'
    /\ assignable workers uc n w' /\ randCount w' = (rc0 + k + m)%nat
    /\ trace w' = trace w
    /\ (forall j, (j < k \/ k + m <= j)%nat -> slotAt uc w' j = slotAt uc w j)
    /\ (forall wp i, holdsIndex uc w wp i -> holdsIndex uc w' wp i).
Proof.
  induction m as [|m IH]; intros k w Hne Hw Hk Hrc Hd.
  - exists w. simpl. split; [reflexivity|]. split; [exact Hw|].
    split; [lia|]. split; [reflexivity|]. split; [reflexivity|auto].
  - destruct (Hd k) as [Hr0 Hr1]; [lia|]. rewrite <- Hrc in Hr0, Hr1.
    destruct (assignSector_facts n k w Hne Hw) as (w1 & Hrun & Hf);
      [lia|exact Hr0|exact Hr1|].
    destruct Hf as (u & s & wp & x & _ & _ & _ & _ & Hw1 & Hrc1 & Ht1 & _
                    & Hother & Hhold & _).
    destruct (IH (S k) w1 Hne Hw1) as (w' & Hrun' & Hw' & Hrc' & Ht' & Hsl & Hh);
      [lia|lia|exact Hd|].
    exists w'. simpl seq. rewrite forM_cons. unfold bind. rewrite Hrun.
    split; [exact Hrun'|]. split; [exact Hw'|]. split; [lia|].
    split; [congruence|]. split.
    + intros j Hj. rewrite Hsl by lia. apply Hother. lia.
    + intros wp' i' H. apply Hh, Hhold, H.
Qed.

End Assign.




(** ** Panics *)

Lemma foldM_app {A S} (l1 l2 : list A) (f : S -> A -> M S) (s : S) (w : World) :
  foldM (l1 ++ l2) f s w =
    match foldM l1 f s w with
    | Ok s' w' => foldM l2 f s' w'
    | Panic msg w' => Panic msg w'
    end.
Proof.
  revert s w. induction l1 as [|x l1 IH]; intros s w; simpl.
  - reflexivity.
  - unfold bind. destruct (f s x w) as [s' w'|msg w']; [apply IH|reflexivity].
Qed.

(** With an empty worker list the first round of the loop divides by zero. *)
Lemma randomAssign_no_workers
    (isReady : ptr -> worker -> unfinishedUploadSegment -> bool)
    (randInt : nat -> Z) (uc : ptr) (u : unfinishedUploadSegment) (w : World) :
  segs w !! uc = Some u -> sectorSlotsStatus u <> [] ->
  randomAssignSectorTaskToWorker isReady randInt [] uc w
  = Panic "integer divide by zero" (set_randCount (S (randCount w)) w).
Proof.
  intros Hu Hs. unfold randomAssignSectorTaskToWorker, bind, getSeg.
  rewrite Hu. destruct (sectorSlotsStatus u) as [|s r]; [congruence|].
  reflexivity.
Qed.

(** The trimming pass panics at the first free slot it has to release when
    the physical data has no entry for it. *)
Lemma release_without_physical (SectorSize : Z) (uc : ptr)
    (u : unfinishedUploadSegment) (w : World) (pre r : list bool) :
  segs w !! uc = Some u ->
  sectorSlotsStatus u = pre ++ false :: r ->
  Forall (fun s => s = true) pre ->
  workersRemain u <= 0 ->
  (List.length (physicalSegmentData u) <= List.length pre)%nat ->
  releaseUnneededSectors SectorSize uc w = Panic "index out of range" w.
Proof.
  intros Hu Hs Hpre Hrem Hphys.
  unfold releaseUnneededSectors, bind, getSeg. rewrite Hu, Hs.
  rewrite length_app. simpl List.length. rewrite seq_app, foldM_app.
  rewrite (trim_all_claimed SectorSize uc u w).
  2: exact Hu.
  2: { apply Forall_forall. intros i Hi. apply list_elem_of_In, in_seq in Hi.
       rewrite Hs, lookup_app_l by lia.
       destruct (pre !! i) as [s|] eqn:Es.
       - rewrite Forall_forall in Hpre. rewrite (Hpre s); [reflexivity|].
         apply list_elem_of_lookup. eauto.
       - apply lookup_ge_None in Es. lia. }
  simpl seq. rewrite foldM_cons. unfold bind at 1. unfold trimSector.
  unfold bind at 1. unfold getSeg at 1. rewrite Hu.
  unfold bind at 1.
  rewrite (sliceGet_nat _ _ false)
    by (rewrite Hs; apply list_lookup_middle; reflexivity).
  replace (0 >=? workersRemain u) with true
    by (symmetry; apply Z.geb_le; lia).
  unfold bind at 1. unfold setPhysical, bind, getSeg. rewrite Hu.
  rewrite sliceSet_out_of_range by lia. reflexivity.
Qed.

(** A retrieval failure on a segment that has a free slot and no physical data
    for it ends in a panic of the deferred cleanup. *)
Lemma retrieval_failure_panics (SectorSize : Z) (thr : float)
    (isReady : ptr -> worker -> unfinishedUploadSegment -> bool)
    (randInt : nat -> Z) (Encode : list byte -> list (list byte) * bool)
    (Encrypt : list byte -> option (list byte)) (cs : clientStatus)
    (segment : ptr) (u : unfinishedUploadSegment) (w : World)
    (pre r : list bool) :
  segs w !! segment = Some u ->
  sectorSlotsStatus u = pre ++ false :: r ->
  Forall (fun s => s = true) pre ->
  (List.length (physicalSegmentData u) <= List.length pre)%nat ->
  exists w',
    retrieveDataAndDispatchSegment SectorSize thr isReady randInt Encode Encrypt
      cs false None segment w = Panic "index out of range" w'.
Proof.
  intros Hu Hs Hpre Hphys.
  unfold retrieveDataAndDispatchSegment, defer.
  unfold bind at 1. unfold getSeg at 1. rewrite Hu.
  unfold retrieveAndDispatchBody, addMemoryReleased.
  unfold bind, modSeg, emit. rewrite Hu. simpl segs.
  rewrite !lookup_insert_eq. simpl segs. rewrite !lookup_insert_eq.
  unfold cleanupUploadSegment. unfold bind.
  erewrite (release_without_physical SectorSize segment _ _ pre r).
  - eexists. reflexivity.
  - simpl. apply lookup_insert_eq.
  - exact Hs.
  - exact Hpre.
  - simpl. lia.
  - exact Hphys.
Qed.

(** C9: the code can end the process.  With an empty worker list and at least
    one slot, randomAssignSectorTaskToWorker divides by zero; the trimming pass
    of cleanupUploadSegment indexes physicalSegmentData out of range at the
    first free slot it releases when that slice is too short; so a retrieval
    failure on a fresh segment with one free slot panics in the deferred
    cleanup, and cleanup of a segment with a kept free slot and no backup
    workers panics in notifyBackupWorkers. *)
Theorem pipeline_can_panic :
  (forall isReady randInt uc (u : unfinishedUploadSegment) w,
     segs w !! uc = Some u -> sectorSlotsStatus u <> [] ->
     randomAssignSectorTaskToWorker isReady randInt [] uc w
     = Panic "integer divide by zero" (set_randCount (S (randCount w)) w))
  /\ (forall SectorSize uc (u : unfinishedUploadSegment) w pre r,
        segs w !! uc = Some u ->
        sectorSlotsStatus u = pre ++ false :: r ->
        Forall (fun s => s = true) pre ->
        workersRemain u <= 0 ->
        (List.length (physicalSegmentData u) <= List.length pre)%nat ->
        releaseUnneededSectors SectorSize uc w = Panic "index out of range" w)
  /\ (forall SectorSize thr isReady randInt Encode Encrypt cs segment
             (u : unfinishedUploadSegment) w pre r,
        segs w !! segment = Some u ->
        sectorSlotsStatus u = pre ++ false :: r ->
        Forall (fun s => s = true) pre ->
        (List.length (physicalSegmentData u) <= List.length pre)%nat ->
        exists w',
          retrieveDataAndDispatchSegment SectorSize thr isReady randInt Encode
            Encrypt cs false None segment w = Panic "index out of range" w')
  /\ (exists w',
        retrieveDataAndDispatchSegment 4194304 threshold_0_1 exampleReady
          exampleRand failingEncode plainEncrypt clientOnline false None
          1%positive
          (exampleWorld (exampleSegment 8388608 1 0 0 0 [false] []) [idleWorker])
        = Panic "index out of range" w')
  /\ (exists w',
        cleanupUploadSegment 4194304 threshold_0_1 exampleReady exampleRand
          clientOnline 1%positive
          (exampleWorld (exampleSegment 8388608 1 0 0 1 [false] [[x01]])
             [idleWorker])
        = Panic "integer divide by zero" w').
Proof.
  split; [|split; [|split; [|split]]].
  - intros. eapply randomAssign_no_workers; eassumption.
  - intros. eapply release_without_physical; eassumption.
  - intros. eapply retrieval_failure_panics; eassumption.
  - eexists. vm_compute. reflexivity.
  - eexists. vm_compute. reflexivity.
Qed.

(** ** The bytes handed to the erasure coder *)

Lemma fold_left_app_concat {A} (l : list (list A)) (acc : list A) :
  fold_left (fun a b => a ++ b) l acc = acc ++ concat l.
Proof.
  revert acc. induction l as [|b l IH]; intros acc; simpl.
  - rewrite app_nil_r. reflexivity.
  - rewrite IH, app_assoc. reflexivity.
Qed.

(** C8: the bytes handed to Encode are the concatenation of the logical
    buffers preceded by len(logical) * SectorSize zero bytes, because the
    slice is made with that length, not that capacity; for one buffer holding
    one byte the argument of Encode is not that byte alone. *)
Theorem segmentBytes_zero_prefix :
  (forall SectorSize logical,
     segmentBytes SectorSize logical =
       repeat x00 (Z.to_nat (wrapU64 (wrapU64 (Z.of_nat (List.length logical))
                                      * SectorSize)))
       ++ concat logical)
  /\ segmentBytes 4194304 [[x01]] <> concat [[x01]]
  /\ Z.of_nat (List.length (segmentBytes 4194304 [[x01]])) = 4194304 + 1.
Proof.
  assert (H : forall SectorSize logical,
     segmentBytes SectorSize logical =
       repeat x00 (Z.to_nat (wrapU64 (wrapU64 (Z.of_nat (List.length logical))
                                      * SectorSize)))
       ++ concat logical).
  { intros. unfold segmentBytes. apply fold_left_app_concat. }
  assert (Hlen : Z.of_nat (List.length (segmentBytes 4194304 [[x01]]))
                 = 4194304 + 1).
  { rewrite H, length_app, repeat_length.
    change (wrapU64 (wrapU64 (Z.of_nat (List.length [[x01]])) * 4194304))
      with 4194304.
    rewrite Nat2Z.inj_add, Z2Nat.id by lia. reflexivity. }
  split; [exact H|]. split; [|exact Hlen].
  intros Heq. rewrite Heq in Hlen. simpl in Hlen. lia.
Qed.

(** ** Memory returned on the failure paths *)

Lemma set_physical_same (u : unfinishedUploadSegment) :
  set_physicalSegmentData (physicalSegmentData u) u = u.
Proof. destruct u. reflexivity. Qed.

(** The loop that clears the physical data after an encoding failure. *)
Lemma clear_loop (segment : ptr) (l : list nat) :
  forall (w : World) (u : unfinishedUploadSegment),
  segs w !! segment = Some u ->
  Forall (fun i => (i < List.length (physicalSegmentData u))%nat) l ->
  exists P,
    List.length P = List.length (physicalSegmentData u)
    /\ forM l (fun i => setPhysical segment (Z.of_nat i) []) w
       = Ok tt (set_segs (<[segment := set_physicalSegmentData P u]> (segs w)) w).
Proof.
  induction l as [|i l IH]; intros w u Hu Hl.
  - exists (physicalSegmentData u). split; [reflexivity|]. simpl.
    rewrite set_physical_same, (insert_id _ _ _ Hu), set_segs_same. reflexivity.
  - inversion Hl as [|? ? Hi Hl']; subst.
    set (u1 := set_physicalSegmentData (<[i := []]> (physicalSegmentData u)) u).
    destruct (IH (set_segs (<[segment := u1]> (segs w)) w) u1) as (P & HP & Hrun).
    + simpl. apply lookup_insert_eq.
    + simpl. rewrite length_insert. exact Hl'.
    + exists P. split; [rewrite HP; simpl; apply length_insert|].
      rewrite forM_cons. unfold bind at 1. unfold setPhysical at 1.
      unfold bind at 1. unfold getSeg at 1. rewrite Hu.
      rewrite sliceSet_in_range by exact Hi.
      unfold modSeg at 1. rewrite Hu. fold u1. rewrite Hrun.
      simpl. rewrite insert_insert_eq. reflexivity.
Qed.

Section FailurePaths.
Variable SectorSize : Z.
Variable isReady : ptr -> worker -> unfinishedUploadSegment -> bool.
Variable randInt : nat -> Z.
Variable Encode : list byte -> list (list byte) * bool.
Variable Encrypt : list byte -> option (list byte).

#[local] Abbreviation body :=
  (retrieveAndDispatchBody SectorSize isReady randInt Encode Encrypt).

(** On a retrieval failure the body returns the erasure-coding memory and the
    memory of the completed sectors. *)
Lemma body_retrieval_failure (e c : Z) (segment : ptr)
    (u : unfinishedUploadSegment) (w : World) :
  segs w !! segment = Some u ->
  exists w1 u1,
    body e c None segment w = Ok tt w1
    /\ segs w1 !! segment = Some u1
    /\ workersRemain u1 = 0
    /\ memoryReleased u1 = wrapU64 (memoryReleased u + wrapU64 (e + c))
    /\ trace w1 = EvMemoryReturn (wrapU64 (e + c)) :: trace w.
Proof.
  intros Hu. unfold retrieveAndDispatchBody, addMemoryReleased.
  unfold bind, modSeg, emit. rewrite Hu. simpl segs.
  rewrite !lookup_insert_eq. simpl segs. rewrite !lookup_insert_eq.
  eexists. eexists. split; [reflexivity|]. simpl.
  rewrite lookup_insert_eq. repeat split; reflexivity.
Qed.

(** On an encoding failure the body returns the memory of the completed
    sectors only. *)
Lemma body_encode_failure (e c : Z) (segment : ptr)
    (u : unfinishedUploadSegment) (w : World) data physical :
  segs w !! segment = Some u ->
  Encode (segmentBytes SectorSize data) = (physical, true) ->
  exists w2 u2,
    body e c (Some data) segment w = Ok tt w2
    /\ segs w2 !! segment = Some u2
    /\ workersRemain u2 = 0
    /\ memoryReleased u2 = wrapU64 (memoryReleased u + c)
    /\ trace w2 = EvMemoryReturn c :: trace w.
Proof.
  intros Hu Henc. unfold retrieveAndDispatchBody, addMemoryReleased.
  unfold bind at 1. unfold modSeg at 1. rewrite Hu.
  unfold bind at 1. unfold getSeg at 1. simpl segs. rewrite lookup_insert_eq.
  cbn [logicalSegmentData set_logicalSegmentData]. rewrite Henc.
  unfold bind at 1. unfold modSeg at 1. simpl segs. rewrite lookup_insert_eq.
  unfold bind at 1. unfold modSeg at 1. simpl segs. rewrite lookup_insert_eq.
  unfold bind at 1. unfold emit at 1.
  unfold bind at 1. unfold modSeg at 1. simpl segs. rewrite lookup_insert_eq.
  match goal with
  | |- context [forM ?l ?f ?w0] =>
      match w0 with
      | set_segs (<[_ := ?u0]> _) _ =>
          destruct (clear_loop segment l w0 u0) as (P & HP & Hrun)
      end
  end.
  - simpl. apply lookup_insert_eq.
  - simpl. apply Forall_forall. intros i Hi.
    apply list_elem_of_In, in_seq in Hi. lia.
  - rewrite Hrun. eexists. eexists. split; [reflexivity|]. simpl.
    rewrite lookup_insert_eq. repeat split; reflexivity.
Qed.

End FailurePaths.

(** C4: an encoding failure does not abort like a retrieval failure.  Both
    set workersRemain to 0, but the retrieval failure returns the
    erasure-coding memory plus the memory of the completed sectors, while the
    encoding failure returns the memory of the completed sectors only.  For a
    segment with one claimed slot and one minimum sector of 4 MiB, the whole
    call returns 8 MiB after a retrieval failure and 4 MiB after an encoding
    failure. *)
Theorem encode_failure_returns_less :
  (forall SectorSize isReady randInt Encode Encrypt (e c : Z) (segment : ptr)
          (u : unfinishedUploadSegment) (w : World) data physical,
     segs w !! segment = Some u ->
     Encode (segmentBytes SectorSize data) = (physical, true) ->
     exists w1 u1 w2 u2,
       retrieveAndDispatchBody SectorSize isReady randInt Encode Encrypt
         e c None segment w = Ok tt w1
       /\ retrieveAndDispatchBody SectorSize isReady randInt Encode Encrypt
            e c (Some data) segment w = Ok tt w2
       /\ segs w1 !! segment = Some u1 /\ segs w2 !! segment = Some u2
       /\ workersRemain u1 = 0 /\ workersRemain u2 = 0
       /\ memoryReleased u1 = wrapU64 (memoryReleased u + wrapU64 (e + c))
       /\ memoryReleased u2 = wrapU64 (memoryReleased u + c)
       /\ trace w1 = EvMemoryReturn (wrapU64 (e + c)) :: trace w
       /\ trace w2 = EvMemoryReturn c :: trace w)
  /\ (let w := exampleWorld (exampleSegment 8388608 1 0 0 0 [true] [])
                 [idleWorker] in
      memoryReturned (trace (worldOf
        (retrieveDataAndDispatchSegment 4194304 threshold_0_1 exampleReady
           exampleRand failingEncode plainEncrypt clientOnline false None
           1%positive w))) = 8388608
      /\ memoryReturned (trace (worldOf
           (retrieveDataAndDispatchSegment 4194304 threshold_0_1 exampleReady
              exampleRand failingEncode plainEncrypt clientOnline false
              (Some []) 1%positive w))) = 4194304).
Proof.
  split.
  - intros SectorSize isReady randInt Encode Encrypt e c segment u w data
           physical Hu Henc.
    destruct (body_retrieval_failure SectorSize isReady randInt Encode Encrypt
                e c segment u w Hu) as (w1 & u1 & H1 & Hu1 & Hr1 & Hm1 & Ht1).
    destruct (body_encode_failure SectorSize isReady randInt Encode Encrypt
                e c segment u w data physical Hu Henc)
      as (w2 & u2 & H2 & Hu2 & Hr2 & Hm2 & Ht2).
    exists w1, u1, w2, u2. repeat split; assumption.
  - split; vm_compute; reflexivity.
Qed.

(** C1: memory is not conserved on the encoding-failure path.  For a segment
    with two slots (one claimed), one minimum sector and 12 MiB requested, an
    attempt whose encoding fails ends with the segment complete and released
    and only 8 MiB returned: the erasure-coding memory (4 MiB) is never given
    back, and the sanity check of cleanup logs it.  For a segment with one
    claimed slot and 8 MiB requested, the attempt ends complete with 8 MiB
    returned after a retrieval failure and with 4 MiB returned after an
    encoding failure. *)
Theorem encode_failure_leaks_memory :
  (let u := exampleSegment 12582912 2 1 0 0 [true; false] [] in
   exists w' u',
     retrieveDataAndDispatchSegment 4194304 threshold_0_1 exampleReady
       exampleRand failingEncodeWithShards plainEncrypt clientOnline false
       (Some []) 1%positive (exampleWorld u [idleWorker]) = Ok tt w'
     /\ segs w' !! 1%positive = Some u'
     /\ IsSegmentUploadComplete u' = true
     /\ released u' = true
     /\ memoryNeeded u' = 12582912
     /\ memoryReleased u' = 8388608
     /\ memoryReturned (trace w') = 8388608
     /\ memoryNeeded u' - memoryReleased u' = erasureCodingMemoryOf u
     /\ EvMemorySanityLog 1%positive ∈ trace w')
  /\ (let u := exampleSegment 8388608 1 1 0 0 [true] [] in
      exists w1 u1 w2 u2,
        retrieveDataAndDispatchSegment 4194304 threshold_0_1 exampleReady
          exampleRand failingEncode plainEncrypt clientOnline false
          None 1%positive (exampleWorld u [idleWorker]) = Ok tt w1
        /\ retrieveDataAndDispatchSegment 4194304 threshold_0_1 exampleReady
             exampleRand failingEncode plainEncrypt clientOnline false
             (Some []) 1%positive (exampleWorld u [idleWorker]) = Ok tt w2
        /\ segs w1 !! 1%positive = Some u1 /\ segs w2 !! 1%positive = Some u2
        /\ IsSegmentUploadComplete u1 = true
        /\ IsSegmentUploadComplete u2 = true
        /\ memoryReleased u1 = memoryNeeded u1
        /\ memoryNeeded u2 = 8388608
        /\ memoryReleased u2 = 4194304).
Proof.
  split.
  - eexists. eexists. split; [vm_compute; reflexivity|].
    split; [reflexivity|].
    repeat (split; [reflexivity|]).
    vm_compute. apply list_elem_of_In. simpl. auto.
  - eexists. eexists. eexists. eexists.
    split; [vm_compute; reflexivity|].
    split; [vm_compute; reflexivity|].
    split; [reflexivity|]. split; [reflexivity|].
    repeat split; reflexivity.
Qed.

(** * Further properties of the code *)

(** ** Invariants kept by whole functions *)

(** One step of a proof that a function keeps an invariant: the rules of the
    monad, and case analysis on the tests of the code. *)
Ltac keeps_step :=
  first
    [ apply keeps_ret | apply keeps_panic | apply keeps_getSeg
    | apply keeps_getWorker | apply keeps_sliceGet
    | apply keeps_when | apply keeps_defer
    | apply keeps_forM; intros ?
    | apply keeps_foldM; intros ? ?
    | apply keeps_bind; [|intros ?]
    | match goal with
      | |- keeps _ (if ?b then _ else _) => destruct b
      | |- keeps _ (match ?x with _ => _ end) => destruct x
      end
    | progress cbv zeta ].

Lemma keeps_pure {A} (I : World -> Prop) (f : World -> A) :
  keeps I (fun w => Ok (f w) w).
Proof. intros w Hw. exact Hw. Qed.

Section ClaimedKept.
Variable uc : ptr.
Variable l0 : list bool.

Lemma kept_modSeg uc' f :
  (forall u, sectorSlotsStatus (f u) = sectorSlotsStatus u) ->
  keeps (claimedKept uc l0) (modSeg uc' f).
Proof.
  intros Hf w Hw. unfold modSeg.
  destruct (segs w !! uc') as [u'|] eqn:E; [|exact Hw].
  intros u Hu. simpl in Hu.
  destruct (decide (uc' = uc)) as [->|Hne].
  - rewrite lookup_insert_eq in Hu. inversion Hu; subst. rewrite Hf.
    apply Hw. exact E.
  - rewrite lookup_insert_ne in Hu by exact Hne. apply Hw. exact Hu.
Qed.

Lemma kept_setSlot uc' i : keeps (claimedKept uc l0) (setSlot uc' i true).
Proof.
  intros w Hw. unfold setSlot, bind, getSeg.
  destruct (segs w !! uc') as [u'|] eqn:E; [|exact Hw].
  unfold sliceSet. destruct (_ && _); [|exact Hw].
  unfold modSeg. rewrite E. intros u Hu. simpl in Hu.
  destruct (decide (uc' = uc)) as [->|Hne].
  - rewrite lookup_insert_eq in Hu. inversion Hu; subst. simpl.
    destruct (Hw u' E) as [Hlen Hcl]. rewrite length_insert.
    split; [exact Hlen|]. intros j Hj.
    destruct (decide (Z.to_nat i = j)) as [<-|Hij].
    + apply list_lookup_insert_eq. apply Hcl in Hj.
      apply lookup_lt_Some in Hj. exact Hj.
    + rewrite list_lookup_insert_ne by exact Hij. apply Hcl. exact Hj.
  - rewrite lookup_insert_ne in Hu by exact Hne. apply Hw. exact Hu.
Qed.

Lemma kept_setPhysical uc' i d : keeps (claimedKept uc l0) (setPhysical uc' i d).
Proof.
  unfold setPhysical. apply keeps_bind; [apply keeps_getSeg|]. intros u.
  destruct (sliceSet _ _ _); [|apply keeps_panic].
  apply kept_modSeg. reflexivity.
Qed.

Lemma kept_state {A} (g : World -> A) (f : World -> World) :
  (forall w, segs (f w) = segs w) ->
  keeps (claimedKept uc l0) (fun w => Ok (g w) (f w)).
Proof.
  intros Hf w Hw u Hu. simpl in Hu. rewrite Hf in Hu. apply Hw. exact Hu.
Qed.

Ltac kept_base :=
  first
    [ apply kept_setSlot | apply kept_setPhysical
    | apply kept_modSeg; reflexivity
    | apply kept_state; reflexivity ].

Ltac kept_go extra := repeat first [ kept_base | extra | keeps_step ].

Section WithCode.
Variable SectorSize : Z.
Variable thr : float.
Variable isReady : ptr -> worker -> unfinishedUploadSegment -> bool.
Variable randInt : nat -> Z.
Variable Encode : list byte -> list (list byte) * bool.
Variable Encrypt : list byte -> option (list byte).

Lemma kept_randomAssign workers uc' :
  keeps (claimedKept uc l0)
    (randomAssignSectorTaskToWorker isReady randInt workers uc').
Proof.
  unfold randomAssignSectorTaskToWorker, assignSector. kept_go fail.
Qed.

Lemma kept_notifyBackupWorkers uc' :
  keeps (claimedKept uc l0) (notifyBackupWorkers isReady randInt uc').
Proof.
  unfold notifyBackupWorkers, signalAll.
  kept_go ltac:(apply kept_randomAssign).
Qed.

Lemma kept_dispatchSegment uc' :
  keeps (claimedKept uc l0) (dispatchSegment isReady randInt uc').
Proof.
  unfold dispatchSegment, signalAll.
  apply keeps_bind; [apply keeps_getSeg|]. intros u.
  apply keeps_bind.
  { intros w Hw. destruct (decide _); exact Hw. }
  intros _. apply keeps_bind.
  { intros w Hw. refine (kept_modSeg uc' _ _ w Hw). reflexivity. }
  intros _. kept_go ltac:(apply kept_randomAssign).
Qed.

Lemma kept_trimSector uc' acc i :
  keeps (claimedKept uc l0) (trimSector SectorSize uc' acc i).
Proof. unfold trimSector. destruct acc. kept_go fail. Qed.

Lemma kept_updateStuck cs uc' :
  keeps (claimedKept uc l0) (updateUploadSegmentStuckStatus thr cs uc').
Proof. unfold updateUploadSegmentStuckStatus. kept_go fail. Qed.

Lemma kept_cleanup cs uc' :
  keeps (claimedKept uc l0)
    (cleanupUploadSegment SectorSize thr isReady randInt cs uc').
Proof.
  unfold cleanupUploadSegment, releaseUnneededSectors.
  kept_go ltac:(first [ apply kept_notifyBackupWorkers | apply kept_trimSector
                      | apply kept_updateStuck ]).
Qed.

Lemma kept_retrieve cs tmAddErr retrieved uc' :
  keeps (claimedKept uc l0)
    (retrieveDataAndDispatchSegment SectorSize thr isReady randInt Encode
       Encrypt cs tmAddErr retrieved uc').
Proof.
  unfold retrieveDataAndDispatchSegment, retrieveAndDispatchBody,
    addMemoryReleased, encryptSector.
  kept_go ltac:(first [ apply kept_cleanup | apply kept_dispatchSegment ]).
Qed.

End WithCode.
End ClaimedKept.

(** X1: none of cleanupUploadSegment, dispatchSegment,
    notifyBackupWorkers and retrieveDataAndDispatchSegment frees a claimed
    slot or changes the number of slots, whether the call returns or
    panics. *)
Theorem pipeline_keeps_claimed_slots (SectorSize : Z) (thr : float)
    (isReady : ptr -> worker -> unfinishedUploadSegment -> bool)
    (randInt : nat -> Z) (Encode : list byte -> list (list byte) * bool)
    (Encrypt : list byte -> option (list byte)) (cs : clientStatus)
    (uc : ptr) (u : unfinishedUploadSegment) (w : World) :
  segs w !! uc = Some u ->
  claimedKept uc (sectorSlotsStatus u)
    (worldOf (cleanupUploadSegment SectorSize thr isReady randInt cs uc w))
  /\ claimedKept uc (sectorSlotsStatus u)
       (worldOf (dispatchSegment isReady randInt uc w))
  /\ claimedKept uc (sectorSlotsStatus u)
       (worldOf (notifyBackupWorkers isReady randInt uc w))
  /\ forall tmAddErr retrieved,
       claimedKept uc (sectorSlotsStatus u)
         (worldOf (retrieveDataAndDispatchSegment SectorSize thr isReady
                     randInt Encode Encrypt cs tmAddErr retrieved uc w)).
Proof.
  intros Hu.
  assert (Hw : claimedKept uc (sectorSlotsStatus u) w).
  { intros u' Hu'. rewrite Hu in Hu'. inversion Hu'; subst. auto. }
  split; [|split; [|split]].
  - pose proof (kept_cleanup uc _ SectorSize thr isReady randInt cs uc w Hw) as H.
    destruct (cleanupUploadSegment _ _ _ _ _ _ _); exact H.
  - pose proof (kept_dispatchSegment uc _ isReady randInt uc w Hw) as H.
    destruct (dispatchSegment _ _ _ _); exact H.
  - pose proof (kept_notifyBackupWorkers uc _ isReady randInt uc w Hw) as H.
    destruct (notifyBackupWorkers _ _ _ _); exact H.
  - intros tmAddErr retrieved.
    pose proof (kept_retrieve uc _ SectorSize thr isReady randInt Encode Encrypt
                  cs tmAddErr retrieved uc w Hw) as H.
    destruct (retrieveDataAndDispatchSegment _ _ _ _ _ _ _ _ _ _ _); exact H.
Qed.

Lemma pipeline_keeps_claimed_slots_witness :
  claimedKept 1%positive [true; false]
    (worldOf (dispatchSegment exampleReady exampleRand 1%positive
       (exampleWorld (exampleSegment 12582912 2 1 0 0 [true; false] [])
          [idleWorker]))).
Proof.
  apply (pipeline_keeps_claimed_slots 4194304 threshold_0_1 exampleReady
           exampleRand failingEncode plainEncrypt clientOnline 1%positive
           (exampleSegment 12582912 2 1 0 0 [true; false] [])
           (exampleWorld (exampleSegment 12582912 2 1 0 0 [true; false] [])
              [idleWorker])).
  reflexivity.
Defined.

(** ** Dispatch and backup notification *)

Lemma signalAll_run (workers : list ptr) (uc : ptr) (w : World) :
  signalAll workers uc w
  = Ok tt (set_trace (signalsTo workers uc ++ trace w) w).
Proof.
  unfold signalAll, signalsTo. revert w.
  induction workers as [|wp l IH]; intros w.
  - destruct w. reflexivity.
  - rewrite forM_cons. unfold bind, emit. rewrite IH. simpl.
    rewrite <- app_assoc. reflexivity.
Qed.

Section SegmentFrame.
Variable uc : ptr.
Variable u0 : unfinishedUploadSegment.
Variable X : gset uploadSegmentID.
Variable pool : list ptr.

Lemma sframe_setSlot i b : keeps (segmentFrame uc u0 X pool) (setSlot uc i b).
Proof.
  intros w Hw. unfold setSlot, bind, getSeg.
  destruct (segs w !! uc) as [u|] eqn:E; [|exact Hw].
  destruct (sliceSet _ _ _) as [l|]; [|exact Hw].
  unfold modSeg. rewrite E. destruct Hw as (HX & Hp & Hu).
  split; [exact HX|]. split; [exact Hp|]. simpl. intros u' Hu'.
  rewrite lookup_insert_eq in Hu'. inversion Hu'; subst u'.
  rewrite (Hu u E). reflexivity.
Qed.

Lemma sframe_state {A} (g : World -> A) (f : World -> World) :
  (forall w, segs (f w) = segs w /\ pendingSegments (f w) = pendingSegments w
             /\ workerPool (f w) = workerPool w) ->
  keeps (segmentFrame uc u0 X pool) (fun w => Ok (g w) (f w)).
Proof.
  intros Hf w (HX & Hp & Hu). destruct (Hf w) as (Hs & HP & Hwp).
  split; [congruence|]. split; [congruence|]. simpl. rewrite Hs. exact Hu.
Qed.

Lemma sframe_randomAssign isReady randInt workers :
  keeps (segmentFrame uc u0 X pool)
    (randomAssignSectorTaskToWorker isReady randInt workers uc).
Proof.
  unfold randomAssignSectorTaskToWorker, assignSector.
  repeat first [ apply sframe_setSlot
               | apply sframe_state; intros; repeat split; reflexivity
               | keeps_step ].
Qed.

End SegmentFrame.

(** A round of randomAssignSectorTaskToWorker over existing workers returns,
    changes nothing of the segment but its slots, and sends nothing. *)
Lemma randomAssign_run
    (isReady : ptr -> worker -> unfinishedUploadSegment -> bool)
    (randInt : nat -> Z) (workers : list ptr) (uc : ptr)
    (u : unfinishedUploadSegment) (w : World) :
  segs w !! uc = Some u ->
  workers <> [] ->
  Forall (fun wp => is_Some (wrks w !! wp)) workers ->
  drawsOk randInt (randCount w) (List.length (sectorSlotsStatus u)) ->
  exists w' slots',
    randomAssignSectorTaskToWorker isReady randInt workers uc w = Ok tt w'
    /\ segs w' !! uc = Some (set_sectorSlotsStatus slots' u)
    /\ List.length slots' = List.length (sectorSlotsStatus u)
    /\ (forall i, sectorSlotsStatus u !! i = Some true -> slots' !! i = Some true)
    /\ pendingSegments w' = pendingSegments w
    /\ workerPool w' = workerPool w
    /\ trace w' = trace w.
Proof.
  intros Hu Hne Hall Hd.
  set (n := List.length (sectorSlotsStatus u)) in *.
  assert (Hw : assignable workers uc n w).
  { split; [exists u; split; [exact Hu|reflexivity] | exact Hall]. }
  destruct (assign_loop isReady randInt workers uc n (randCount w) n 0%nat w
              Hne Hw) as (w' & Hrun & Hw' & _ & Ht' & _ & _);
    [lia|lia|exact Hd|].
  assert (Hrun' : randomAssignSectorTaskToWorker isReady randInt workers uc w
                  = Ok tt w').
  { unfold randomAssignSectorTaskToWorker, bind, getSeg. rewrite Hu. exact Hrun. }
  destruct Hw' as [(u' & Hu' & _) _].
  pose proof (kept_randomAssign uc (sectorSlotsStatus u) isReady randInt
                workers uc w) as Hk.
  rewrite Hrun' in Hk. simpl in Hk.
  destruct (Hk (fun u1 H1 => ltac:(rewrite Hu in H1; inversion H1; subst; auto))
               u' Hu') as [Hlen Hcl].
  pose proof (sframe_randomAssign uc u (pendingSegments w) (workerPool w)
                isReady randInt workers w) as Hf.
  rewrite Hrun' in Hf. simpl in Hf.
  destruct Hf as (HX & Hp & Hsame).
  { split; [reflexivity|]. split; [reflexivity|]. intros u1 H1.
    rewrite Hu in H1. inversion H1; subst. destruct u1. reflexivity. }
  exists w', (sectorSlotsStatus u'). split; [exact Hrun'|].
  split; [rewrite Hu'; f_equal; apply Hsame; exact Hu'|].
  repeat split; assumption.
Qed.

Lemma set_pending_same (w : World) :
  set_pendingSegments (pendingSegments w) w = w.
Proof. destruct w. reflexivity. Qed.

(** X2: with a non-empty pool of existing workers, and draws of rand.Int()
    to which the slot index can be added without overflow of int,
    dispatchSegment returns, registers the segment id in the pending set
    (which stays as it is when the id is already there), adds the size of the
    pool to workersRemain, frees no slot, and signals every worker of the
    pool once, in the order of the pool, whether or not the worker was given
    a sector. *)
Theorem dispatchSegment_spec
    (isReady : ptr -> worker -> unfinishedUploadSegment -> bool)
    (randInt : nat -> Z) (uc : ptr) (u : unfinishedUploadSegment) (w : World) :
  segs w !! uc = Some u ->
  workerPool w <> [] ->
  Forall (fun wp => is_Some (wrks w !! wp)) (workerPool w) ->
  drawsOk randInt (randCount w) (List.length (sectorSlotsStatus u)) ->
  exists w' slots',
    dispatchSegment isReady randInt uc w = Ok tt w'
    /\ segs w' !! uc =
         Some (set_sectorSlotsStatus slots'
                 (set_workersRemain
                    (wrapInt (workersRemain u
                              + Z.of_nat (List.length (workerPool w)))) u))
    /\ List.length slots' = List.length (sectorSlotsStatus u)
    /\ (forall i, sectorSlotsStatus u !! i = Some true -> slots' !! i = Some true)
    /\ pendingSegments w' = {[ id u ]} ∪ pendingSegments w
    /\ trace w' = signalsTo (workerPool w) uc ++ trace w.
Proof.
  intros Hu Hne Hall Hd.
  set (X := {[ id u ]} ∪ pendingSegments w).
  set (v := wrapInt (workersRemain u + Z.of_nat (List.length (workerPool w)))).
  set (w1 := set_segs (<[uc := set_workersRemain v u]> (segs w))
               (set_pendingSegments X w)).
  destruct (randomAssign_run isReady randInt (workerPool w) uc
              (set_workersRemain v u) w1) as
    (w2 & slots' & Hrun & Hu2 & Hlen & Hcl & HX & Hp & Ht).
  { simpl. apply lookup_insert_eq. }
  { exact Hne. }
  { exact Hall. }
  { exact Hd. }
  exists (set_trace (signalsTo (workerPool w) uc ++ trace w2) w2), slots'.
  split.
  - unfold dispatchSegment. unfold bind at 1. unfold getSeg at 1. rewrite Hu.
    unfold bind at 1.
    assert (Hreg :
      (if decide (id u ∈ pendingSegments w) then Ok tt w
       else Ok tt (set_pendingSegments ({[ id u ]} ∪ pendingSegments w) w))
      = Ok tt (set_pendingSegments X w)).
    { destruct (decide (id u ∈ pendingSegments w)) as [Hin|Hin]; [|reflexivity].
      replace X with (pendingSegments w)
        by (unfold X; symmetry; apply subseteq_union_1_L;
            apply singleton_subseteq_l; exact Hin).
      rewrite set_pending_same. reflexivity. }
    rewrite Hreg. unfold bind at 1. unfold modSeg at 1. simpl segs.
    rewrite Hu. simpl workerPool. fold v. fold w1.
    unfold bind at 1. unfold bind at 1.
    change (workerPool w1) with (workerPool w). rewrite Hrun.
    apply signalAll_run.
  - split; [exact Hu2|]. split; [exact Hlen|]. split; [exact Hcl|].
    split; [exact HX|]. simpl. rewrite Ht. reflexivity.
Qed.

Lemma dispatchSegment_spec_witness :
  exists (w' : World) (slots' : list bool),
    dispatchSegment exampleReady exampleRand 1%positive
      (exampleWorld (exampleSegment 8388608 2 0 0 0 [false; true] [[x01]; []])
         [idleWorker; idleWorker]) = Ok tt w'
    /\ List.length slots' = 2%nat
    /\ trace w' = [EvSignalUpload 2%positive 1%positive;
                   EvSignalUpload 1%positive 1%positive].
Proof.
  destruct (dispatchSegment_spec exampleReady exampleRand 1%positive
              (exampleSegment 8388608 2 0 0 0 [false; true] [[x01]; []])
              (exampleWorld
                 (exampleSegment 8388608 2 0 0 0 [false; true] [[x01]; []])
                 [idleWorker; idleWorker]))
    as (w' & slots' & Hrun & Hu & Hlen & _ & _ & Ht).
  - reflexivity.
  - discriminate.
  - repeat constructor; eexists; reflexivity.
  - intros k Hk. unfold exampleRand. simpl in Hk. lia.
  - exists w', slots'. split; [exact Hrun|]. split; [exact Hlen | exact Ht].
Defined.

(** X3: with a non-empty list of existing backup workers, and draws of
    rand.Int() to which the slot index can be added without overflow of int,
    notifyBackupWorkers returns, empties the backup list of the segment, frees
    no slot, leaves the pending set alone and signals every former backup
    worker once, in order. *)
Theorem notifyBackupWorkers_spec
    (isReady : ptr -> worker -> unfinishedUploadSegment -> bool)
    (randInt : nat -> Z) (uc : ptr) (u : unfinishedUploadSegment) (w : World) :
  segs w !! uc = Some u ->
  workerBackups u <> [] ->
  Forall (fun wp => is_Some (wrks w !! wp)) (workerBackups u) ->
  drawsOk randInt (randCount w) (List.length (sectorSlotsStatus u)) ->
  exists w' slots',
    notifyBackupWorkers isReady randInt uc w = Ok tt w'
    /\ segs w' !! uc
       = Some (set_sectorSlotsStatus slots' (set_workerBackups [] u))
    /\ List.length slots' = List.length (sectorSlotsStatus u)
    /\ (forall i, sectorSlotsStatus u !! i = Some true -> slots' !! i = Some true)
    /\ pendingSegments w' = pendingSegments w
    /\ trace w' = signalsTo (workerBackups u) uc ++ trace w.
Proof.
  intros Hu Hne Hall Hd.
  set (w1 := set_segs (<[uc := set_workerBackups [] u]> (segs w)) w).
  destruct (randomAssign_run isReady randInt (workerBackups u) uc
              (set_workerBackups [] u) w1) as
    (w2 & slots' & Hrun & Hu2 & Hlen & Hcl & HX & Hp & Ht).
  { simpl. apply lookup_insert_eq. }
  { exact Hne. }
  { exact Hall. }
  { exact Hd. }
  exists (set_trace (signalsTo (workerBackups u) uc ++ trace w2) w2), slots'.
  split.
  - unfold notifyBackupWorkers. unfold bind at 1. unfold getSeg at 1.
    rewrite Hu. unfold bind at 1. unfold modSeg at 1. rewrite Hu. fold w1.
    unfold bind at 1. rewrite Hrun. apply signalAll_run.
  - split; [exact Hu2|]. split; [exact Hlen|]. split; [exact Hcl|].
    split; [exact HX|]. simpl. rewrite Ht. reflexivity.
Qed.

Lemma notifyBackupWorkers_spec_witness :
  exists (w' : World) (slots' : list bool),
    notifyBackupWorkers exampleReady exampleRand 1%positive
      (exampleWorld
         (set_workerBackups [1%positive]
            (exampleSegment 4194304 1 0 0 1 [false] [[x01]]))
         [idleWorker]) = Ok tt w'
    /\ List.length slots' = 1%nat
    /\ trace w' = [EvSignalUpload 1%positive 1%positive].
Proof.
  destruct (notifyBackupWorkers_spec exampleReady exampleRand 1%positive
              (set_workerBackups [1%positive]
                 (exampleSegment 4194304 1 0 0 1 [false] [[x01]]))
              (exampleWorld
                 (set_workerBackups [1%positive]
                    (exampleSegment 4194304 1 0 0 1 [false] [[x01]]))
                 [idleWorker]))
    as (w' & slots' & Hrun & _ & Hlen & _ & _ & Ht).
  - reflexivity.
  - discriminate.
  - repeat constructor; eexists; reflexivity.
  - intros k Hk. unfold exampleRand. simpl in Hk. lia.
  - exists w', slots'. split; [exact Hrun|]. split; [exact Hlen | exact Ht].
Defined.

(** ** Cleanup *)

(** The trimming pass, when the physical data has an entry for every slot. *)
Lemma release_run (SectorSize : Z) (uc : ptr) (u : unfinishedUploadSegment)
    (w : World) :
  segs w !! uc = Some u ->
  (List.length (sectorSlotsStatus u) <= List.length (physicalSegmentData u))%nat ->
  Z.of_nat (List.length (sectorSlotsStatus u)) < 2 ^ 63 ->
  releaseUnneededSectors SectorSize uc w =
    Ok (Z.min (freeSlots (sectorSlotsStatus u)) (Z.max 0 (workersRemain u)),
        wrapU64 (SectorSize
                 * (freeSlots (sectorSlotsStatus u)
                    - Z.min (freeSlots (sectorSlotsStatus u))
                            (Z.max 0 (workersRemain u)))))
       (set_segs (<[uc := trimmedSegment 0 [] (sectorSlotsStatus u) u]> (segs w)) w).
Proof.
  intros Hu Hp Hlen.
  unfold releaseUnneededSectors, bind, getSeg. rewrite Hu.
  pose proof (trim_loop SectorSize uc (sectorSlotsStatus u) [] u w 0 0 Hu) as H.
  simpl in H. rewrite H; try lia; [|reflexivity].
  rewrite trimSlots_free, Z.sub_0_r. reflexivity.
Qed.

Lemma notify_without_backup
    (isReady : ptr -> worker -> unfinishedUploadSegment -> bool)
    (randInt : nat -> Z) (uc : ptr) (u : unfinishedUploadSegment) (w : World) :
  segs w !! uc = Some u -> workerBackups u = [] -> sectorSlotsStatus u <> [] ->
  exists w', notifyBackupWorkers isReady randInt uc w
             = Panic "integer divide by zero" w'.
Proof.
  intros Hu Hb Hs. unfold notifyBackupWorkers. unfold bind at 1.
  unfold getSeg at 1. rewrite Hu. unfold bind at 1. unfold modSeg at 1.
  rewrite Hu, Hb. unfold bind at 1.
  erewrite randomAssign_no_workers.
  - eexists. reflexivity.
  - simpl. apply lookup_insert_eq.
  - exact Hs.
Qed.

(** X4: on a segment that has physical data for every one of its fewer than
    2^63 slots, when cleanupUploadSegment keeps a free slot (some worker
    remains and a slot is free) and the segment has no backup worker, the call
    panics with a division by zero in notifyBackupWorkers. *)
Theorem cleanup_without_backup_panics (SectorSize : Z) (thr : float)
    (isReady : ptr -> worker -> unfinishedUploadSegment -> bool)
    (randInt : nat -> Z) (cs : clientStatus) (uc : ptr)
    (u : unfinishedUploadSegment) (w : World) :
  segs w !! uc = Some u ->
  (List.length (sectorSlotsStatus u) <= List.length (physicalSegmentData u))%nat ->
  Z.of_nat (List.length (sectorSlotsStatus u)) < 2 ^ 63 ->
  0 < workersRemain u ->
  0 < freeSlots (sectorSlotsStatus u) ->
  workerBackups u = [] ->
  exists w',
    cleanupUploadSegment SectorSize thr isReady randInt cs uc w
    = Panic "integer divide by zero" w'.
Proof.
  intros Hu Hp Hlen Hrem Hfree Hb.
  unfold cleanupUploadSegment. unfold bind at 1.
  rewrite (release_run SectorSize uc u w Hu Hp Hlen).
  set (u1 := trimmedSegment 0 [] (sectorSlotsStatus u) u).
  unfold bind at 1. unfold getSeg at 1. simpl segs. rewrite lookup_insert_eq.
  assert (Hne : forall l : list bool,
            List.length l = List.length (sectorSlotsStatus u) -> l <> []).
  { intros l Hl ->. simpl in Hl.
    destruct (sectorSlotsStatus u); [|discriminate].
    change (freeSlots []) with 0 in Hfree. lia. }
  replace (Z.min (freeSlots (sectorSlotsStatus u)) (Z.max 0 (workersRemain u)) >? 0)
    with true by (symmetry; apply Z.gtb_lt; lia).
  destruct (IsSegmentUploadComplete u1 && negb (released u1)).
  - unfold when at 1. unfold bind at 1. unfold modSeg at 1. simpl segs.
    rewrite lookup_insert_eq.
    unfold bind at 1. unfold modSeg at 1. simpl segs. rewrite lookup_insert_eq.
    unfold bind at 1. unfold getSeg at 1. simpl segs. rewrite lookup_insert_eq.
    unfold bind at 1. unfold when at 1.
    match goal with
    | |- context [notifyBackupWorkers isReady randInt uc ?w0] =>
        assert (Hn : exists w', notifyBackupWorkers isReady randInt uc w0
                                = Panic "integer divide by zero" w')
          by (eapply notify_without_backup;
              [simpl; apply lookup_insert_eq | exact Hb
              | apply Hne; simpl; apply trimSlots_length])
    end.
    destruct Hn as [w' Hn]. rewrite Hn. eexists. reflexivity.
  - unfold when at 1. unfold bind at 1. unfold ret at 1.
    unfold bind at 1. unfold modSeg at 1. simpl segs. rewrite lookup_insert_eq.
    unfold bind at 1. unfold getSeg at 1. simpl segs. rewrite lookup_insert_eq.
    unfold bind at 1. unfold when at 1.
    match goal with
    | |- context [notifyBackupWorkers isReady randInt uc ?w0] =>
        assert (Hn : exists w', notifyBackupWorkers isReady randInt uc w0
                                = Panic "integer divide by zero" w')
          by (eapply notify_without_backup;
              [simpl; apply lookup_insert_eq | exact Hb
              | apply Hne; simpl; apply trimSlots_length])
    end.
    destruct Hn as [w' Hn]. rewrite Hn. eexists. reflexivity.
Qed.

Lemma cleanup_without_backup_panics_witness :
  exists w',
    cleanupUploadSegment 4194304 threshold_0_1 exampleReady exampleRand
      clientOnline 1%positive
      (exampleWorld (exampleSegment 8388608 2 0 1 1 [false; true] [[x01]; []])
         [idleWorker])
    = Panic "integer divide by zero" w'.
Proof.
  apply cleanup_without_backup_panics
    with (u := exampleSegment 8388608 2 0 1 1 [false; true] [[x01]; []]).
  - reflexivity.
  - simpl. lia.
  - simpl. lia.
  - simpl. lia.
  - vm_compute. reflexivity.
  - reflexivity.
Defined.

(** *** Cleanup of an aborted attempt *)

Lemma returns_elim {A} (P : World -> Prop) (m : M A) Q w :
  triple P m Q (fun _ => False) -> P w ->
  exists a w', m w = Ok a w' /\ Q a w'.
Proof.
  intros H Hw. specialize (H w Hw). destruct (m w) as [a w'|msg w'];
    [eauto | contradiction].
Qed.

Lemma triple_pure_pre {A} (P0 : Prop) (P : World -> Prop) (m : M A) Q E :
  (P0 -> triple P m Q E) -> triple (fun w => P0 /\ P w) m Q E.
Proof. intros H w [H0 Hw]. apply H; assumption. Qed.

Lemma triple_bind_ret {A B} (P : World -> Prop) (a : A) (k : A -> M B) R E :
  triple P (k a) R E -> triple P (bind (ret a) k) R E.
Proof. intros H w Hw. exact (H w Hw). Qed.

Lemma memoryReturned_cons e t :
  memoryReturned (e :: t) = returnedBy e + memoryReturned t.
Proof. destruct e; simpl; lia. Qed.

Section Snap.
Variable S : gmap ptr unfinishedUploadSegment.
Variable X : gset uploadSegmentID.
Variable d : nat.
Variable r : Z.
Variable E : World -> Prop.

Lemma snap_getSeg uc u :
  S !! uc = Some u ->
  triple (snap S X d r) (getSeg uc) (fun a w => a = u /\ snap S X d r w) E.
Proof.
  intros Hu w Hw. unfold getSeg. destruct Hw as (HS & Hrest).
  rewrite HS, Hu. split; [reflexivity|]. split; assumption.
Qed.

Lemma snap_modSeg uc u f :
  S !! uc = Some u ->
  triple (snap S X d r) (modSeg uc f) (fun _ => snap (<[uc := f u]> S) X d r) E.
Proof.
  intros Hu w (HS & HX & Hd & Hr). unfold modSeg. rewrite HS, Hu.
  split; [reflexivity|]. split; [exact HX|]. split; assumption.
Qed.

Lemma snap_emit e :
  isDelete e = false ->
  triple (snap S X d r) (emit e)
    (fun _ => snap S X d (returnedBy e + r)) E.
Proof.
  intros He w (HS & HX & Hd & Hr). unfold emit.
  split; [exact HS|]. split; [exact HX|].
  change (trace (set_trace (e :: trace w) w)) with (e :: trace w). split.
  - unfold nDeletes in *. simpl. rewrite He. exact Hd.
  - rewrite memoryReturned_cons, Hr. reflexivity.
Qed.

Lemma snap_emit_quiet e :
  isDelete e = false -> returnedBy e = 0 ->
  triple (snap S X d r) (emit e) (fun _ => snap S X d r) E.
Proof.
  intros He Hr. eapply triple_conseq; [apply (snap_emit e He)| | |]; auto.
  intros a w Hw. simpl in Hw. rewrite Hr in Hw. exact Hw.
Qed.

Lemma snap_updateStuck thr cs uc u :
  S !! uc = Some u ->
  triple (snap S X d r) (updateUploadSegmentStuckStatus thr cs uc)
    (fun _ => snap S X d r) E.
Proof.
  intros Hu. unfold updateUploadSegmentStuckStatus.
  eapply triple_bind; [apply (snap_getSeg uc u Hu)|]. intros a.
  apply triple_pure_pre. intros _. cbv zeta.
  destruct (_ && _); [apply triple_ret; auto|].
  eapply triple_bind; [apply snap_emit_quiet; reflexivity|].
  intros ?. eapply triple_bind; [apply snap_emit_quiet; reflexivity|].
  intros ?. destruct (_ && _); [|apply triple_ret; auto].
  destruct (stopFirst cs); [apply triple_ret; auto|].
  apply snap_emit_quiet; reflexivity.
Qed.

End Snap.

Lemma trimSlots_all_claimed remain avail slots :
  remain <= avail -> Forall (fun s => s = true) (trimSlots remain avail slots).
Proof.
  intros H. induction slots as [|s l IH]; simpl; [constructor|].
  destruct s; [constructor; auto|].
  replace (avail >=? remain) with true by (symmetry; apply Z.geb_le; lia).
  constructor; auto.
Qed.

Lemma bind_run {A B} (m : M A) (k : A -> M B) w a w1 :
  m w = Ok a w1 -> bind m k w = k a w1.
Proof. intros H. unfold bind. rewrite H. reflexivity. Qed.

Lemma snap_deletePending S X d r (E : World -> Prop) sid :
  triple (snap S X d r)
    (fun w => Ok tt (set_pendingSegments (pendingSegments w ∖ {[ sid ]}) w))
    (fun _ => snap S (X ∖ {[ sid ]}) d r) E.
Proof.
  intros w (HS & HX & Hd & Hr). simpl.
  split; [exact HS|]. split; [rewrite <- HX; reflexivity|]. split; assumption.
Qed.

Lemma snap_emit_delete S X d r (E : World -> Prop) sid :
  triple (snap S X d r) (emit (EvDeletePending sid))
    (fun _ => snap S X (Datatypes.S d) r) E.
Proof.
  intros w (HS & HX & Hd & Hr). unfold emit.
  split; [exact HS|]. split; [exact HX|].
  change (trace (set_trace (EvDeletePending sid :: trace w) w))
    with (EvDeletePending sid :: trace w). split.
  - unfold nDeletes in *. simpl. rewrite Hd. reflexivity.
  - rewrite memoryReturned_cons, Hr. reflexivity.
Qed.

Lemma cleanup_abort_run
    (SectorSize : Z) (thr : float)
    (isReady : ptr -> worker -> unfinishedUploadSegment -> bool)
    (randInt : nat -> Z) (cs : clientStatus) (uc : ptr)
    (u : unfinishedUploadSegment) (w : World) :
  segs w !! uc = Some u ->
  (List.length (sectorSlotsStatus u) <= List.length (physicalSegmentData u))%nat ->
  Z.of_nat (List.length (sectorSlotsStatus u)) < 2 ^ 63 ->
  workersRemain u = 0 -> sectorsUploadingNum u = 0 -> released u = false ->
  let mem := wrapU64 (SectorSize * freeSlots (sectorSlotsStatus u)) in
  exists w' u',
    cleanupUploadSegment SectorSize thr isReady randInt cs uc w = Ok tt w'
    /\ segs w' !! uc = Some u'
    /\ released u' = true
    /\ sectorSlotsStatus u' = repeat true (List.length (sectorSlotsStatus u))
    /\ memoryReleased u' = wrapU64 (memoryReleased u + mem)
    /\ memoryReturned (trace w') = memoryReturned (trace w) + mem
    /\ pendingSegments w' = pendingSegments w ∖ {[ id u ]}
    /\ nDeletes (trace w') = S (nDeletes (trace w)).
Proof.
  intros Hu Hp Hlen Hrem Hup Hrel mem.
  pose proof (release_run SectorSize uc u w Hu Hp Hlen) as Hrun.
  pose proof (freeSlots_nonneg (sectorSlotsStatus u)) as Hfree.
  rewrite Hrem in Hrun.
  replace (Z.min (freeSlots (sectorSlotsStatus u)) (Z.max 0 0)) with 0 in Hrun by lia.
  rewrite Z.sub_0_r in Hrun. fold mem in Hrun.
  unfold cleanupUploadSegment. rewrite (bind_run _ _ _ _ _ Hrun).
  cbv beta iota.
  set (u1 := trimmedSegment 0 [] (sectorSlotsStatus u) u) in *.
  set (u2 := set_released true u1).
  set (u3 := set_memoryReleased (wrapU64 (memoryReleased u2 + mem)) u2).
  set (S1 := <[uc := u1]> (segs w)).
  set (S3 := <[uc := u3]> (<[uc := u2]> S1)).
  assert (Hc : IsSegmentUploadComplete u1 = true).
  { unfold IsSegmentUploadComplete. cbn. rewrite Hrem, Hup.
    destruct (_ && _); reflexivity. }
  assert (Hr1 : released u1 = false) by exact Hrel.
  match goal with
  | |- exists w' u', ?m ?w1 = Ok tt w' /\ _ =>
      destruct (returns_elim
                  (snap S1 (pendingSegments w) (nDeletes (trace w))
                     (memoryReturned (trace w)))
                  m
                  (fun _ => snap S3 (pendingSegments w ∖ {[ id u ]})
                              (S (nDeletes (trace w)))
                              (mem + memoryReturned (trace w)))
                  w1)
        as ([] & w' & Hm & HS & HX & Hd & Hr)
  end.
  - eapply triple_bind; [apply (snap_getSeg _ _ _ _ _ uc u1); apply lookup_insert_eq|].
    intros ?. apply triple_pure_pre. intros ->. rewrite Hc, Hr1.
    change (true && negb false) with true. change (0 >? 0) with false.
    unfold when at 1 2 4.
    eapply triple_bind; [apply (snap_modSeg _ _ _ _ _ uc u1); apply lookup_insert_eq|].
    intros ?.
    eapply triple_bind; [apply (snap_modSeg _ _ _ _ _ uc u2); apply lookup_insert_eq|].
    intros ?. fold u2 u3 S3.
    eapply triple_bind; [apply (snap_getSeg _ _ _ _ _ uc u3); apply lookup_insert_eq|].
    intros ?. apply triple_pure_pre. intros ->.
    apply triple_bind_ret.
    eapply triple_bind with
      (Q := fun _ => snap S3 (pendingSegments w) (nDeletes (trace w))
                       (mem + memoryReturned (trace w))).
    { unfold when. destruct (mem >? 0) eqn:Hmem.
      - apply (snap_emit _ _ _ _ _ (EvMemoryReturn mem)). reflexivity.
      - apply triple_ret. intros w0 Hw0.
        assert (Hz : mem = 0)
          by (pose proof (wrapU64_range (SectorSize * freeSlots (sectorSlotsStatus u)))
                as Hrange; subst mem; lia).
        rewrite Hz. exact Hw0. }
    intros ?.
    eapply triple_bind with
      (Q := fun _ => snap S3 (pendingSegments w ∖ {[ id u ]})
                       (S (nDeletes (trace w)))
                       (mem + memoryReturned (trace w))).
    { eapply triple_bind;
        [apply (snap_updateStuck _ _ _ _ _ thr cs uc u3); apply lookup_insert_eq|].
      intros ?.
      eapply triple_bind; [apply snap_emit_quiet; reflexivity|]. intros ?.
      eapply triple_bind; [apply (snap_getSeg _ _ _ _ _ uc u3); apply lookup_insert_eq|].
      intros ?. apply triple_pure_pre. intros ->.
      eapply triple_bind; [apply snap_emit_delete|]. intros ?.
      apply (snap_deletePending _ _ _ _ _ (id u3)). }
    intros ?.
    eapply triple_bind; [apply (snap_getSeg _ _ _ _ _ uc u3); apply lookup_insert_eq|].
    intros ?. apply triple_pure_pre. intros ->.
    unfold when. destruct (_ && _); [apply snap_emit_quiet; reflexivity|].
    apply triple_ret. auto.
  - repeat split.
  - exists w', u3. split; [exact Hm|]. split; [rewrite HS; apply lookup_insert_eq|].
    split; [reflexivity|]. split.
    { cbn. rewrite Hrem.
      generalize (trimSlots_all_claimed 0 0 (sectorSlotsStatus u) (Z.le_refl 0)).
      rewrite <- (trimSlots_length 0 0 (sectorSlotsStatus u)).
      generalize (trimSlots 0 0 (sectorSlotsStatus u)). intros l Hl.
      induction Hl as [|s l Hs _ IH]; [reflexivity|]. simpl. rewrite Hs, IH at 1.
      reflexivity. }
    split; [reflexivity|]. split; [rewrite Hr; lia|]. split; assumption.
Qed.

(** X5: cleanup of a segment that no worker remains for and that no sector is
    being uploaded of: every slot is claimed, the segment is released, the
    memory of the free slots is added to its counter and returned to the
    memory manager, and its id is deleted once from the pending segments. *)
Theorem cleanup_finishes_aborted_segment
    (SectorSize : Z) (thr : float)
    (isReady : ptr -> worker -> unfinishedUploadSegment -> bool)
    (randInt : nat -> Z) (cs : clientStatus) (uc : ptr)
    (u : unfinishedUploadSegment) (w : World) :
  segs w !! uc = Some u ->
  (List.length (sectorSlotsStatus u) <= List.length (physicalSegmentData u))%nat ->
  Z.of_nat (List.length (sectorSlotsStatus u)) < 2 ^ 63 ->
  workersRemain u = 0 -> sectorsUploadingNum u = 0 -> released u = false ->
  let mem := wrapU64 (SectorSize * freeSlots (sectorSlotsStatus u)) in
  exists w' u',
    cleanupUploadSegment SectorSize thr isReady randInt cs uc w = Ok tt w'
    /\ segs w' !! uc = Some u'
    /\ released u' = true
    /\ sectorSlotsStatus u' = repeat true (List.length (sectorSlotsStatus u))
    /\ memoryReleased u' = wrapU64 (memoryReleased u + mem)
    /\ memoryReturned (trace w') = memoryReturned (trace w) + mem
    /\ pendingSegments w' = pendingSegments w ∖ {[ id u ]}
    /\ nDeletes (trace w') = S (nDeletes (trace w)).
Proof.
  intros Hu Hp Hlen Hrem Hup Hrel.
  exact (cleanup_abort_run SectorSize thr isReady randInt cs uc u w Hu Hp Hlen
           Hrem Hup Hrel).
Qed.

Lemma cleanup_finishes_aborted_segment_witness :
  exists w' u',
    cleanupUploadSegment 4194304 threshold_0_1 exampleReady exampleRand
      clientOnline 1%positive
      (exampleWorld (exampleSegment 8388608 2 0 0 0 [false; true] [[x01]; []])
         [idleWorker]) = Ok tt w'
    /\ segs w' !! 1%positive = Some u'
    /\ released u' = true
    /\ sectorSlotsStatus u' = [true; true]
    /\ memoryReleased u' = 4194304
    /\ memoryReturned (trace w') = 4194304
    /\ pendingSegments w' = ∅
    /\ nDeletes (trace w') = 1%nat.
Proof.
  destruct (cleanup_finishes_aborted_segment 4194304 threshold_0_1 exampleReady
              exampleRand clientOnline 1%positive
              (exampleSegment 8388608 2 0 0 0 [false; true] [[x01]; []])
              (exampleWorld (exampleSegment 8388608 2 0 0 0 [false; true] [[x01]; []])
                 [idleWorker]))
    as (w' & u' & Hrun & Hu & Hrel & Hs & Hm & Hr & HX & Hd).
  - reflexivity.
  - simpl. lia.
  - simpl. lia.
  - reflexivity.
  - reflexivity.
  - reflexivity.
  - exists w', u'. split; [exact Hrun|]. split; [exact Hu|].
    split; [exact Hrel|]. split; [exact Hs|]. split; [exact Hm|].
    split; [exact Hr|]. split; [|exact Hd].
    rewrite HX. apply difference_diag_L.
Defined.

(** *** The memory counter and the memory manager *)

Lemma keeps_may_panic {A} (I : World -> Prop) (m : M A) :
  keeps I m -> triple I m (fun _ => I) (fun _ => True).
Proof. intros H. eapply triple_conseq; [exact H| | |]; auto. Qed.

Lemma triple_defer_may_panic (P Q R : World -> Prop) (fin body : M unit) :
  triple P body (fun _ => Q) (fun _ => True) ->
  triple Q fin (fun _ => R) (fun _ => True) ->
  triple P (defer fin body) (fun _ => R) (fun _ => True).
Proof.
  intros Hb Hf w Hw. unfold defer. specialize (Hb w Hw).
  destruct (body w) as [a w'|msg w'].
  - apply Hf. exact Hb.
  - destruct (fin w'); exact I.
Qed.

Lemma triple_foldM_acc {A S} (I : World -> Prop) (J : S -> Prop)
    (E : World -> Prop) (l : list A) (f : S -> A -> M S) (s : S) :
  J s ->
  (forall s x, J s -> triple I (f s x) (fun s' w => J s' /\ I w) E) ->
  triple I (foldM l f s) (fun s' w => J s' /\ I w) E.
Proof.
  intros Hs Hf. revert s Hs. induction l as [|x l IH]; intros s Hs; simpl.
  - apply triple_ret. auto.
  - eapply triple_bind; [apply Hf; exact Hs|]. intros s'.
    intros w [Hs' Hw]. apply IH; assumption.
Qed.

Section Balanced.
Variable uc : ptr.

Lemma bal_modSeg c uc' f :
  (forall u, memoryReleased (f u) = memoryReleased u) ->
  keeps (balanced uc c) (modSeg uc' f).
Proof.
  intros Hf w Hw. unfold modSeg.
  destruct (segs w !! uc') as [u'|] eqn:E; [|exact Hw].
  destruct Hw as (u & Hu & Hb). unfold balanced. simpl.
  destruct (decide (uc' = uc)) as [->|Hne].
  - rewrite lookup_insert_eq. exists (f u'). split; [reflexivity|].
    rewrite Hf. rewrite Hu in E. inversion E; subst. exact Hb.
  - rewrite lookup_insert_ne by exact Hne. exists u. split; assumption.
Qed.

Lemma bal_setSlot c uc' i b : keeps (balanced uc c) (setSlot uc' i b).
Proof.
  unfold setSlot. apply keeps_bind; [apply keeps_getSeg|]. intros u.
  destruct (sliceSet _ _ _); [|apply keeps_panic].
  apply bal_modSeg. reflexivity.
Qed.

Lemma bal_setPhysical c uc' i d : keeps (balanced uc c) (setPhysical uc' i d).
Proof.
  unfold setPhysical. apply keeps_bind; [apply keeps_getSeg|]. intros u.
  destruct (sliceSet _ _ _); [|apply keeps_panic].
  apply bal_modSeg. reflexivity.
Qed.

Lemma bal_state {A} c (g : World -> A) (f : World -> World) :
  (forall w, segs (f w) = segs w) -> (forall w, trace (f w) = trace w) ->
  keeps (balanced uc c) (fun w => Ok (g w) (f w)).
Proof.
  intros Hs Ht w (u & Hu & Hb). exists u. simpl. rewrite Hs, Ht.
  split; assumption.
Qed.

Lemma bal_emit c e : returnedBy e = 0 -> keeps (balanced uc c) (emit e).
Proof.
  intros He w (u & Hu & Hb). exists u. split; [exact Hu|].
  change (trace (set_trace (e :: trace w) w)) with (e :: trace w).
  rewrite memoryReturned_cons, He. exact Hb.
Qed.

Lemma bal_add c n (E : World -> Prop) :
  triple (balanced uc c) (addMemoryReleased uc n)
    (fun _ => balanced uc (c + n)) E.
Proof.
  intros w (u & Hu & Hb). unfold addMemoryReleased, modSeg. rewrite Hu.
  eexists. simpl. rewrite lookup_insert_eq. split; [reflexivity|]. simpl.
  unfold wrapU64 in *. rewrite Zminus_mod_idemp_l.
  replace (memoryReleased u + n - memoryReturned (trace w))
    with (memoryReleased u - memoryReturned (trace w) + n) by lia.
  rewrite <- Zplus_mod_idemp_l, Hb, Zplus_mod_idemp_l. reflexivity.
Qed.

Lemma bal_return c n (E : World -> Prop) :
  triple (balanced uc (c + n)) (emit (EvMemoryReturn n))
    (fun _ => balanced uc c) E.
Proof.
  intros w (u & Hu & Hb). exists u. split; [exact Hu|].
  change (trace (set_trace (EvMemoryReturn n :: trace w) w))
    with (EvMemoryReturn n :: trace w).
  rewrite memoryReturned_cons. simpl returnedBy.
  unfold wrapU64 in *.
  replace (memoryReleased u - (n + memoryReturned (trace w)))
    with (memoryReleased u - memoryReturned (trace w) - n) by lia.
  rewrite <- Zminus_mod_idemp_l, Hb, Zminus_mod_idemp_l. f_equal. lia.
Qed.

Lemma bal_return_add c n (E : World -> Prop) :
  triple (balanced uc c)
    (emit (EvMemoryReturn n) ;;; addMemoryReleased uc n)
    (fun _ => balanced uc c) E.
Proof.
  eapply triple_bind with (Q := fun _ => balanced uc (c - n)).
  - eapply triple_conseq; [apply (bal_return (c - n) n E)| | |]; auto.
    intros w Hw. replace (c - n + n) with c by lia. exact Hw.
  - intros ?. eapply triple_conseq; [apply (bal_add (c - n) n E)| | |]; auto.
    intros [] w Hw. simpl in Hw. replace (c - n + n) with c in Hw by lia.
    exact Hw.
Qed.

Ltac bal_base :=
  first
    [ apply bal_setSlot | apply bal_setPhysical
    | apply bal_modSeg; reflexivity
    | apply bal_emit; reflexivity
    | apply bal_state; reflexivity ].

Ltac bal_go extra := repeat first [ bal_base | extra | keeps_step ].

Section WithCode.
Variable SectorSize : Z.
Variable thr : float.
Variable isReady : ptr -> worker -> unfinishedUploadSegment -> bool.
Variable randInt : nat -> Z.
Variable Encode : list byte -> list (list byte) * bool.
Variable Encrypt : list byte -> option (list byte).

Lemma bal_randomAssign c workers uc' :
  keeps (balanced uc c)
    (randomAssignSectorTaskToWorker isReady randInt workers uc').
Proof.
  unfold randomAssignSectorTaskToWorker, assignSector. bal_go fail.
Qed.

Lemma bal_notifyBackupWorkers c uc' :
  keeps (balanced uc c) (notifyBackupWorkers isReady randInt uc').
Proof.
  unfold notifyBackupWorkers, signalAll.
  bal_go ltac:(apply bal_randomAssign).
Qed.

Lemma bal_dispatchSegment c uc' :
  keeps (balanced uc c) (dispatchSegment isReady randInt uc').
Proof.
  unfold dispatchSegment, signalAll.
  apply keeps_bind; [apply keeps_getSeg|]. intros u.
  apply keeps_bind.
  { intros w Hw. destruct (decide _); exact Hw. }
  intros _. apply keeps_bind.
  { intros w Hw. refine (bal_modSeg c uc' _ _ w Hw). reflexivity. }
  intros _. bal_go ltac:(apply bal_randomAssign).
Qed.

Lemma bal_updateStuck c cs uc' :
  keeps (balanced uc c) (updateUploadSegmentStuckStatus thr cs uc').
Proof. unfold updateUploadSegmentStuckStatus. bal_go fail. Qed.

Lemma bal_encryptSector c uc' i :
  keeps (balanced uc c) (encryptSector Encrypt uc' i).
Proof. unfold encryptSector. bal_go fail. Qed.

Lemma bal_release c uc' :
  triple (balanced uc c) (releaseUnneededSectors SectorSize uc')
    (fun acc w => 0 <= snd acc /\ balanced uc c w) (fun _ => True).
Proof.
  unfold releaseUnneededSectors.
  eapply triple_bind; [apply keeps_may_panic, keeps_getSeg|]. intros u.
  apply triple_foldM_acc; [simpl; lia|].
  intros [avail mem] i Hmem. unfold trimSector.
  eapply triple_bind; [apply keeps_may_panic, keeps_getSeg|]. intros u'.
  eapply triple_bind; [apply keeps_may_panic, keeps_sliceGet|]. intros s.
  destruct s; [apply triple_ret; auto|].
  destruct (_ >=? _).
  - eapply triple_bind; [apply keeps_may_panic, bal_setPhysical|]. intros ?.
    eapply triple_bind; [apply keeps_may_panic, bal_setSlot|]. intros ?.
    apply triple_ret. intros w Hw.
    split; [simpl; apply wrapU64_range | exact Hw].
  - apply triple_ret. auto.
Qed.

Lemma bal_cleanup c cs :
  triple (balanced uc c)
    (cleanupUploadSegment SectorSize thr isReady randInt cs uc)
    (fun _ => balanced uc c) (fun _ => True).
Proof.
  unfold cleanupUploadSegment.
  eapply triple_bind; [apply bal_release|]. intros [avail mem].
  apply triple_pure_pre. simpl snd. intros Hmem. cbv beta iota.
  eapply triple_bind; [apply keeps_may_panic, keeps_getSeg|]. intros u.
  cbv zeta.
  eapply triple_bind;
    [apply keeps_may_panic, keeps_when, bal_modSeg; reflexivity|]. intros ?.
  eapply triple_bind; [apply (bal_add c mem)|]. intros ?.
  eapply triple_bind; [apply keeps_may_panic, keeps_getSeg|]. intros u'.
  eapply triple_bind;
    [apply keeps_may_panic, keeps_when, bal_notifyBackupWorkers|]. intros ?.
  eapply triple_bind with (Q := fun _ => balanced uc c).
  { unfold when. destruct (mem >? 0) eqn:Hm; [apply bal_return|].
    apply triple_ret. intros w Hw. assert (Hz : mem = 0) by lia.
    rewrite Hz, Z.add_0_r in Hw. exact Hw. }
  intros ?. apply keeps_may_panic. bal_go ltac:(apply bal_updateStuck).
Qed.

Lemma bal_return_add_then {B} c n (k : M B) R (E : World -> Prop) :
  triple (balanced uc c) k R E ->
  triple (balanced uc c)
    (emit (EvMemoryReturn n) ;;; addMemoryReleased uc n ;;; k) R E.
Proof.
  intros H w Hw. pose proof (bal_return_add c n E w Hw) as H1.
  unfold bind in *. destruct (emit _ w) as [a w1|msg w1]; [|exact H1].
  destruct (addMemoryReleased uc n w1) as [b w2|msg w2]; [|exact H1].
  apply H. exact H1.
Qed.

Lemma bal_body c e s retrieved :
  triple (balanced uc c)
    (retrieveAndDispatchBody SectorSize isReady randInt Encode Encrypt e s
       retrieved uc)
    (fun _ => balanced uc c) (fun _ => True).
Proof.
  unfold retrieveAndDispatchBody. destruct retrieved as [data|].
  - eapply triple_bind; [apply keeps_may_panic, bal_modSeg; reflexivity|].
    intros ?.
    eapply triple_bind; [apply keeps_may_panic, keeps_getSeg|]. intros u.
    destruct (Encode _) as [physical err].
    eapply triple_bind; [apply keeps_may_panic, bal_modSeg; reflexivity|].
    intros ?. destruct err.
    + eapply triple_bind; [apply keeps_may_panic, bal_modSeg; reflexivity|].
      intros ?. apply bal_return_add_then. apply keeps_may_panic.
      apply keeps_forM. intros i. apply bal_setPhysical.
    + eapply triple_bind; [apply keeps_may_panic, bal_modSeg; reflexivity|].
      intros ?. apply bal_return_add_then.
      eapply triple_bind; [apply keeps_may_panic, keeps_getSeg|]. intros u'.
      destruct (_ <? _); [apply triple_ret; auto|].
      eapply triple_bind.
      { apply keeps_may_panic, keeps_forM. intros i. apply bal_encryptSector. }
      intros ?. eapply triple_bind with (Q := fun _ => balanced uc c).
      { unfold when. destruct (_ >? _); [apply bal_return_add|].
        apply triple_ret. auto. }
      intros ?. apply keeps_may_panic, bal_dispatchSegment.
  - eapply triple_bind; [apply keeps_may_panic, bal_modSeg; reflexivity|].
    intros ?.
    eapply triple_bind; [apply keeps_may_panic, bal_modSeg; reflexivity|].
    intros ?. apply bal_return_add.
Qed.

Lemma bal_retrieve c cs tmAddErr retrieved :
  triple (balanced uc c)
    (retrieveDataAndDispatchSegment SectorSize thr isReady randInt Encode
       Encrypt cs tmAddErr retrieved uc)
    (fun _ => balanced uc c) (fun _ => True).
Proof.
  unfold retrieveDataAndDispatchSegment.
  destruct tmAddErr; [apply triple_ret; auto|].
  eapply triple_defer_may_panic;
    [|apply keeps_may_panic, bal_emit; reflexivity].
  eapply triple_bind; [apply keeps_may_panic, keeps_getSeg|]. intros u.
  cbv zeta.
  eapply triple_defer_may_panic; [apply bal_body | apply bal_cleanup].
Qed.

End WithCode.
End Balanced.

(** X6: whenever cleanupUploadSegment or retrieveDataAndDispatchSegment
    returns, the released-memory counter of the segment has advanced by the
    bytes that were handed back to the memory manager, modulo 2^64. *)
Theorem memory_counter_matches_returns
    (SectorSize : Z) (thr : float)
    (isReady : ptr -> worker -> unfinishedUploadSegment -> bool)
    (randInt : nat -> Z)
    (Encode : list byte -> list (list byte) * bool)
    (Encrypt : list byte -> option (list byte))
    (cs : clientStatus) (uc : ptr) (u : unfinishedUploadSegment) (w : World) :
  segs w !! uc = Some u ->
  sameBalance uc u w
    (cleanupUploadSegment SectorSize thr isReady randInt cs uc w)
  /\ forall tmAddErr retrieved,
       sameBalance uc u w
         (retrieveDataAndDispatchSegment SectorSize thr isReady randInt Encode
            Encrypt cs tmAddErr retrieved uc w).
Proof.
  intros Hu.
  assert (Hb : balanced uc (memoryReleased u - memoryReturned (trace w)) w)
    by (exists u; split; [exact Hu | reflexivity]).
  split.
  - pose proof (bal_cleanup uc SectorSize thr isReady randInt _ cs w Hb) as H.
    unfold sameBalance. destruct (cleanupUploadSegment _ _ _ _ _ _ _); exact H.
  - intros tmAddErr retrieved.
    pose proof (bal_retrieve uc SectorSize thr isReady randInt Encode Encrypt
                  _ cs tmAddErr retrieved w Hb) as H.
    unfold sameBalance.
    destruct (retrieveDataAndDispatchSegment _ _ _ _ _ _ _ _ _ _ _); exact H.
Qed.

Lemma memory_counter_matches_returns_witness :
  sameBalance 1%positive
    (exampleSegment 8388608 2 0 0 0 [false; true] [[x01]; []])
    (exampleWorld (exampleSegment 8388608 2 0 0 0 [false; true] [[x01]; []])
       [idleWorker])
    (cleanupUploadSegment 4194304 threshold_0_1 exampleReady exampleRand
       clientOnline 1%positive
       (exampleWorld (exampleSegment 8388608 2 0 0 0 [false; true] [[x01]; []])
          [idleWorker]))
  /\ forall tmAddErr retrieved,
       sameBalance 1%positive
         (exampleSegment 8388608 2 0 0 0 [false; true] [[x01]; []])
         (exampleWorld (exampleSegment 8388608 2 0 0 0 [false; true] [[x01]; []])
            [idleWorker])
         (retrieveDataAndDispatchSegment 4194304 threshold_0_1 exampleReady
            exampleRand failingEncode plainEncrypt clientOnline tmAddErr
            retrieved 1%positive
            (exampleWorld
               (exampleSegment 8388608 2 0 0 0 [false; true] [[x01]; []])
               [idleWorker])).
Proof.
  apply (memory_counter_matches_returns 4194304 threshold_0_1 exampleReady
           exampleRand failingEncode plainEncrypt clientOnline 1%positive).
  reflexivity.
Defined.

(** *** The encryption loop *)

Section EncryptionLoop.
Variable Encrypt : list byte -> option (list byte).
Variable uc : ptr.

Lemma encryptedData_length slots physical :
  List.length (encryptedData Encrypt slots physical) = List.length physical.
Proof.
  revert physical. induction slots as [|s sl IH]; intros [|d pl]; simpl;
    try reflexivity.
  rewrite IH. reflexivity.
Qed.

Lemma encryptedData_lookup (slots : list bool) (physical : list (list byte))
    (i : nat) (s : bool) (d : list byte) :
  slots !! i = Some s -> physical !! i = Some d ->
  encryptedData Encrypt slots physical !! i
  = Some (if s then [] else default d (Encrypt d)).
Proof.
  revert physical i. induction slots as [|s0 sl IH]; intros [|d0 pl] [|i] Hs Hd;
    try discriminate; simpl in *.
  - inversion Hs; inversion Hd; subst. reflexivity.
  - apply IH; assumption.
Qed.

Lemma encryptedData_beyond (slots : list bool) (physical : list (list byte))
    (i : nat) :
  (List.length slots <= i)%nat ->
  encryptedData Encrypt slots physical !! i = physical !! i.
Proof.
  revert physical i. induction slots as [|s0 sl IH]; intros [|d0 pl] [|i] Hi;
    simpl in *; try reflexivity; try lia.
  apply IH. lia.
Qed.

Lemma encrypt_loop (todo : list bool) :
  forall (pre : list bool) (ppre ptodo : list (list byte)) (w : World)
         (u : unfinishedUploadSegment),
  segs w !! uc = Some u ->
  sectorSlotsStatus u = pre ++ todo ->
  physicalSegmentData u = ppre ++ ptodo ->
  List.length ppre = List.length pre ->
  (List.length todo <= List.length ptodo)%nat ->
  forM (seq (List.length pre) (List.length todo)) (encryptSector Encrypt uc) w
  = Ok tt (set_segs
             (<[uc := set_physicalSegmentData
                        (ppre ++ encryptedData Encrypt todo ptodo) u]> (segs w))
             w).
Proof.
  induction todo as [|s todo IH]; intros pre ppre ptodo w u Hu Hs Hp Hl Hlen.
  - simpl. rewrite <- Hp, set_physical_same, (insert_id _ _ _ Hu), set_segs_same.
    reflexivity.
  - destruct ptodo as [|d ptodo]; [simpl in Hlen; lia|].
    simpl List.length. simpl seq. rewrite forM_cons.
    unfold bind at 1. unfold encryptSector at 1. unfold bind at 1.
    unfold getSeg at 1. rewrite Hu. unfold bind at 1.
    rewrite (sliceGet_nat _ _ s)
      by (rewrite Hs; apply list_lookup_middle; reflexivity).
    assert (Hin : (List.length pre < List.length (physicalSegmentData u))%nat)
      by (rewrite Hp, length_app; simpl; lia).
    assert (Hset : forall x,
               <[List.length pre := x]> (physicalSegmentData u)
               = (ppre ++ [x]) ++ ptodo).
    { intros x. rewrite Hp, <- Hl.
      rewrite insert_app_r_alt by lia. rewrite Nat.sub_diag. simpl.
      rewrite <- app_assoc. reflexivity. }
    assert (Hstep : forall x,
               setPhysical uc (Z.of_nat (List.length pre)) x w
               = Ok tt (set_segs
                          (<[uc := set_physicalSegmentData
                                     ((ppre ++ [x]) ++ ptodo) u]> (segs w)) w)).
    { intros x. unfold setPhysical, bind, getSeg. rewrite Hu.
      rewrite sliceSet_in_range by exact Hin. unfold modSeg. rewrite Hu, Hset.
      reflexivity. }
    assert (Hnext : forall x w1 u1,
               segs w1 !! uc = Some u1 ->
               sectorSlotsStatus u1 = pre ++ s :: todo ->
               physicalSegmentData u1 = (ppre ++ [x]) ++ ptodo ->
               forM (seq (S (List.length pre)) (List.length todo))
                 (encryptSector Encrypt uc) w1
               = Ok tt (set_segs
                          (<[uc := set_physicalSegmentData
                                     (ppre ++ x :: encryptedData Encrypt todo ptodo)
                                     u1]> (segs w1)) w1)).
    { intros x w1 u1 Hu1 Hs1 Hp1.
      assert (E1 : List.length (pre ++ [s]) = S (List.length pre))
        by (rewrite length_app; simpl; lia).
      assert (HsA : sectorSlotsStatus u1 = (pre ++ [s]) ++ todo)
        by (rewrite Hs1, <- app_assoc; reflexivity).
      assert (HlA : List.length (ppre ++ [x]) = List.length (pre ++ [s]))
        by (rewrite !length_app, Hl; reflexivity).
      assert (HlenA : (List.length todo <= List.length ptodo)%nat)
        by (simpl in Hlen; lia).
      pose proof (IH (pre ++ [s]) (ppre ++ [x]) ptodo w1 u1 Hu1 HsA Hp1 HlA
                    HlenA) as H.
      rewrite E1, <- app_assoc in H. exact H. }
    destruct s.
    + rewrite Hstep. rewrite (Hnext [] _ _ (lookup_insert_eq _ _ _)); simpl;
        [|exact Hs|reflexivity].
      rewrite insert_insert_eq. reflexivity.
    + unfold bind at 1.
      rewrite (sliceGet_nat _ _ d)
        by (rewrite Hp, <- Hl; apply list_lookup_middle; reflexivity).
      simpl encryptedData. destruct (Encrypt d) as [c|] eqn:Ec.
      * rewrite Hstep. rewrite (Hnext c _ _ (lookup_insert_eq _ _ _)); simpl;
          [|exact Hs|reflexivity].
        rewrite insert_insert_eq. reflexivity.
      * simpl. apply (Hnext d w u Hu Hs). rewrite Hp, <- app_assoc. reflexivity.
Qed.

End EncryptionLoop.

(** X7: the encryption loop of retrieveDataAndDispatchSegment, on a segment
    with at least as many physical sectors as slots, returns; it drops the
    data of every claimed slot, replaces the data of every free slot by its
    ciphertext, and leaves the plaintext in place where the encryption fails. *)
Theorem encryption_loop_spec
    (Encrypt : list byte -> option (list byte)) (uc : ptr)
    (u : unfinishedUploadSegment) (w : World) :
  segs w !! uc = Some u ->
  (List.length (sectorSlotsStatus u) <= List.length (physicalSegmentData u))%nat ->
  exists P : list (list byte),
    forM (seq 0 (List.length (sectorSlotsStatus u))) (encryptSector Encrypt uc) w
    = Ok tt (set_segs (<[uc := set_physicalSegmentData P u]> (segs w)) w)
    /\ List.length P = List.length (physicalSegmentData u)
    /\ (forall i, sectorSlotsStatus u !! i = Some true -> P !! i = Some [])
    /\ (forall i d, sectorSlotsStatus u !! i = Some false ->
          physicalSegmentData u !! i = Some d ->
          P !! i = Some (default d (Encrypt d)))
    /\ (forall i, (List.length (sectorSlotsStatus u) <= i)%nat ->
          P !! i = physicalSegmentData u !! i).
Proof.
  intros Hu Hlen.
  exists (encryptedData Encrypt (sectorSlotsStatus u) (physicalSegmentData u)).
  split; [|split; [|split; [|split]]].
  - apply (encrypt_loop Encrypt uc (sectorSlotsStatus u) [] []); auto.
  - apply encryptedData_length.
  - intros i Hi.
    destruct (lookup_lt_is_Some_2 (physicalSegmentData u) i) as [d Hd].
    { apply lookup_lt_Some in Hi. lia. }
    rewrite (encryptedData_lookup Encrypt _ _ i true d Hi Hd). reflexivity.
  - intros i d Hi Hd.
    rewrite (encryptedData_lookup Encrypt _ _ i false d Hi Hd). reflexivity.
  - intros i Hi. apply encryptedData_beyond. exact Hi.
Qed.

Lemma encryption_loop_spec_witness :
  exists P : list (list byte),
    forM (seq 0 2) (encryptSector (fun _ => None) 1%positive)
      (exampleWorld (exampleSegment 8388608 2 0 0 0 [false; true] [[x01]; [x02]])
         [idleWorker])
    = Ok tt (set_segs
               (<[1%positive :=
                    set_physicalSegmentData P
                      (exampleSegment 8388608 2 0 0 0 [false; true]
                         [[x01]; [x02]])]>
                  (segs (exampleWorld
                           (exampleSegment 8388608 2 0 0 0 [false; true]
                              [[x01]; [x02]]) [idleWorker])))
               (exampleWorld
                  (exampleSegment 8388608 2 0 0 0 [false; true] [[x01]; [x02]])
                  [idleWorker]))
    /\ P !! 0%nat = Some [x01] /\ P !! 1%nat = Some [].
Proof.
  destruct (encryption_loop_spec (fun _ => None) 1%positive
              (exampleSegment 8388608 2 0 0 0 [false; true] [[x01]; [x02]])
              (exampleWorld
                 (exampleSegment 8388608 2 0 0 0 [false; true] [[x01]; [x02]])
                 [idleWorker]))
    as (P & Hrun & _ & Hc & Hf & _).
  - reflexivity.
  - simpl. lia.
  - exists P. split; [exact Hrun|]. split.
    + apply (Hf 0%nat [x01]); reflexivity.
    + apply (Hc 1%nat). reflexivity.
Defined.

(** *** A failed retrieval, from the first statement to the last *)

Lemma defer_run (fin body : M unit) (w w1 : World) (r : Res unit) :
  body w = Ok tt w1 -> fin w1 = r -> defer fin body w = r.
Proof. intros Hb Hf. unfold defer. rewrite Hb. exact Hf. Qed.

Lemma body_retrieval_failure_run
    (SectorSize : Z) (isReady : ptr -> worker -> unfinishedUploadSegment -> bool)
    (randInt : nat -> Z) (Encode : list byte -> list (list byte) * bool)
    (Encrypt : list byte -> option (list byte)) (e c : Z) (uc : ptr)
    (u : unfinishedUploadSegment) (w : World) :
  segs w !! uc = Some u ->
  exists w1,
    retrieveAndDispatchBody SectorSize isReady randInt Encode Encrypt e c None
      uc w = Ok tt w1
    /\ segs w1 !! uc
       = Some (set_memoryReleased (wrapU64 (memoryReleased u + wrapU64 (e + c)))
                 (set_workersRemain 0 (set_logicalSegmentData [] u)))
    /\ pendingSegments w1 = pendingSegments w
    /\ nDeletes (trace w1) = nDeletes (trace w)
    /\ memoryReturned (trace w1) = wrapU64 (e + c) + memoryReturned (trace w).
Proof.
  intros Hu.
  set (u1 := set_logicalSegmentData [] u).
  set (u2 := set_workersRemain 0 u1).
  set (u3 := set_memoryReleased (wrapU64 (memoryReleased u + wrapU64 (e + c))) u2).
  destruct (returns_elim
              (snap (segs w) (pendingSegments w) (nDeletes (trace w))
                 (memoryReturned (trace w)))
              (retrieveAndDispatchBody SectorSize isReady randInt Encode Encrypt
                 e c None uc)
              (fun _ => snap (<[uc := u3]> (<[uc := u2]> (<[uc := u1]> (segs w))))
                          (pendingSegments w) (nDeletes (trace w))
                          (wrapU64 (e + c) + memoryReturned (trace w)))
              w) as ([] & w1 & Hrun & HS & HX & Hd & Hr).
  - unfold retrieveAndDispatchBody.
    eapply triple_bind; [apply (snap_modSeg _ _ _ _ _ uc u); exact Hu|].
    intros ?.
    eapply triple_bind;
      [apply (snap_modSeg _ _ _ _ _ uc u1); apply lookup_insert_eq|].
    intros ?.
    eapply triple_bind;
      [apply (snap_emit _ _ _ _ _ (EvMemoryReturn (wrapU64 (e + c))));
       reflexivity|].
    intros ?. apply (snap_modSeg _ _ _ _ _ uc u2). apply lookup_insert_eq.
  - repeat split.
  - exists w1. split; [exact Hrun|]. split; [rewrite HS; apply lookup_insert_eq|].
    split; [exact HX|]. split; assumption.
Qed.

(** X8: when the retrieval of the logical data fails for a segment of which
    no sector is being uploaded, retrieveDataAndDispatchSegment returns with
    the segment released: every slot is claimed, the id is deleted once from
    the pending segments, and the erasure-coding memory,
    the memory of the completed sectors and the memory of the free slots
    have been returned to the memory manager and added to the counter. *)
Theorem retrieval_failure_releases_segment
    (SectorSize : Z) (thr : float)
    (isReady : ptr -> worker -> unfinishedUploadSegment -> bool)
    (randInt : nat -> Z)
    (Encode : list byte -> list (list byte) * bool)
    (Encrypt : list byte -> option (list byte))
    (cs : clientStatus) (uc : ptr) (u : unfinishedUploadSegment) (w : World) :
  segs w !! uc = Some u ->
  (List.length (sectorSlotsStatus u) <= List.length (physicalSegmentData u))%nat ->
  Z.of_nat (List.length (sectorSlotsStatus u)) < 2 ^ 63 ->
  sectorsUploadingNum u = 0 -> released u = false ->
  let failed :=
    wrapU64 (erasureCodingMemoryOf u
             + sectorCompletedMemoryOf SectorSize (sectorSlotsStatus u)) in
  let free := wrapU64 (SectorSize * freeSlots (sectorSlotsStatus u)) in
  exists w' u',
    retrieveDataAndDispatchSegment SectorSize thr isReady randInt Encode Encrypt
      cs false None uc w = Ok tt w'
    /\ segs w' !! uc = Some u'
    /\ released u' = true
    /\ sectorSlotsStatus u' = repeat true (List.length (sectorSlotsStatus u))
    /\ memoryReleased u' = wrapU64 (wrapU64 (memoryReleased u + failed) + free)
    /\ memoryReturned (trace w') = memoryReturned (trace w) + failed + free
    /\ pendingSegments w' = pendingSegments w ∖ {[ id u ]}
    /\ nDeletes (trace w') = S (nDeletes (trace w)).
Proof.
  intros Hu Hp Hlen Hup Hrel failed free.
  destruct (body_retrieval_failure_run SectorSize isReady randInt Encode Encrypt
              (erasureCodingMemoryOf u)
              (sectorCompletedMemoryOf SectorSize (sectorSlotsStatus u))
              uc u w Hu) as (w1 & Hbody & Hu1 & HX1 & Hd1 & Hr1).
  fold failed in Hu1, Hr1.
  destruct (cleanup_abort_run SectorSize thr isReady randInt cs uc _ w1 Hu1
              Hp Hlen eq_refl Hup Hrel)
    as (w2 & u2 & Hclean & Hu2 & Hrel2 & Hs2 & Hm2 & Hr2 & HX2 & Hd2).
  exists (set_trace (EvTmDone :: trace w2) w2), u2.
  split.
  { unfold retrieveDataAndDispatchSegment.
    apply (defer_run _ _ w w2); [|reflexivity].
    unfold bind, getSeg. rewrite Hu. cbv zeta.
    apply (defer_run _ _ w w1); [exact Hbody | exact Hclean]. }
  cbn [sectorSlotsStatus memoryReleased id set_memoryReleased set_workersRemain
       set_logicalSegmentData] in Hs2, Hm2, Hr2, HX2.
  fold free in Hm2, Hr2.
  split; [exact Hu2|]. split; [exact Hrel2|].
  split; [exact Hs2|]. split; [exact Hm2|].
  change (trace (set_trace (EvTmDone :: trace w2) w2)) with (EvTmDone :: trace w2).
  split; [rewrite memoryReturned_cons, Hr2, Hr1; simpl returnedBy; lia|].
  split; [simpl; rewrite HX2, HX1; reflexivity|].
  unfold nDeletes in *. simpl. rewrite Hd2, Hd1. reflexivity.
Qed.

Lemma retrieval_failure_releases_segment_witness :
  exists w' u',
    retrieveDataAndDispatchSegment 4194304 threshold_0_1 exampleReady
      exampleRand failingEncode plainEncrypt clientOnline false None 1%positive
      (exampleWorld (exampleSegment 8388608 2 0 0 3 [false; true] [[x01]; []])
         [idleWorker]) = Ok tt w'
    /\ segs w' !! 1%positive = Some u'
    /\ released u' = true
    /\ sectorSlotsStatus u' = [true; true]
    /\ pendingSegments w' = ∅
    /\ nDeletes (trace w') = 1%nat.
Proof.
  destruct (retrieval_failure_releases_segment 4194304 threshold_0_1
              exampleReady exampleRand failingEncode plainEncrypt clientOnline
              1%positive
              (exampleSegment 8388608 2 0 0 3 [false; true] [[x01]; []])
              (exampleWorld
                 (exampleSegment 8388608 2 0 0 3 [false; true] [[x01]; []])
                 [idleWorker]))
    as (w' & u' & Hrun & Hu & Hrel & Hs & _ & _ & HX & Hd).
  - reflexivity.
  - simpl. lia.
  - simpl. lia.
  - reflexivity.
  - reflexivity.
  - exists w', u'. split; [exact Hrun|]. split; [exact Hu|].
    split; [exact Hrel|]. split; [exact Hs|]. split; [|exact Hd].
    rewrite HX. apply difference_diag_L.
Defined.

(** ** The disrupters *)

Section MoreDisrupter.
Import Disrupter.

(** X9: a standard disrupter answers at a keyword with the function that was
    registered for it last, and at every other keyword as before the
    registration; a keyword that was never registered does not disrupt. *)
Theorem register_then_disrupt (d : standardDisrupter) (keyword : string)
    (df : disruptFunc) (s : string) :
  standard_disrupt (registerDisruptFunc d keyword df) s
  = (if bool_decide (s = keyword) then df tt else standard_disrupt d s)
  /\ standard_disrupt ∅ s = false.
Proof.
  split; [|reflexivity].
  unfold standard_disrupt, registerDisruptFunc, standardDisrupter, disruptFunc in *.
  destruct (bool_decide_reflect (s = keyword)) as [->|Hne].
  - rewrite lookup_insert_eq. reflexivity.
  - rewrite lookup_insert_ne by congruence. reflexivity.
Qed.

Context {D : Type} `{disrupter D}.

Lemma disrupt_times_inner (n : nat) (cd : counterDisrupter D) (s : string) :
  inner (disrupt_times n cd s) = inner cd.
Proof.
  revert cd. induction n as [|n IH]; intros cd; [reflexivity|].
  simpl. rewrite IH. reflexivity.
Qed.

(** X10: calls of [disrupt] of a counting disrupter at one keyword leave the
    counts of all other keywords as they were. *)
Theorem counter_disrupt_other_keywords (n : nat) (cd : counterDisrupter D)
    (s s' : string) :
  s <> s' ->
  counter (disrupt_times n cd s') !! s = counter cd !! s.
Proof.
  intros Hne. revert cd. induction n as [|n IH]; intros cd; [reflexivity|].
  simpl. rewrite IH. unfold counter_disrupt. simpl.
  destruct (counter cd !! s'); rewrite lookup_insert_ne by congruence;
    reflexivity.
Qed.

End MoreDisrupter.

Lemma normal_disrupt (k s : string) :
  Disrupter.standard_disrupt (Disrupter.newNormalDisrupter k) s
  = bool_decide (s = k).
Proof.
  unfold Disrupter.standard_disrupt, Disrupter.newNormalDisrupter,
    Disrupter.registerDisruptFunc, Disrupter.makeNormalDisruptFunc,
    Disrupter.standardDisrupter, Disrupter.disruptFunc.
  destruct (bool_decide_reflect (s = k)) as [->|Hne].
  - rewrite lookup_insert_eq. reflexivity.
  - rewrite lookup_insert_ne by congruence. reflexivity.
Qed.

(** X11: a counting disrupter around the disrupter of [newNormalDisrupter k]
    disrupts at [k] and at no other keyword, however often it was called
    before. *)
Theorem counted_normal_disrupter (k s s' : string) (n : nat) :
  snd (Disrupter.counter_disrupt
         (Disrupter.disrupt_times n
            (Disrupter.newCounterDisrupter (Disrupter.newNormalDisrupter k)) s')
         s)
  = bool_decide (s = k).
Proof.
  unfold Disrupter.counter_disrupt. cbn [snd]. rewrite disrupt_times_inner.
  exact (normal_disrupt k s).
Qed.

Lemma counter_disrupt_other_keywords_witness :
  Disrupter.counter
    (Disrupter.disrupt_times 3
       (Disrupter.newCounterDisrupter (Disrupter.newNormalDisrupter "a")) "a")
    !! "b" = None.
Proof.
  rewrite (counter_disrupt_other_keywords 3
             (Disrupter.newCounterDisrupter (Disrupter.newNormalDisrupter "a"))
             "b" "a"); [reflexivity|].
  intros Heq. discriminate Heq.
Defined.

(** ** Retrieval of the logical data *)

Section Retrieval.
Variable thr : float.
Variable env : retrievalEnv.
Variable fe : localFileInfo.
Variable u : unfinishedUploadSegment.

Lemma downloadLength_bounds (len : Z) :
  0 < segLength u -> downloadLength fe u = Some len ->
  0 < len <= segLength u
  /\ (len <> segLength u ->
      index u = wrapU64 (wrapInt (feNumSegments fe - 1))
      /\ len = feFileSize fe mod segLength u).
Proof.
  intros Hpos. unfold downloadLength.
  destruct (index u =? _) eqn:Hi; [|intros [= <-]; split; [lia|congruence]].
  destruct (segLength u =? 0) eqn:Hz; [lia|].
  destruct (feFileSize fe mod segLength u =? 0) eqn:Hm; simpl;
    intros [= <-]; [split; [lia|congruence]|].
  pose proof (Z.mod_pos_bound (feFileSize fe) (segLength u) Hpos) as Hb.
  split; [lia|]. intros _. split; [lia|reflexivity].
Qed.

Lemma download_actions :
  fst (downloadLogicalSegmentData env fe u)
  = match downloadLength fe u with
    | None => []
    | Some len => [ActDownload len (wrapU64 (offset u))]
    end.
Proof.
  unfold downloadLogicalSegmentData. destruct (downloadLength fe u); reflexivity.
Qed.

(** X12: the download of a segment of positive length never panics, and asks
    for the data at the offset of the segment, of at least one byte and at
    most the length of the segment; it asks for less only for the last
    segment of the file, and then for the size of the file modulo the
    length. *)
Theorem download_length_bounds :
  0 < segLength u ->
  exists len,
    0 < len <= segLength u
    /\ fst (downloadLogicalSegmentData env fe u)
       = [ActDownload len (wrapU64 (offset u))]
    /\ (forall msg, snd (downloadLogicalSegmentData env fe u) <> RetPanic msg)
    /\ (len <> segLength u ->
        index u = wrapU64 (wrapInt (feNumSegments fe - 1))
        /\ len = feFileSize fe mod segLength u).
Proof.
  intros Hpos.
  destruct (downloadLength fe u) as [len|] eqn:Hlen.
  - destruct (downloadLength_bounds len Hpos Hlen) as [Hb Hlast].
    exists len. split; [exact Hb|]. split; [rewrite download_actions, Hlen; reflexivity|].
    split; [|exact Hlast].
    intros msg. unfold downloadLogicalSegmentData. rewrite Hlen. simpl.
    destruct (download env len _); discriminate.
  - unfold downloadLength in Hlen.
    destruct (index u =? _); [|discriminate].
    destruct (segLength u =? 0) eqn:Hz; [lia|].
    destruct (negb _); discriminate.
Qed.

(** X13: when the data must come from a download, the retrieval of a segment
    of length zero that is the last of its file panics with a division by
    zero before any download is started. *)
Theorem retrieve_zero_length_panics :
  segLength u = 0 -> index u = wrapU64 (wrapInt (feNumSegments fe - 1)) ->
  needDownload thr u = true -> localUnusable env fe u = true ->
  snd (retrieveLogicalSegmentData thr env fe u)
  = RetPanic "integer divide by zero"
  /\ Forall (fun a => isDownload a = false)
       (fst (retrieveLogicalSegmentData thr env fe u)).
Proof.
  intros Hz Hi Hneed Hloc.
  assert (Hd : downloadLogicalSegmentData env fe u
               = ([], RetPanic "integer divide by zero")).
  { unfold downloadLogicalSegmentData, downloadLength.
    rewrite Hi, Z.eqb_refl, Hz. reflexivity. }
  unfold retrieveLogicalSegmentData, localUnusable in *. rewrite Hneed, Hd.
  destruct (String.eqb _ _); [split; [reflexivity|constructor]|].
  destruct (openFails env _);
    [split; [reflexivity|repeat constructor]|].
  simpl in Hloc.
  destruct (readFrom env _ _) as [[[]|] buf]; simpl in *; try discriminate.
  split; [reflexivity|repeat constructor].
Qed.

Lemma retrieve_actions :
  fst (retrieveLogicalSegmentData thr env fe u)
  = let D := fst (downloadLogicalSegmentData env fe u) in
    let need := needDownload thr u in
    let path := feLocalPath fe in
    if String.eqb path EmptyString then (if need then D else [])
    else if openFails env path then ActOpen path :: (if need then D else [])
    else
      ActOpen path :: ActRead (offset u) (wrapInt (segLength u))
        :: (if match fst (readFrom env (offset u) (wrapInt (segLength u))) with
               | Some ErrOtherRead => need
               | _ => false
               end
            then D else []) ++ [ActClose].
Proof.
  unfold retrieveLogicalSegmentData. cbv zeta.
  destruct (downloadLogicalSegmentData env fe u) as [acts r].
  destruct (String.eqb _ _); [destruct (needDownload thr u); reflexivity|].
  destruct (openFails env _); [destruct (needDownload thr u); reflexivity|].
  destruct (readFrom env _ _) as [[[]|] buf]; try reflexivity.
  destruct (needDownload thr u); reflexivity.
Qed.

(** X14: the retrieval starts a download only when the completed sectors are
    too few for a repair from the hosts to be superfluous and the local copy
    could not be used; the download is the one downloadLogicalSegmentData
    asks for. *)
Theorem retrieve_download_policy (len off : Z) :
  In (ActDownload len off) (fst (retrieveLogicalSegmentData thr env fe u)) ->
  needDownload thr u = true /\ localUnusable env fe u = true
  /\ downloadLength fe u = Some len /\ off = wrapU64 (offset u).
Proof.
  assert (Hd : In (ActDownload len off) (fst (downloadLogicalSegmentData env fe u)) ->
               downloadLength fe u = Some len /\ off = wrapU64 (offset u)).
  { rewrite download_actions.
    destruct (downloadLength fe u) as [l|]; [|intros []].
    intros [[= -> ->]|[]]. split; reflexivity. }
  rewrite retrieve_actions. unfold localUnusable. cbv zeta.
  generalize dependent (fst (downloadLogicalSegmentData env fe u)). intros D Hd.
  destruct (String.eqb _ _).
  - destruct (needDownload thr u); [|intros []].
    intros Hin. split; [reflexivity|]. split; [reflexivity|]. exact (Hd Hin).
  - destruct (openFails env _).
    + destruct (needDownload thr u); [|intros [[=]|[]]].
      intros [[=]|Hin]. split; [reflexivity|]. split; [reflexivity|].
      exact (Hd Hin).
    + destruct (fst (readFrom env _ _)) as [[]|];
        try (intros [[=]|[[=]|[[=]|[]]]]).
      destruct (needDownload thr u); [|intros [[=]|[[=]|[[=]|[]]]]].
      intros [[=]|[[=]|Hin]]. apply in_app_iff in Hin.
      destruct Hin as [Hin|[[=]|[]]].
      split; [reflexivity|]. split; [reflexivity|]. exact (Hd Hin).
Qed.

(** X15: when the local file opens and its read ends without an error other
    than an end of file, the retrieval takes the data that was read and
    closes the file, whether a download was needed or not. *)
Theorem retrieve_prefers_local :
  localUnusable env fe u = false ->
  retrieveLogicalSegmentData thr env fe u
  = ([ActOpen (feLocalPath fe);
      ActRead (offset u) (wrapInt (segLength u)); ActClose],
     RetData (snd (readFrom env (offset u) (wrapInt (segLength u))))).
Proof.
  unfold retrieveLogicalSegmentData, localUnusable.
  destruct (String.eqb _ _); [discriminate|].
  destruct (openFails env _); [discriminate|]. simpl.
  destruct (readFrom env _ _) as [[[]|] buf]; simpl; try discriminate;
    reflexivity.
Qed.

(** X16: the retrieval closes the file exactly once, as its last call, when
    it has opened it, and makes no call of Close otherwise. *)
Theorem retrieve_closes_opened_file :
  let acts := fst (retrieveLogicalSegmentData thr env fe u) in
  if negb (String.eqb (feLocalPath fe) EmptyString)
     && negb (openFails env (feLocalPath fe))
  then List.filter isClose acts = [ActClose] /\ last acts = Some ActClose
  else List.filter isClose acts = [].
Proof.
  assert (Hd : List.filter isClose (fst (downloadLogicalSegmentData env fe u)) = []).
  { rewrite download_actions. destruct (downloadLength fe u); reflexivity. }
  cbv zeta. rewrite retrieve_actions. cbv zeta.
  generalize dependent (fst (downloadLogicalSegmentData env fe u)). intros D Hd.
  destruct (String.eqb _ _); cbn [negb andb].
  - destruct (needDownload thr u); [exact Hd|reflexivity].
  - destruct (openFails env _); cbn [negb andb].
    + destruct (needDownload thr u); [exact Hd|reflexivity].
    + match goal with
      | |- context [(if ?b then D else [])] =>
          assert (Ha : List.filter isClose (if b then D else []) = [])
            by (destruct b; [exact Hd|reflexivity]);
          generalize dependent (if b then D else [])
      end.
      intros acts Ha. cbn [List.filter isClose].
      rewrite List.filter_app, Ha. split; [reflexivity|].
      rewrite !last_cons, last_snoc. reflexivity.
Qed.

End Retrieval.

Lemma download_length_bounds_witness :
  exists len,
    0 < len <= 4
    /\ fst (downloadLogicalSegmentData (remoteOnlyEnv [[x01]])
              (exampleLocalFile EmptyString 3 10) (sizedSegment 2 8 4 10 4 0))
       = [ActDownload len 8].
Proof.
  destruct (download_length_bounds (remoteOnlyEnv [[x01]])
              (exampleLocalFile EmptyString 3 10) (sizedSegment 2 8 4 10 4 0))
    as (len & Hb & Ha & _).
  - simpl. lia.
  - exists len. split; [exact Hb | exact Ha].
Defined.

Lemma retrieve_zero_length_panics_witness :
  snd (retrieveLogicalSegmentData threshold_0_1 (remoteOnlyEnv [[x01]])
         (exampleLocalFile EmptyString 3 10) (sizedSegment 2 0 0 10 4 0))
  = RetPanic "integer divide by zero"
  /\ Forall (fun a => isDownload a = false)
       (fst (retrieveLogicalSegmentData threshold_0_1 (remoteOnlyEnv [[x01]])
               (exampleLocalFile EmptyString 3 10) (sizedSegment 2 0 0 10 4 0))).
Proof.
  apply retrieve_zero_length_panics.
  - reflexivity.
  - vm_compute. reflexivity.
  - vm_compute. reflexivity.
  - reflexivity.
Defined.

Lemma retrieve_download_policy_witness :
  needDownload threshold_0_1 (sizedSegment 2 8 4 10 4 0) = true
  /\ localUnusable (remoteOnlyEnv [[x01]]) (exampleLocalFile "/data/f" 3 10)
       (sizedSegment 2 8 4 10 4 0) = true
  /\ downloadLength (exampleLocalFile "/data/f" 3 10) (sizedSegment 2 8 4 10 4 0)
     = Some 2
  /\ 8 = wrapU64 (offset (sizedSegment 2 8 4 10 4 0)).
Proof.
  apply (retrieve_download_policy threshold_0_1 (remoteOnlyEnv [[x01]])
           (exampleLocalFile "/data/f" 3 10) (sizedSegment 2 8 4 10 4 0) 2 8).
  vm_compute. right. left. reflexivity.
Defined.

Lemma retrieve_prefers_local_witness :
  retrieveLogicalSegmentData threshold_0_1 (exampleEnv [[x01]] [[x02]])
    (exampleLocalFile "/data/f" 3 10) (sizedSegment 2 8 4 10 4 0)
  = ([ActOpen "/data/f"; ActRead 8 4; ActClose], RetData [[x01]]).
Proof.
  apply (retrieve_prefers_local threshold_0_1 (exampleEnv [[x01]] [[x02]])
           (exampleLocalFile "/data/f" 3 10) (sizedSegment 2 8 4 10 4 0)).
  reflexivity.
Defined.

(** ** Contract formation *)

Section ContractFormation.
Import ContractManager.
Variable env : environment.

Lemma ContractCreate_without_hosts (params : ContractParams) (s : manager) :
  Hosts params = 0 ->
  ContractCreate env params s = Panics "integer divide by zero" s.
Proof. intros H. unfold ContractCreate. rewrite H. reflexivity. Qed.

Lemma createContract_run (host : HostInfo) (fund ceh : Z) (rp : RentPayment)
    (s : manager) :
  createContract env host fund ceh rp s
  = if StoragePrice host >? maxHostStoragePrice env
    then Returns (0, zeroContract, Some ErrStoragePrice) s
    else if MaxDuration host <? Period rp
    then Returns (0, zeroContract, Some ErrMaxDuration) s
    else Panics "integer divide by zero" s.
Proof.
  unfold createContract.
  destruct (StoragePrice host >? _); [reflexivity|].
  replace (MaxDuration (if MaxDeposit host >? maxHostDeposit env then _ else host))
    with (MaxDuration host) by (destruct (_ >? _); reflexivity).
  destruct (MaxDuration host <? _); [reflexivity|].
  cbv zeta. rewrite ContractCreate_without_hosts by reflexivity. reflexivity.
Qed.

Lemma formationFails_rejected (host : HostInfo) (rp : RentPayment) (s : manager) :
  formationFails env host rp s
  = (StoragePrice host >? maxHostStoragePrice env)
    || (MaxDuration host <? Period rp).
Proof.
  unfold formationFails.
  rewrite ContractCreate_without_hosts by reflexivity. apply orb_false_r.
Qed.

(** X17: createContract never forms a contract.  A host whose storage price
    is too high or whose maximal duration is below the period is rejected
    with an error and the form cost 0, before ContractCreate is called; for
    every other host the call panics with a division by zero, because
    ContractCreate is called with empty parameters and divides by
    [allowance.Hosts].  In both cases hostToContract and the calls made are
    as before. *)
Theorem createContract_spec (host : HostInfo) (fund ceh : Z) (rp : RentPayment)
    (s : manager) :
  createContract env host fund ceh rp s
  = (if StoragePrice host >? maxHostStoragePrice env
     then Returns (0, zeroContract, Some ErrStoragePrice) s
     else if MaxDuration host <? Period rp
     then Returns (0, zeroContract, Some ErrMaxDuration) s
     else Panics "integer divide by zero" s)
  /\ hostToContract (managerOf (createContract env host fund ceh rp s))
     = hostToContract s
  /\ calls (managerOf (createContract env host fund ceh rp s)) = calls s.
Proof.
  rewrite createContract_run.
  split; [reflexivity|].
  destruct (StoragePrice host >? _); [split; reflexivity|].
  destruct (MaxDuration host <? _); split; reflexivity.
Qed.

Lemma blackLists_from (active : list ContractMetaData) (bl abl : list enodeID) :
  fold_left
    (fun (acc : list enodeID * list enodeID) contract =>
       let blackList := fst acc ++ [EnodeID contract] in
       if UploadAbility (Status contract) && RenewAbility (Status contract)
          && negb (Canceled (Status contract))
       then (blackList, snd acc ++ [EnodeID contract])
       else (blackList, snd acc))
    active (bl, abl)
  = (bl ++ List.map EnodeID active,
     abl ++ List.map EnodeID (List.filter usable active)).
Proof.
  revert bl abl. induction active as [|c l IH]; intros bl abl.
  - simpl. rewrite !app_nil_r. reflexivity.
  - simpl. unfold usable at 1.
    destruct (UploadAbility (Status c) && RenewAbility (Status c)
              && negb (Canceled (Status c))); simpl; rewrite IH;
      rewrite <- ?app_assoc; reflexivity.
Qed.

(** X18: randomHostsForContractForm asks the host manager for
    neededContracts * randomStorageHostsFactor + randomStorageHostsBackup
    hosts; it excludes the host of every active contract, and excludes by
    address the hosts of the contracts that are good for upload and renewal
    and not canceled; hostToContract is as before. *)
Theorem randomHostsForContractForm_spec (neededContracts : Z) (s : manager) :
  let n := wrapInt (wrapInt (neededContracts * randomStorageHostsFactor env)
                    + randomStorageHostsBackup env) in
  let blackList := List.map EnodeID (activeContracts env) in
  let addressBlackList :=
    List.map EnodeID (List.filter usable (activeContracts env)) in
  randomHostsForContractForm env neededContracts s
  = (RetrieveRandomHosts env n blackList addressBlackList,
     record (CallRetrieveRandomHosts n blackList addressBlackList) s)
  /\ (forall e, In e addressBlackList -> In e blackList).
Proof.
  cbv zeta. split.
  - unfold randomHostsForContractForm, blackLists. rewrite blackLists_from.
    reflexivity.
  - intros e He. apply in_map_iff in He. destruct He as (c & <- & Hc).
    apply List.filter_In in Hc. apply in_map. apply Hc.
Qed.


Lemma formContracts_first (host : HostInfo) (hosts : list HostInfo)
    (fund ceh : Z) (rp : RentPayment) (needed remaining : Z) (s : manager) :
  formContracts env (host :: hosts) fund ceh rp needed remaining None s
  = if fund >? remaining then Returns (false, Some ErrFund) s
    else if formationFails env host rp s
    then Panics "nil pointer dereference" s
    else Panics "integer divide by zero" s.
Proof.
  simpl. rewrite createContract_run, formationFails_rejected.
  destruct (fund >? remaining); [reflexivity|].
  destruct (StoragePrice host >? _); [reflexivity|].
  destruct (MaxDuration host <? _); reflexivity.
Qed.

(** X19: when the formation of the contract with the first host that the
    host manager picked fails, prepareCreateContract does not go on to the
    next host: it panics, calling [Error] on the nil error [err]. *)
Theorem prepareCreateContract_panics_on_failed_formation
    (neededContracts clientRemainingFund contractFund : Z)
    (rentPayment : RentPayment) (s : manager) (host : HostInfo)
    (hosts : list HostInfo) :
  fst (randomHostsForContractForm env neededContracts s) = Some (host :: hosts) ->
  contractFundOf env rentPayment = Some contractFund ->
  contractFund <= clientRemainingFund ->
  formationFails env host rentPayment s = true ->
  exists s',
    prepareCreateContract env neededContracts clientRemainingFund rentPayment s
    = Panics "nil pointer dereference" s'.
Proof.
  intros Hhosts Hfund Hle Hfail. unfold prepareCreateContract.
  destruct (randomHostsForContractForm env neededContracts s) as [r s1] eqn:Hr.
  simpl in Hhosts. subst r. rewrite Hfund.
  rewrite formContracts_first.
  replace (contractFund >? clientRemainingFund) with false
    by (symmetry; rewrite Z.gtb_ltb; apply Z.ltb_ge; lia).
  rewrite formationFails_rejected in *. rewrite Hfail.
  exists s1. reflexivity.
Qed.


End ContractFormation.

Lemma prepareCreateContract_panics_on_failed_formation_witness :
  exists s',
    ContractManager.prepareCreateContract
      (ContractManager.exampleEnvironment
         [ContractManager.exampleHost 1%N 500; ContractManager.exampleHost 2%N 5]
         (fun _ => ContractManager.Formed (ContractManager.exampleContract 9%N)))
      2 1000 ContractManager.exampleRent ContractManager.emptyManager
    = ContractManager.Panics "nil pointer dereference" s'.
Proof.
  apply (prepareCreateContract_panics_on_failed_formation
           (ContractManager.exampleEnvironment
              [ContractManager.exampleHost 1%N 500; ContractManager.exampleHost 2%N 5]
              (fun _ => ContractManager.Formed (ContractManager.exampleContract 9%N)))
           2 1000 100 ContractManager.exampleRent ContractManager.emptyManager
           (ContractManager.exampleHost 1%N 500) [ContractManager.exampleHost 2%N 5]).
  - reflexivity.
  - reflexivity.
  - lia.
  - reflexivity.
Defined.

